(** * video-generator: the frame-synthesis and video-assembly pipeline

    A shallow embedding of [pages/api/generate-video.ts] and
    [lib/templates.ts].

    - JavaScript numbers that hold pixel counts, frame indices and
      timestamps are integers ([Z]). The numbers of the zoom loop, which
      are computed with [Math.cos], [Math.PI] and division, are binary64
      values: module [Doubles] takes a double to be the real number it
      denotes, rounds the result of every operation to a nearest double
      and leaves [Math.cos], which the language does not pin down, to
      the host. Module [Geometry] holds the same formulas over the exact
      reals, the idealisation the zoom curve is designed in.
    - JavaScript strings that carry user text and markup are lists of
      UTF-16 code units ([list N]); file-system paths are [string]s.
    - The handler is a computation in a state-and-exception monad over a
      world made of the temporary directory, the call log and the clock;
      the collaborators (object storage, image library, encoder, file
      system) are an oracle record. *)

From Stdlib Require Import Reals Lra Lia ZArith List String Ascii Bool.
From Stdlib Require Import DecimalString DecimalZ.
From Stdlib Require Import Epsilon Machin QArith Qreals.
Close Scope Q_scope.
Import ListNotations.

(* ================================================================== *)
(** ** Numbers *)

Module Num.

Local Open Scope R_scope.

(** [Math.round]: the nearest integer, ties towards plus infinity. *)
Definition js_round (x : R) : Z := Zfloor (x + / 2).

(** [m || d] on an optional number: [undefined] and [0] are falsy. *)
Definition js_or (m : option Z) (d : Z) : Z :=
  match m with
  | Some v => if (v =? 0)%Z then d else v
  | None => d
  end.

(** [Math.round(n / d)] for integers [n] and [d] with [d > 0], in integer
    arithmetic: the floor of [n / d + 1 / 2]. *)
Definition roundDiv (n d : Z) : Z := ((2 * n + d) / (2 * d))%Z.

End Num.

(* ================================================================== *)
(** ** Frame geometry of the zoom style, over the exact reals

    The formulas of the zoom loop as they are written, without the
    rounding of the arithmetic: the curve the loop approximates. What
    the handler computes is in module [Doubles] below. *)

Module Geometry.

Import Num.
Local Open Scope R_scope.

Definition fps : Z := 25.
Definition zoomFactor : R := 6 / 10.

(** [const easeInOutSine = (t) => (1 - Math.cos(Math.PI * t)) / 2] *)
Definition easeInOutSine (t : R) : R := (1 - cos (PI * t)) / 2.

(** [Math.max(1280 / iw, 720 / ih)] *)
Definition minFactor (iw ih : Z) : R := Rmax (1280 / IZR iw) (720 / IZR ih).

(** [frames === 1 ? 1 : i / (frames - 1)] *)
Definition frameTime (frames i : Z) : R :=
  if (frames =? 1)%Z then 1 else IZR i / IZR (frames - 1).

(** The two assignments to [factor] in the loop body. *)
Definition factor (iw ih frames i : Z) : R :=
  let et := easeInOutSine (frameTime frames i) in
  let factor := 1 + zoomFactor * et in
  Rmax factor (minFactor iw ih).

Record FrameSpec := mkFrameSpec {
  scaledW : Z;
  scaledH : Z;
  left : Z;
  top : Z;
  width : Z;
  height : Z
}.

(** The window computed from the float scaled size: the arguments of
    [resize] and [extract]. *)
Definition cropWindow (floatScaledW floatScaledH : R) : FrameSpec :=
  let scaledW := js_round floatScaledW in
  let scaledH := js_round floatScaledH in
  let left := Z.max 0 (js_round ((floatScaledW - 1280) / 2)) in
  let top := Z.max 0 (js_round ((floatScaledH - 720) / 2)) in
  mkFrameSpec scaledW scaledH left top (Z.min 1280 scaledW) (Z.min 720 scaledH).

Definition frameGeometry (iw ih frames i : Z) : FrameSpec :=
  let factor := factor iw ih frames i in
  let floatScaledW := IZR iw * factor in
  let floatScaledH := IZR ih * factor in
  cropWindow floatScaledW floatScaledH.

End Geometry.

(* ================================================================== *)
(** ** Frame geometry of the zoom style, in binary64 *)

Module Doubles.

Import Num Geometry.
Local Open Scope R_scope.

(** The finite IEEE-754 binary64 numbers: [m * 2^e] with a significand
    below [2^53] and an exponent from [-1074] to [971]. *)
Definition isDouble (x : R) : Prop :=
  exists m e : Z,
    (Z.abs m < 2 ^ 53)%Z /\ (-1074 <= e <= 971)%Z /\ x = IZR m * powerRZ 2 e.

(** [d] is a double nearest to [x]. *)
Definition nearest (x d : R) : Prop :=
  isDouble d /\ forall d', isDouble d' -> Rabs (d - x) <= Rabs (d' - x).

(** Rounding to a nearest double. Half-way between two doubles either
    is nearest, and what is proved of [fl] holds for both choices, so
    for the round-half-to-even of IEEE-754 as well. The numbers of the
    zoom loop stay far below the overflow threshold, so no infinity
    arises. *)
Definition fl (x : R) : R := epsilon (inhabits 0) (nearest x).

(** [Math.PI]: the Number value for pi. *)
Definition PI64 : R := fl PI.

(** [const zoomFactor = 0.6]: the double the literal denotes. *)
Definition zoomFactor : R := fl (6 / 10).

(** [const easeInOutSine = (t) => (1 - Math.cos(Math.PI * t)) / 2], each
    operation rounded; [cos64] is the engine's [Math.cos]. *)
Definition easeInOutSine (cos64 : R -> R) (t : R) : R :=
  fl (fl (1 - cos64 (fl (PI64 * t))) / 2).

(** [Math.max(1280 / iw, 720 / ih)] *)
Definition minFactor (iw ih : Z) : R :=
  Rmax (fl (1280 / IZR iw)) (fl (720 / IZR ih)).

(** [frames === 1 ? 1 : i / (frames - 1)] *)
Definition frameTime (frames i : Z) : R :=
  if (frames =? 1)%Z then 1 else fl (IZR i / IZR (frames - 1)).

(** The two assignments to [factor] in the loop body. *)
Definition factor (cos64 : R -> R) (iw ih frames i : Z) : R :=
  let et := easeInOutSine cos64 (frameTime frames i) in
  let factor := fl (1 + fl (zoomFactor * et)) in
  Rmax factor (minFactor iw ih).

(** The arguments of [resize] and [extract], from the float scaled
    size. *)
Definition cropWindow (floatScaledW floatScaledH : R) : FrameSpec :=
  let scaledW := js_round floatScaledW in
  let scaledH := js_round floatScaledH in
  let left := Z.max 0 (js_round (fl (fl (floatScaledW - 1280) / 2))) in
  let top := Z.max 0 (js_round (fl (fl (floatScaledH - 720) / 2))) in
  mkFrameSpec scaledW scaledH left top (Z.min 1280 scaledW) (Z.min 720 scaledH).

Definition frameGeometry (cos64 : R -> R) (iw ih frames i : Z) : FrameSpec :=
  let factor := factor cos64 iw ih frames i in
  let floatScaledW := fl (IZR iw * factor) in
  let floatScaledH := fl (IZR ih * factor) in
  cropWindow floatScaledW floatScaledH.

(** A [Math.cos] that returns the double nearest to the cosine. *)
Definition roundedCos (x : R) : R := fl (cos x).

End Doubles.

(* ================================================================== *)
(** ** The series of [2 atan (1/3) + atan (1/7) = PI / 4], in rationals *)

Module PiSeries.

Fixpoint qpow (q : Q) (n : nat) : Q :=
  match n with
  | O => 1%Q
  | S k => (q * qpow q k)%Q
  end.

Definition qterm (n : nat) : Q :=
  ((if Nat.even n then 1 else -1)
   * ((2 * qpow (1 # 3) (2 * n + 1) + qpow (1 # 7) (2 * n + 1))
      / (Z.of_nat (2 * n + 1) # 1)))%Q.

Fixpoint qsum (n : nat) : Q :=
  match n with
  | O => qterm 0
  | S k => (qsum k + qterm (S k))%Q
  end.

End PiSeries.

(* ================================================================== *)
(** ** Overlay text: trimming, escaping and the SVG markup *)

Module Text.

Import Num.

(** A JavaScript string: its UTF-16 code units. *)
Definition jsstring := list N.

(** A literal of the source, as code units. *)
Fixpoint lit (s : string) : jsstring :=
  match s with
  | EmptyString => []
  | String c r => N_of_ascii c :: lit r
  end.

Definition AMP : N := 38.
Definition LT : N := 60.
Definition GT : N := 62.
Definition QUOT : N := 34.
Definition APOS : N := 39.

(** [str.replace(/c/g, r)] for a pattern of one code unit [c] and a
    replacement [r] without dollar patterns. *)
Fixpoint replaceAll (c : N) (r : jsstring) (str : jsstring) : jsstring :=
  match str with
  | [] => []
  | x :: rest => (if N.eqb x c then r else [x]) ++ replaceAll c r rest
  end.

(** The chain of five [replace] calls of the source, in its order:
    ampersand, less-than, greater-than, double quote, apostrophe. *)
Definition escapeXml (str : jsstring) : jsstring :=
  replaceAll APOS (lit "&apos;")
    (replaceAll QUOT (lit "&quot;")
      (replaceAll GT (lit "&gt;")
        (replaceAll LT (lit "&lt;")
          (replaceAll AMP (lit "&amp;") str)))).

(** ECMAScript WhiteSpace and LineTerminator code units, which
    [String.prototype.trim] strips. *)
Definition isWhiteSpace (c : N) : bool :=
  existsb (N.eqb c)
    [9; 10; 11; 12; 13; 32; 160; 5760; 8232; 8233; 8239; 8287; 12288; 65279]%N
  || ((8192 <=? c)%N && (c <=? 8202)%N).

Fixpoint trimStart (str : jsstring) : jsstring :=
  match str with
  | [] => []
  | c :: rest => if isWhiteSpace c then trimStart rest else str
  end.

Definition trimEnd (str : jsstring) : jsstring := rev (trimStart (rev str)).

Definition trim (str : jsstring) : jsstring := trimEnd (trimStart str).

(** [includeText !== false && !!productName && productName.trim().length > 0] *)
Definition showText (productName : option jsstring) (includeText : option bool)
  : bool :=
  negb (match includeText with Some false => true | _ => false end)
  && match productName with
     | Some str => negb (Nat.eqb (List.length str) 0)
     | None => false
     end
  && match productName with
     | Some str => Nat.ltb 0 (List.length (trim str))
     | None => false
     end.

(** [String(n)] for an integer. *)
Definition showZ (n : Z) : jsstring := lit (NilZero.string_of_int (Z.to_int n)).

(** Zoom path: [Math.max(28, Math.round(Math.min(scaledW, scaledH) / 24))] *)
Definition fontSizeZoom (scaledW scaledH : Z) : Z :=
  Z.max 28 (roundDiv (Z.min scaledW scaledH) 24).

(** Slide path: [Math.max(28, Math.round(w / 24))] *)
Definition fontSizeSlide (w : Z) : Z :=
  Z.max 28 (roundDiv w 24).

(** The font size as the specification words it, for a canvas of
    [canvasW] by [canvasH]: [max(28, min(canvasW, canvasH) / 24)]. *)
Definition specFontSize (canvasW canvasH : Z) : R :=
  Rmax 28 (IZR (Z.min canvasW canvasH) / 24).

(** [productName!]: the non-null assertion compiles to nothing. *)
Definition assertString (productName : option jsstring) : jsstring :=
  match productName with
  | Some str => str
  | None => []
  end.

Definition dq : jsstring := [QUOT].
Definition nl : jsstring := [10%N].

(** The part of the template literal before the first [${text}], for an
    [<svg>] element of the given size. *)
Definition svgHead (svgW svgH fontSize : Z) : jsstring :=
  lit "<?xml version=" ++ dq ++ lit "1.0" ++ dq ++ lit " encoding=" ++ dq
    ++ lit "UTF-8" ++ dq ++ lit "?>" ++ nl
  ++ lit "<svg width=" ++ dq ++ showZ svgW ++ dq ++ lit " height=" ++ dq
    ++ showZ svgH ++ dq ++ lit " xmlns=" ++ dq
    ++ lit "http://www.w3.org/2000/svg" ++ dq ++ lit ">" ++ nl
  ++ lit "  <style>" ++ nl
  ++ lit "    .title { fill: white; font-size: " ++ showZ fontSize
    ++ lit "px; font-weight: 700; font-family: Arial, Helvetica, sans-serif; text-anchor: middle; }"
    ++ nl
  ++ lit "    .shadow { fill: black; opacity: 0.6; font-size: " ++ showZ fontSize
    ++ lit "px; font-weight:700; font-family: Arial, Helvetica, sans-serif; text-anchor: middle; }"
    ++ nl
  ++ lit "  </style>" ++ nl
  ++ lit "  <g>" ++ nl
  ++ lit "    <text x=" ++ dq ++ lit "50%" ++ dq ++ lit " y=" ++ dq ++ lit "88%"
    ++ dq ++ lit " class=" ++ dq ++ lit "shadow" ++ dq ++ lit " dy=" ++ dq
    ++ lit "2" ++ dq ++ lit ">".

(** Between the two [${text}]. *)
Definition svgMid : jsstring :=
  lit "</text>" ++ nl
  ++ lit "    <text x=" ++ dq ++ lit "50%" ++ dq ++ lit " y=" ++ dq ++ lit "86%"
    ++ dq ++ lit " class=" ++ dq ++ lit "title" ++ dq ++ lit ">".

(** After the second [${text}]. *)
Definition svgTail : jsstring :=
  lit "</text>" ++ nl ++ lit "  </g>" ++ nl ++ lit "</svg>".

Definition svg (svgW svgH fontSize : Z) (text : jsstring) : jsstring :=
  svgHead svgW svgH fontSize ++ text ++ svgMid ++ text ++ svgTail.

(** The overlay of one zoom frame: a 1280x720 [<svg>], the font sized
    from the resized image; [text] is the escaped, trimmed product name. *)
Definition zoomSvg (scaledW scaledH : Z) (text : jsstring) : jsstring :=
  let fontSize := fontSizeZoom scaledW scaledH in
  svg 1280 720 fontSize text.

(** The overlay of the slide image: a [w]x[h] [<svg>], the font sized
    from the width. *)
Definition slideSvg (w h : Z) (text : jsstring) : jsstring :=
  let fontSize := fontSizeSlide w in
  svg w h fontSize text.

(** What [escapeXml] is meant to compute: each code unit on its own. *)
Definition escapeUnit (c : N) : jsstring :=
  if N.eqb c AMP then lit "&amp;"
  else if N.eqb c LT then lit "&lt;"
  else if N.eqb c GT then lit "&gt;"
  else if N.eqb c QUOT then lit "&quot;"
  else if N.eqb c APOS then lit "&apos;"
  else [c].

Definition isMeta (c : N) : bool :=
  N.eqb c AMP || N.eqb c LT || N.eqb c GT || N.eqb c QUOT || N.eqb c APOS.

(** The five entity references, without the leading ampersand. *)
Definition entityBodies : list jsstring :=
  [lit "amp;"; lit "lt;"; lit "gt;"; lit "quot;"; lit "apos;"].

Fixpoint isPrefix (p s : jsstring) : bool :=
  match p, s with
  | [], _ => true
  | _ :: _, [] => false
  | a :: p', b :: s' => N.eqb a b && isPrefix p' s'
  end.

(** No raw metacharacter: no [<], [>], double or single quote, and every
    [&] starts one of the five entity references. *)
Fixpoint wellEscaped (s : jsstring) : bool :=
  match s with
  | [] => true
  | c :: rest =>
      (if N.eqb c AMP then existsb (fun e => isPrefix e rest) entityBodies
       else negb (isMeta c))
      && wellEscaped rest
  end.

(** The reader's side: replace each entity reference by its character. *)
Fixpoint unescapeXml (fuel : nat) (s : jsstring) : jsstring :=
  match fuel with
  | O => s
  | S fuel' =>
      match s with
      | [] => []
      | c :: rest =>
          if N.eqb c AMP then
            if isPrefix (lit "amp;") rest then AMP :: unescapeXml fuel' (skipn 4 rest)
            else if isPrefix (lit "lt;") rest then LT :: unescapeXml fuel' (skipn 3 rest)
            else if isPrefix (lit "gt;") rest then GT :: unescapeXml fuel' (skipn 3 rest)
            else if isPrefix (lit "quot;") rest then QUOT :: unescapeXml fuel' (skipn 5 rest)
            else if isPrefix (lit "apos;") rest then APOS :: unescapeXml fuel' (skipn 5 rest)
            else c :: unescapeXml fuel' rest
          else c :: unescapeXml fuel' rest
      end
  end.

End Text.

(* ================================================================== *)
(** ** The template registry ([lib/templates.ts]) *)

Module Templates.

Inductive Style := zoom | slide.

Record Template := mkTemplate {
  id : string;
  name : string;
  style : Style;
  musicFile : string;
  durationSeconds : Z
}.

Definition templates : list Template :=
  [ mkTemplate "zoom-ambient" "Ambient Zoom" zoom "/musics/ambient.mp3" 6;
    mkTemplate "slide-funky" "Funky Slide" slide "/musics/funky.mp3" 6 ].

(** [templates.find(t => t.id === id)] *)
Definition getTemplateById (i : string) : option Template :=
  find (fun t => String.eqb (id t) i) templates.

End Templates.

(* ================================================================== *)
(** ** The request handler ([pages/api/generate-video.ts]) *)

Module Pipeline.

Import Num Geometry Text Templates.

Local Open Scope string_scope.

Definition Buffer := list N.

(** [String(n)] as a path component. *)
Definition decimal (n : Z) : string := NilZero.string_of_int (Z.to_int n).

(** [s.padStart(n, '0')] *)
Definition padStart0 (n : nat) (s : string) : string :=
  String.concat "" (repeat "0" (n - String.length s)) ++ s.

(** The parts of [path] between its slashes. *)
Fixpoint splitSlash (path : string) : list string :=
  match path with
  | EmptyString => [EmptyString]
  | String c rest =>
      if Ascii.eqb c "/" then EmptyString :: splitSlash rest
      else match splitSlash rest with
           | part :: parts => String c part :: parts
           | [] => [String c EmptyString]
           end
  end.

(** One turn of [normalizeString]: an empty part and [.] are skipped,
    [..] removes the part before it, or stays when there is none to
    remove and the path is relative. [res] holds the parts kept so far,
    the last one first. *)
Definition pushSegment (allowAboveRoot : bool) (res : list string)
    (part : string) : list string :=
  if (part =? "") || (part =? ".") then res
  else if part =? ".." then
    match res with
    | last :: before =>
        if last =? ".." then part :: res else before
    | [] => if allowAboveRoot then [part] else []
    end
  else part :: res.

Definition normalizeString (path : string) (allowAboveRoot : bool) : string :=
  String.concat "/"
    (rev (fold_left (pushSegment allowAboveRoot) (splitSlash path) [])).

(** [path.charCodeAt(0) === 47] *)
Definition startsWithSlash (path : string) : bool :=
  match path with
  | String c _ => Ascii.eqb c "/"
  | EmptyString => false
  end.

(** [path.charCodeAt(path.length - 1) === 47] *)
Fixpoint endsWithSlash (path : string) : bool :=
  match path with
  | EmptyString => false
  | String c EmptyString => Ascii.eqb c "/"
  | String _ rest => endsWithSlash rest
  end.

(** [path.normalize(path)] *)
Definition normalize (path : string) : string :=
  if path =? "" then "."
  else
    let isAbsolute := startsWithSlash path in
    let trailingSeparator := endsWithSlash path in
    let body := normalizeString path (negb isAbsolute) in
    if body =? "" then
      if isAbsolute then "/" else if trailingSeparator then "./" else "."
    else
      (if isAbsolute then "/" else "") ++ body
      ++ (if trailingSeparator then "/" else "").

(** [path.join(...args)] (POSIX) *)
Definition join (args : list string) : string :=
  match filter (fun arg => negb (arg =? "")) args with
  | [] => "."
  | parts => normalize (String.concat "/" parts)
  end.

(** [path.join(dir, name)] *)
Definition pathJoin (dir name : string) : string := join [dir; name].

(** A string without a slash. *)
Definition noSlash (name : string) : bool :=
  forallb (fun c => negb (Ascii.eqb c "/")) (list_ascii_of_string name).

(** A file name: not empty, without a slash, and neither [.] nor [..]. *)
Definition plainName (name : string) : bool :=
  negb (name =? "") && negb (name =? ".") && negb (name =? "..")
  && noSlash name.

(** What [path.join(dir, name)] puts before a file name. *)
Definition dirPrefix (dir : string) : string :=
  let isAbsolute := startsWithSlash dir in
  let res := fold_left (pushSegment (negb isAbsolute)) (splitSlash dir) [] in
  (if isAbsolute then "/" else "")
  ++ match res with
     | [] => ""
     | _ :: _ => String.concat "/" (rev res) ++ "/"
     end.

(** The parts [normalizeString] keeps, the last one first: file names
    above a run of [..], which only a relative path has. *)
Definition normalRes (allowAboveRoot : bool) (res : list string) : Prop :=
  exists names dots,
    res = (names ++ dots)%list
    /\ Forall (fun p => plainName p = true) names
    /\ Forall (fun p => p = "..") dots
    /\ (dots <> [] -> allowAboveRoot = true).

(** A path in normal form that names a file. *)
Definition normalPath (p : string) : Prop :=
  exists (isAbsolute : bool) res,
    normalRes (negb isAbsolute) res /\ res <> []
    /\ p = (if isAbsolute then "/" else "") ++ String.concat "/" (rev res).

(** [path.basename(p)]: the part after the last slash. *)
Fixpoint basename (p : string) : string :=
  match p with
  | EmptyString => EmptyString
  | String c rest =>
      if existsb (Ascii.eqb "/") (list_ascii_of_string rest) then basename rest
      else if Ascii.eqb c "/" then rest
      else p
  end.

(** *** Locating the encoder (module initialisation) *)

Record Host := mkHost {
  FFMPEG_PATH : option string;   (* process.env.FFMPEG_PATH *)
  ffmpegStatic : option string;  (* the bundled binary's path *)
  existsSync : string -> bool;
  whichSync : option string      (* which.sync('ffmpeg'); None: it throws *)
}.

(** A string in a boolean position: [undefined], [null] and the empty
    string are falsy. *)
Definition truthy (s : option string) : option string :=
  match s with
  | Some p => if p =? "" then None else Some p
  | None => None
  end.

Definition resolveFfmpeg (h : Host) : option string :=
  let ffmpegPath :=
    match truthy (FFMPEG_PATH h) with
    | Some p => Some p
    | None => truthy (ffmpegStatic h)
    end in
  let ffmpegPath :=
    match ffmpegPath with
    | Some p => if existsSync h p then Some p else None
    | None => None
    end in
  match ffmpegPath with
  | Some p => Some p
  | None => truthy (whichSync h)
  end.

(** *** Collaborators and the world *)

Record Metadata := mkMetadata { mdWidth : option Z; mdHeight : option Z }.

Inductive VideoSource :=
| FrameSequence (pattern : string) (framerate : Z)
| LoopedImage (path : string) (filters : string).

Inductive AudioSource :=
| AudioFile (path : string)
| Silence.

Record EncodeJob := mkEncodeJob {
  videoSource : VideoSource;
  audioSource : AudioSource;
  outputDuration : Z;
  outputPath : string
}.

Inductive Event :=
| StorageGet (key : string)
| StoragePut (key : string)
| ImageMetadata
| ImageRenderFrame (g : FrameSpec) (overlay : option jsstring)
    (outPath : string)
| ImageComposite (svg : jsstring) (outPath : string)
| EncoderRun (job : EncodeJob)
| FsWriteFile (path : string)
| FsMkdir (path : string)
| FsStat (path : string)
| FsReadFile (path : string)
| FsUnlink (path : string)
| FsRm (path : string).

(** How the collaborators answer during one run. [None] and [false]
    stand for a thrown exception or a rejected promise. *)
Record Oracle := mkOracle {
  tmpdir : string;                       (* os.tmpdir() *)
  cwd : string;                          (* process.cwd() *)
  now : nat -> Z;                        (* the k-th Date.now() of the run *)
  getObject : string -> option Buffer;   (* getObjectBuffer(key) *)
  musicSize : option Z;                  (* fs.statSync(music).size *)
  metadata : Buffer -> option Metadata;  (* sharp(image).metadata() *)
  renderFrame : Z -> bool;               (* toFile of frame i *)
  composite : bool;                      (* toFile of the slide composite *)
  encode : bool;                         (* the encoder ends without error *)
  upload : string -> option string;      (* uploadToS3(key, ...) *)
  mathCos : R -> R;                      (* the engine's Math.cos *)
  fsRefuses : Event -> bool              (* the file-system calls that the
                                            system refuses: no permission,
                                            no space, an I/O error *)
}.

Record World := mkWorld {
  files : list string;   (* the paths that exist under the temp root *)
  log : list Event;      (* the calls made so far, oldest first *)
  ticks : nat            (* how many times Date.now() was read *)
}.

(** *** The monad: world passing with exceptions *)

Inductive Outcome (A : Type) :=
| Return (a : A)
| Throw (message : string).
Arguments Return {A} a.
Arguments Throw {A} message.

Definition M (A : Type) : Type := World -> Outcome A * World.

Definition ret {A} (a : A) : M A := fun w => (Return a, w).

Definition throw {A} (message : string) : M A := fun w => (Throw message, w).

Definition bind {A B} (c : M A) (k : A -> M B) : M B :=
  fun w =>
    match c w with
    | (Return a, w') => k a w'
    | (Throw m, w') => (Throw m, w')
    end.

(** [try { c } catch (e) { h e }] *)
Definition tryCatch {A} (c : M A) (h : string -> M A) : M A :=
  fun w =>
    match c w with
    | (Return a, w') => (Return a, w')
    | (Throw m, w') => h m w'
    end.

Notation "x <- c ;; k" := (bind c (fun x => k))
  (at level 61, c at next level, right associativity).
Notation "c ;; k" := (bind c (fun _ => k))
  (at level 61, right associativity).

Definition emit (e : Event) : M unit :=
  fun w => (Return tt, mkWorld (files w) (log w ++ [e]) (ticks w)).

Definition orThrow {A} (r : option A) (message : string) : M A :=
  match r with
  | Some a => ret a
  | None => throw message
  end.

Definition dateNow (o : Oracle) : M Z :=
  fun w => (Return (now o (ticks w)), mkWorld (files w) (log w) (S (ticks w))).

Definition fileExists (p : string) (fs : list string) : bool :=
  existsb (String.eqb p) fs.

(** The files once [p] exists. *)
Definition added (p : string) (fs : list string) : list string :=
  if fileExists p fs then fs else (fs ++ [p])%list.

(** A file or directory comes into existence at [p]. *)
Definition create (p : string) : M unit :=
  fun w => (Return tt, mkWorld (added p (files w)) (log w) (ticks w)).

(** A call to the file system: logged, then refused by the system, in
    which case it throws and changes nothing, or carried out. *)
Definition fsCall (o : Oracle) (e : Event) (c : M unit) : M unit :=
  emit e ;;
  if fsRefuses o e then throw "EACCES: permission denied" else c.

(** [fs.writeFileSync(p, data)] *)
Definition writeFileSync (o : Oracle) (p : string) : M unit :=
  fsCall o (FsWriteFile p) (create p).

(** [fs.mkdirSync(p, { recursive: true })] *)
Definition mkdirSync (o : Oracle) (p : string) : M unit :=
  fsCall o (FsMkdir p) (create p).

(** [fs.unlinkSync(p)]: throws also when [p] does not exist. *)
Definition unlinkSync (o : Oracle) (p : string) : M unit :=
  fsCall o (FsUnlink p)
    (fun w =>
       if fileExists p (files w)
       then (Return tt,
             mkWorld (filter (fun q => negb (q =? p)) (files w)) (log w) (ticks w))
       else (Throw "ENOENT: no such file or directory", w)).

(** [fs.rmSync(p, { recursive: true, force: true })]: [p] and all below;
    a missing [p] is no error. *)
Definition rmSync (o : Oracle) (p : string) : M unit :=
  fsCall o (FsRm p)
    (fun w =>
       (Return tt,
        mkWorld (filter (fun q => negb (q =? p) && negb (String.prefix (p ++ "/") q))
                        (files w))
                (log w) (ticks w))).

(** [fs.readFileSync(p)]: throws also when [p] does not exist. *)
Definition readFileSync (o : Oracle) (p : string) : M unit :=
  fsCall o (FsReadFile p)
    (fun w =>
       if fileExists p (files w) then (Return tt, w)
       else (Throw "ENOENT: no such file or directory", w)).

Fixpoint forEach {A} (xs : list A) (body : A -> M unit) : M unit :=
  match xs with
  | [] => ret tt
  | x :: rest => body x ;; forEach rest body
  end.

(** The values of [i] in [for (let i = 0; i < frames; i++)]. *)
Definition frameIndices (frames : Z) : list Z :=
  map Z.of_nat (seq 0 (Z.to_nat frames)).

(** *** The temporary paths of a run *)

Definition inputImagePathAt (tmpDir : string) (t : Z) : string :=
  pathJoin tmpDir ("input-" ++ decimal t ++ ".jpg").

Definition outputVideoPathAt (tmpDir : string) (t : Z) : string :=
  pathJoin tmpDir ("output-" ++ decimal t ++ ".mp4").

Definition framesDirAt (tmpDir : string) (t : Z) : string :=
  pathJoin tmpDir ("frames-" ++ decimal t).

Definition withTextPathAt (tmpDir : string) (t : Z) : string :=
  pathJoin tmpDir ("slide-input-" ++ decimal t ++ ".png").

Definition framePath (framesDir : string) (i : Z) : string :=
  pathJoin framesDir ("frame-" ++ padStart0 4 (decimal i) ++ ".png").

(** *** The request and the response *)

Record Request := mkRequest {
  method : string;
  imageKey : option string;
  templateId : option string;
  productName : option jsstring;
  includeText : option bool
}.

Inductive Body :=
| ErrorBody (error : string)
| VideoBody (videoUrl : string).

Record Response := mkResponse { status : Z; body : Body }.

(** *** The encoder invocation *)

Definition runEncoder (o : Oracle) (job : EncodeJob) : M unit :=
  emit (EncoderRun job) ;;
  if encode o then create (outputPath job)
  else throw "ffmpeg exited with an error".

Definition audioFor (audioFileAvailable : bool) (musicFullPath : string)
  : AudioSource :=
  if audioFileAvailable then AudioFile musicFullPath else Silence.

(** *** The zoom branch *)

Definition zoomBranch (o : Oracle) (imageBuffer : Buffer) (tmpDir : string)
    (outputVideoPath : string) (audio : AudioSource) (template : Template)
    (productName : option jsstring) (showText : bool) (frames : Z) : M unit :=
  t <- dateNow o ;;
  let framesDir := framesDirAt tmpDir t in
  mkdirSync o framesDir ;;
  emit ImageMetadata ;;
  md <- orThrow (metadata o imageBuffer) "Input buffer contains unsupported image format" ;;
  let iw := js_or (mdWidth md) 1280 in
  let ih := js_or (mdHeight md) 720 in
  forEach (frameIndices frames) (fun i =>
    let g := Doubles.frameGeometry (mathCos o) iw ih frames i in
    let outPath := framePath framesDir i in
    let overlay :=
      if showText then
        let text := escapeXml (trim (assertString productName)) in
        let svg := zoomSvg (scaledW g) (scaledH g) text in
        Some svg
      else None in
    emit (ImageRenderFrame g overlay outPath) ;;
    if renderFrame o i then create outPath
    else throw "frame rendering failed") ;;
  runEncoder o
    (mkEncodeJob (FrameSequence (pathJoin framesDir "frame-%04d.png") Geometry.fps)
       audio (durationSeconds template) outputVideoPath) ;;
  rmSync o framesDir.

(** *** The slide branch *)

Definition slideFilters (slideFps slideFrames : Z) : string :=
  "fps=" ++ decimal slideFps ++ ",scale=1280:-1" ++ ","
  ++ "crop=1280:720:x='min(max(0,(iw-1280)*n/" ++ decimal slideFrames
  ++ "),iw-1280)':y=0".

Definition slideBranch (o : Oracle) (imageBuffer : Buffer) (tmpDir : string)
    (inputImagePath outputVideoPath : string) (audio : AudioSource)
    (template : Template) (productName : option jsstring) (showText : bool)
  : M unit :=
  slideInput <-
    (if showText then
       tryCatch
         (emit ImageMetadata ;;
          meta <- orThrow (metadata o imageBuffer)
                    "Input file contains unsupported image format" ;;
          let w := js_or (mdWidth meta) 1280 in
          let h := js_or (mdHeight meta) 720 in
          let text := escapeXml (trim (assertString productName)) in
          let svg := slideSvg w h text in
          t <- dateNow o ;;
          let withTextPath := withTextPathAt tmpDir t in
          emit (ImageComposite svg withTextPath) ;;
          (if composite o then create withTextPath
           else throw "composite failed") ;;
          ret withTextPath)
         (fun _ => ret inputImagePath)
     else ret inputImagePath) ;;
  let slideFps := Geometry.fps in
  let slideFrames := (durationSeconds template * slideFps)%Z in
  runEncoder o
    (mkEncodeJob (LoopedImage slideInput (slideFilters slideFps slideFrames))
       audio (durationSeconds template) outputVideoPath) ;;
  tryCatch
    (if negb (slideInput =? inputImagePath) then unlinkSync o slideInput
     else ret tt)
    (fun _ => ret tt).

(** *** The body of the [try] block *)

Definition handlerBody (o : Oracle) (req : Request) (imageKey : string)
    (template : Template) : M string :=
  emit (StorageGet imageKey) ;;
  imageBuffer <- orThrow (getObject o imageKey) "storage get failed" ;;
  let tmpDir := tmpdir o in
  t0 <- dateNow o ;;
  let inputImagePath := inputImagePathAt tmpDir t0 in
  t1 <- dateNow o ;;
  let outputVideoPath := outputVideoPathAt tmpDir t1 in
  writeFileSync o inputImagePath ;;
  let musicFullPath := join [cwd o; "public"; musicFile template] in
  emit (FsStat musicFullPath) ;;
  let audioFileAvailable :=
    match musicSize o with
    | Some size => (1024 <? size)%Z
    | None => false
    end in
  let audio := audioFor audioFileAvailable musicFullPath in
  let showText := showText (productName req) (includeText req) in
  let fps := Geometry.fps in
  let frames := (durationSeconds template * fps)%Z in
  match style template with
  | zoom =>
      zoomBranch o imageBuffer tmpDir outputVideoPath audio template
        (productName req) showText frames
  | slide =>
      slideBranch o imageBuffer tmpDir inputImagePath outputVideoPath audio
        template (productName req) showText
  end ;;
  readFileSync o outputVideoPath ;;
  t <- dateNow o ;;
  let key := "videos/" ++ decimal t ++ "-" ++ basename outputVideoPath ++ ".mp4" in
  emit (StoragePut key) ;;
  videoUrl <- orThrow (upload o key) "storage put failed" ;;
  unlinkSync o inputImagePath ;;
  unlinkSync o outputVideoPath ;;
  ret videoUrl.

(** *** The handler *)

Definition ffmpegMissing : string :=
  "FFmpeg binary not found. Set FFMPEG_PATH, install ffmpeg on PATH, or include a compatible ffmpeg binary for your host.".

Definition handler (h : Host) (o : Oracle) (req : Request) (w : World)
  : Response * World :=
  if negb (method req =? "POST")
  then (mkResponse 405 (ErrorBody "Method not allowed"), w)
  else
    match truthy (imageKey req), truthy (templateId req) with
    | Some imageKey, Some templateId =>
        match getTemplateById templateId with
        | None => (mkResponse 400 (ErrorBody "Invalid template"), w)
        | Some template =>
            match resolveFfmpeg h with
            | None => (mkResponse 500 (ErrorBody ffmpegMissing), w)
            | Some _ =>
                match handlerBody o req imageKey template w with
                | (Return videoUrl, w') =>
                    (mkResponse 200 (VideoBody videoUrl), w')
                | (Throw message, w') =>
                    (mkResponse 500
                       (ErrorBody (if message =? "" then "Video generation failed"
                                   else message)), w')
                end
            end
        end
    | _, _ => (mkResponse 400 (ErrorBody "Missing params"), w)
    end.

(** The world a run starts in: an empty temp root, nothing called yet. *)
Definition idle : World := mkWorld [] [] 0.

Definition isStorageGet (e : Event) : bool :=
  match e with StorageGet _ => true | _ => false end.

Definition isImageWork (e : Event) : bool :=
  match e with
  | ImageMetadata | ImageRenderFrame _ _ _ | ImageComposite _ _ => true
  | _ => false
  end.

(** A triple over the temp root: started with files that satisfy [R],
    the computation ends normally with files that satisfy [Q], or throws
    with files that satisfy [E]. Computations are total, so one of the
    two always happens. *)
Definition triple {A} (R : list string -> Prop) (c : M A)
    (Q : A -> list string -> Prop) (E : list string -> Prop) : Prop :=
  forall w, R (files w) ->
    match c w with
    | (Return a, w') => Q a (files w')
    | (Throw _, w') => E (files w')
    end.

(** A computation that creates and removes nothing. *)
Definition quiet {A} (c : M A) : Prop :=
  forall w, files (snd (c w)) = files w.

(** Every file is one of [S]. *)
Definition within (S : string -> Prop) (fs : list string) : Prop :=
  forall f, In f fs -> S f.

(** A computation keeps [P] when, started with a log of calls that
    satisfy [P], it ends with one. *)
Definition keeps (P : Event -> Prop) {A} (c : M A) : Prop :=
  forall w, Forall P (log w) -> Forall P (log (snd (c w))).

(** What an image-library call may carry as text: the markup built
    around the escaped, trimmed product name, for the frame's resized
    image in the zoom style and for the image in the slide style. *)
Definition carriesEscaped (productName : option jsstring) (e : Event) : Prop :=
  match e with
  | ImageRenderFrame g (Some markup) _ =>
      markup = zoomSvg (scaledW g) (scaledH g)
                 (escapeXml (trim (assertString productName)))
  | ImageComposite markup _ =>
      exists w h,
        markup = slideSvg w h (escapeXml (trim (assertString productName)))
  | _ => True
  end.

(** A zoom overlay on the 1280x720 canvas whose font is sized from the
    resized image of its frame: the smaller of its two sides over 24,
    rounded, and at least 28. *)
Definition overlaySized (productName : option jsstring) (e : Event) : Prop :=
  match e with
  | ImageRenderFrame g (Some markup) _ =>
      markup
      = svg 1280 720
          (Z.max 28 (js_round (IZR (Z.min (scaledW g) (scaledH g)) / 24)))
          (escapeXml (trim (assertString productName)))
  | _ => True
  end.

(** A frame whose [extract] window lies inside the resized image. *)
Definition extractInside (e : Event) : Prop :=
  match e with
  | ImageRenderFrame g _ _ =>
      (0 <= left g /\ 0 <= top g
       /\ left g + width g <= scaledW g /\ top g + height g <= scaledH g)%Z
  | _ => True
  end.

(** A call that renders no overlay. *)
Definition noOverlay (e : Event) : Prop :=
  match e with
  | ImageRenderFrame _ (Some _) _ => False
  | ImageComposite _ _ => False
  | _ => True
  end.

End Pipeline.

(* ================================================================== *)
(** ** Sample hosts, collaborators and requests *)

Module Samples.

Import Text Templates Pipeline.

Local Open Scope string_scope.

(** A host with the bundled encoder in place. *)
Definition bundledHost : Host :=
  mkHost None (Some "/app/node_modules/ffmpeg-static/ffmpeg") (fun _ => true) None.

(** A host without any encoder: no override, the bundled file is not
    there, and the PATH search throws. *)
Definition bareHost : Host :=
  mkHost None (Some "/app/node_modules/ffmpeg-static/ffmpeg") (fun _ => false) None.

(** A clock that advances by one millisecond between two readings. *)
Definition tickingClock (t0 : Z) : nat -> Z := fun k => (t0 + Z.of_nat k)%Z.

(** A clock read several times within one millisecond. *)
Definition sameMillisecond (t0 : Z) : nat -> Z := fun _ => t0.

(** Collaborators that serve a 1920x1080 image; the encoder and the
    upload succeed or fail as told. *)
Definition collaborators (clock : nat -> Z) (encodeOk uploadOk : bool) : Oracle :=
  mkOracle "/tmp" "/app" clock
    (fun _ => Some [255; 216; 255]%N)
    (Some 4096%Z)
    (fun _ => Some (mkMetadata (Some 1920%Z) (Some 1080%Z)))
    (fun _ => true)
    true
    encodeOk
    (fun key => if uploadOk then Some ("https://cdn.example/" ++ key) else None)
    Doubles.roundedCos
    (fun _ => false).

(** The same collaborators with an image library that fails to write
    the slide composite. *)
Definition compositeFails (clock : nat -> Z) : Oracle :=
  mkOracle "/tmp" "/app" clock
    (fun _ => Some [255; 216; 255]%N)
    (Some 4096%Z)
    (fun _ => Some (mkMetadata (Some 1920%Z) (Some 1080%Z)))
    (fun _ => true)
    false
    true
    (fun key => Some ("https://cdn.example/" ++ key))
    Doubles.roundedCos
    (fun _ => false).

Definition post (imageKey templateId : option string)
    (productName : option jsstring) (includeText : option bool) : Request :=
  mkRequest "POST" imageKey templateId productName includeText.

(** The same request with another product name and text switch. *)
Definition withText (req : Request) (productName : option jsstring)
    (includeText : option bool) : Request :=
  mkRequest (method req) (imageKey req) (templateId req) productName includeText.

End Samples.

(* ================================================================== *)
(** ** Reasoning about runs: triples over the whole world *)

Module Runs.

Import Geometry Text Templates Pipeline.

Local Open Scope string_scope.

(** Started in a world that satisfies [P], the computation returns [a]
    in a world that satisfies [Q a], or throws in a world that satisfies
    [E]. *)
Definition hoare {A} (P : World -> Prop) (c : M A)
    (Q : A -> World -> Prop) (E : World -> Prop) : Prop :=
  forall w, P w ->
    match c w with
    | (Return a, w') => Q a w'
    | (Throw _, w') => E w'
    end.

Definition isStoragePut (e : Event) : bool :=
  match e with StoragePut _ => true | _ => false end.

Definition isEncoderRun (e : Event) : bool :=
  match e with EncoderRun _ => true | _ => false end.

(** A request that gets past the guards of the handler. *)
Definition accepted (h : Host) (req : Request) (imageKey : string)
    (template : Template) : Prop :=
  method req = "POST"
  /\ truthy (Pipeline.imageKey req) = Some imageKey
  /\ (exists t, truthy (templateId req) = Some t
                /\ getTemplateById t = Some template)
  /\ resolveFfmpeg h <> None.

(** What every encoder invocation of a run for [template] looks like:
    the duration of the template, the music file exactly when it exists
    with more than 1024 bytes and silence otherwise, a frame sequence at
    the frame pattern of the run's frames directory at 25 frames per
    second for the zoom style and a looped image under the pan filter
    for the slide style, written to the output path of the run. *)
Definition encodeJobOk (o : Oracle) (template : Template) (e : Event) : Prop :=
  match e with
  | EncoderRun job =>
      let music := join [cwd o; "public"; musicFile template] in
      outputDuration job = durationSeconds template
      /\ (audioSource job = AudioFile music
          <-> exists size, musicSize o = Some size /\ (1024 < size)%Z)
      /\ (audioSource job = Silence
          <-> forall size, musicSize o = Some size -> (size <= 1024)%Z)
      /\ outputPath job = outputVideoPathAt (tmpdir o) (now o 1)
      /\ match videoSource job with
         | FrameSequence pattern framerate =>
             style template = zoom /\ framerate = 25%Z
             /\ pattern = pathJoin (framesDirAt (tmpdir o) (now o 2))
                                   "frame-%04d.png"
         | LoopedImage _ filters =>
             style template = slide
             /\ filters = slideFilters 25 (durationSeconds template * 25)
         end
  | _ => True
  end.

(** The world after exactly the calls [calls] and [n] readings of the
    clock. *)
Definition at_ (calls : list Event) (n : nat) (w : World) : Prop :=
  log w = calls /\ ticks w = n.

(** A computation that, when it returns, has made exactly the calls
    [calls] and has not read the clock. *)
Definition effect {A} (c : M A) (calls : list Event) : Prop :=
  forall w,
    match c w with
    | (Return _, w') => log w' = (log w ++ calls)%list /\ ticks w' = ticks w
    | (Throw _, _) => True
    end.

(** The escaped text a run puts on the video, if any. *)
Definition overlayText (req : Request) : option jsstring :=
  if showText (productName req) (includeText req)
  then Some (escapeXml (trim (assertString (productName req))))
  else None.

(** The call that renders frame [i] of a zoom run: the window of the
    frame and, with [text], the overlay sized for its resized image. *)
Definition renderCall (cos64 : R -> R) (iw ih frames : Z)
    (text : option jsstring) (framesDir : string) (i : Z) : Event :=
  let g := Doubles.frameGeometry cos64 iw ih frames i in
  ImageRenderFrame g (option_map (zoomSvg (scaledW g) (scaledH g)) text)
    (framePath framesDir i).

(** The calls of a zoom run that ends well, in their order. *)
Definition zoomCalls (o : Oracle) (req : Request) (imageKey : string)
    (template : Template) (md : Metadata) : list Event :=
  let tmpDir := tmpdir o in
  let inputImagePath := inputImagePathAt tmpDir (now o 0) in
  let outputVideoPath := outputVideoPathAt tmpDir (now o 1) in
  let framesDir := framesDirAt tmpDir (now o 2) in
  let musicFullPath := join [cwd o; "public"; musicFile template] in
  let audio :=
    audioFor match musicSize o with
             | Some size => (1024 <? size)%Z
             | None => false
             end musicFullPath in
  let frames := (durationSeconds template * Geometry.fps)%Z in
  let text := overlayText req in
  let key := "videos/" ++ decimal (now o 3) ++ "-" ++ basename outputVideoPath
             ++ ".mp4" in
  ([StorageGet imageKey; FsWriteFile inputImagePath; FsStat musicFullPath;
    FsMkdir framesDir; ImageMetadata]
   ++ map (renderCall (mathCos o) (Num.js_or (mdWidth md) 1280)
             (Num.js_or (mdHeight md) 720) frames text framesDir)
          (frameIndices frames)
   ++ [EncoderRun
         (mkEncodeJob
            (FrameSequence (pathJoin framesDir "frame-%04d.png") Geometry.fps)
            audio (durationSeconds template) outputVideoPath);
       FsRm framesDir; FsReadFile outputVideoPath; StoragePut key;
       FsUnlink inputImagePath; FsUnlink outputVideoPath])%list.

(** The overlay step of a slide run whose clock has been read twice: its
    calls, its readings of the clock, and the image it hands to the
    encoder. *)
Definition slideOverlay (o : Oracle) (req : Request) (imageBuffer : Buffer)
    (inputImagePath : string) : list Event * nat * string :=
  if showText (productName req) (includeText req) then
    match metadata o imageBuffer with
    | Some meta =>
        let w := Num.js_or (mdWidth meta) 1280 in
        let h := Num.js_or (mdHeight meta) 720 in
        let text := escapeXml (trim (assertString (productName req))) in
        let withTextPath := withTextPathAt (tmpdir o) (now o 2) in
        ([ImageMetadata; ImageComposite (slideSvg w h text) withTextPath], 1%nat,
         if composite o then withTextPath else inputImagePath)
    | None => ([ImageMetadata], 0%nat, inputImagePath)
    end
  else ([], 0%nat, inputImagePath).

(** The calls of a slide run that ends well, in their order. *)
Definition slideCalls (o : Oracle) (req : Request) (imageKey : string)
    (template : Template) (imageBuffer : Buffer) : list Event :=
  let tmpDir := tmpdir o in
  let inputImagePath := inputImagePathAt tmpDir (now o 0) in
  let outputVideoPath := outputVideoPathAt tmpDir (now o 1) in
  let musicFullPath := join [cwd o; "public"; musicFile template] in
  let audio :=
    audioFor match musicSize o with
             | Some size => (1024 <? size)%Z
             | None => false
             end musicFullPath in
  let slideFrames := (durationSeconds template * Geometry.fps)%Z in
  let '(overlayCalls, readings, slideInput) :=
    slideOverlay o req imageBuffer inputImagePath in
  let key := "videos/" ++ decimal (now o (2 + readings)) ++ "-"
             ++ basename outputVideoPath ++ ".mp4" in
  ([StorageGet imageKey; FsWriteFile inputImagePath; FsStat musicFullPath]
   ++ overlayCalls
   ++ [EncoderRun
         (mkEncodeJob
            (LoopedImage slideInput (slideFilters Geometry.fps slideFrames))
            audio (durationSeconds template) outputVideoPath)]
   ++ (if slideInput =? inputImagePath then [] else [FsUnlink slideInput])
   ++ [FsReadFile outputVideoPath; StoragePut key;
       FsUnlink inputImagePath; FsUnlink outputVideoPath])%list.

(** Text free of the five metacharacters. *)
Definition plain (s : jsstring) : bool :=
  forallb (fun c => negb (isMeta c)) s.

End Runs.

(* ================================================================== *)
(** ** The storage helper ([lib/s3.ts]) *)

Module S3.

Import Text.

(** The outcome of a call that may throw; the thrown value has a
    [message] or not. *)
Inductive Result (A : Type) :=
| Ok (a : A)
| Threw (message : option jsstring).
Arguments Ok {A} a.
Arguments Threw {A} message.

(** [encodeURIComponent] leaves these alone: letters, digits and
    [- _ . ! ~ * ' ( )]. *)
Definition isUnreserved (c : N) : bool :=
  ((65 <=? c) && (c <=? 90) || (97 <=? c) && (c <=? 122)
   || (48 <=? c) && (c <=? 57)
   || existsb (N.eqb c) [45; 95; 46; 33; 126; 42; 39; 40; 41])%N.

Definition isHighSurrogate (c : N) : bool := ((55296 <=? c) && (c <=? 56319))%N.
Definition isLowSurrogate (c : N) : bool := ((56320 <=? c) && (c <=? 57343))%N.

(** One upper-case hexadecimal digit. *)
Definition hexDigit (n : N) : N := (if n <? 10 then 48 + n else 55 + n)%N.

(** An octet as [%XX]. *)
Definition percent (octet : N) : jsstring :=
  [37; hexDigit (octet / 16); hexDigit (octet mod 16)]%N.

(** The UTF-8 octets of a code point. *)
Definition utf8 (cp : N) : list N :=
  (if cp <? 128 then [cp]
   else if cp <? 2048 then [192 + cp / 64; 128 + cp mod 64]
   else if cp <? 65536 then
     [224 + cp / 4096; 128 + (cp / 64) mod 64; 128 + cp mod 64]
   else
     [240 + cp / 262144; 128 + (cp / 4096) mod 64; 128 + (cp / 64) mod 64;
      128 + cp mod 64])%N.

Definition codePoint (high low : N) : N :=
  ((high - 55296) * 1024 + (low - 56320) + 65536)%N.

(** [encodeURIComponent(s)]; [None] is the URIError of an unpaired
    surrogate. *)
Fixpoint encodeURIComponent (s : jsstring) : option jsstring :=
  match s with
  | [] => Some []
  | c :: rest =>
      if isUnreserved c then option_map (cons c) (encodeURIComponent rest)
      else if isHighSurrogate c then
        match rest with
        | d :: rest' =>
            if isLowSurrogate d then
              option_map (app (flat_map percent (utf8 (codePoint c d))))
                (encodeURIComponent rest')
            else None
        | [] => None
        end
      else if isLowSurrogate c then None
      else option_map (app (flat_map percent (utf8 c))) (encodeURIComponent rest)
  end.

(** The environment of the module. *)
Record Env := mkEnv {
  AWS_REGION : option jsstring;
  S3_BUCKET_NAME : option jsstring;
  S3_PUBLIC_URL : option jsstring
}.

(** A possibly undefined string inside a template literal. *)
Definition interpolate (s : option jsstring) : jsstring :=
  match s with
  | Some str => str
  | None => lit "undefined"
  end.

(** [process.env.S3_PUBLIC_URL ?? `https://${BUCKET}.s3.${region}.amazonaws.com`] *)
Definition publicBase (env : Env) : jsstring :=
  match S3_PUBLIC_URL env with
  | Some base => base
  | None =>
      lit "https://" ++ interpolate (S3_BUCKET_NAME env) ++ lit ".s3."
      ++ interpolate (AWS_REGION env) ++ lit ".amazonaws.com"
  end.

(** [uploadToS3(key, body, contentType)]: [send] is how [client.send]
    ends, [None] for success and [Some e] for the error it throws. *)
Definition uploadToS3 (env : Env) (send : option (option jsstring))
    (key : jsstring) : Result jsstring :=
  match send with
  | Some message => Threw message
  | None =>
      match encodeURIComponent key with
      | Some encoded => Ok (publicBase env ++ lit "/" ++ encoded)
      | None => Threw (Some (lit "URI malformed"))
      end
  end.

(** Characters that may stand in the encoded key. *)
Definition isUrlSafe (c : N) : bool :=
  (isUnreserved c || N.eqb c 37)%N.

Definition noSurrogate (c : N) : bool :=
  negb (isHighSurrogate c) && negb (isLowSurrogate c).

End S3.

(* ================================================================== *)
(** ** The upload handler ([pages/api/upload-image.ts]) *)

Module Upload.

Import Text S3.

Local Open Scope string_scope.

(** A file as the form parser hands it over. *)
Record File := mkFile {
  filepath : string;
  originalFilename : option jsstring;   (* null when the part had none *)
  mimetype : option jsstring
}.

(** How the collaborators answer during one upload. *)
Record Oracle := mkOracle {
  parseForm : Result (option File);   (* files.file, or the parser's error *)
  readFileSync : string -> Result Pipeline.Buffer;
  now : Z;                             (* Date.now() *)
  send : option (option jsstring)      (* client.send of uploadToS3 *)
}.

Inductive Event :=
| ParseForm
| ReadFile (path : string)
| PutObject (key : jsstring) (contentType : jsstring).

Inductive Body :=
| ErrorBody (error : jsstring)
| KeyBody (key url : jsstring).

Record Response := mkResponse { status : Z; body : Body }.

(** [message ?? fallback] *)
Definition orElse (message : option jsstring) (fallback : string) : jsstring :=
  match message with
  | Some m => m
  | None => lit fallback
  end.

(** [a || fallback] on a possibly missing string. *)
Definition orDefault (a : option jsstring) (fallback : string) : jsstring :=
  match a with
  | Some (c :: r) => c :: r
  | _ => lit fallback
  end.

(** [`uploads/${Date.now()}-${file.originalFilename ?? 'image'}`] *)
Definition uploadKey (t : Z) (file : File) : jsstring :=
  (lit "uploads/" ++ showZ t ++ lit "-" ++ orElse (originalFilename file) "image")%list.

Definition handler (env : Env) (o : Oracle) (method : string)
  : Response * list Event :=
  if negb (method =? "POST")
  then (mkResponse 405 (ErrorBody (lit "Method not allowed")), [])
  else
    match parseForm o with
    | Threw message =>
        (mkResponse 400 (ErrorBody (orElse message "Upload error")), [ParseForm])
    | Ok None =>
        (mkResponse 400 (ErrorBody (lit "No file provided")), [ParseForm])
    | Ok (Some file) =>
        match readFileSync o (filepath file) with
        | Threw message =>
            (mkResponse 400 (ErrorBody (orElse message "Upload error")),
             [ParseForm; ReadFile (filepath file)])
        | Ok data =>
            let key := uploadKey (now o) file in
            let contentType := orDefault (mimetype file) "application/octet-stream" in
            let calls :=
              [ParseForm; ReadFile (filepath file); PutObject key contentType] in
            match uploadToS3 env (send o) key with
            | Ok url => (mkResponse 200 (KeyBody key url), calls)
            | Threw message =>
                (mkResponse 500 (ErrorBody (orElse message "S3 upload failed")),
                 calls)
            end
        end
    end.

End Upload.

(* ================================================================== *)
(** ** The diagnostics handler *)

Module Diagnostics.

Import Text Pipeline S3.

Local Open Scope string_scope.

(** [detectFfmpeg()]: the resolution of the generate-video module, run
    again on every request. *)
Definition detectFfmpeg (h : Host) : option string :=
  let ffmpegPath :=
    match truthy (FFMPEG_PATH h) with
    | Some p => Some p
    | None => truthy (ffmpegStatic h)
    end in
  let ffmpegPath :=
    match ffmpegPath with
    | Some p => if existsSync h p then Some p else None
    | None => None
    end in
  match ffmpegPath with
  | Some p => Some p
  | None => truthy (whichSync h)
  end.

(** [out.split('\n')[0]] *)
Fixpoint firstLine (out : string) : string :=
  match out with
  | EmptyString => EmptyString
  | String c rest =>
      if Ascii.eqb c "010" then EmptyString else String c (firstLine rest)
  end.

Record FfmpegReport := mkFfmpegReport {
  available : bool;
  path : option string;
  version : option string
}.

Record S3Report := mkS3Report {
  configured : bool;
  region : option jsstring;
  bucket : option jsstring;
  publicUrl : option jsstring
}.

Record Report := mkReport { ffmpeg : FfmpegReport; s3 : S3Report }.

(** A string of the environment in a boolean position. *)
Definition isSet (s : option jsstring) : bool :=
  match s with
  | Some (_ :: _) => true
  | _ => false
  end.

(** The body of the 200 answer; [execSync] gives the output of
    [<path> -version], or [None] when it throws or times out. *)
Definition handler (h : Host) (env : Env) (execSync : string -> option string)
  : Report :=
  let ffmpegPath := detectFfmpeg h in
  let ffmpegVersion :=
    match truthy ffmpegPath with
    | Some p =>
        match execSync (p ++ " -version") with
        | Some out => Some (firstLine out)
        | None => Some "unknown"
        end
    | None => None
    end in
  mkReport
    (mkFfmpegReport
       (match truthy ffmpegPath with Some _ => true | None => false end)
       ffmpegPath ffmpegVersion)
    (mkS3Report (isSet (AWS_REGION env) && isSet (S3_BUCKET_NAME env))
       (AWS_REGION env) (S3_BUCKET_NAME env) (S3_PUBLIC_URL env)).

End Diagnostics.

(* ================================================================== *)
(** ** The music decoding script (run after install) *)

Module MusicDecode.

Import Text.

Local Open Scope string_scope.

(** [s.endsWith(suffix)] *)
Fixpoint endsWith (suffix s : string) : bool :=
  (s =? suffix)
  || match s with
     | EmptyString => false
     | String _ rest => endsWith suffix rest
     end.

(** [f.replace(/\.b64$/, '')]: the name without a final [.b64]; a name
    that does not end so is returned as it is. *)
Fixpoint stripB64 (f : string) : string :=
  if f =? ".b64" then EmptyString
  else match f with
       | EmptyString => EmptyString
       | String c rest => String c (stripB64 rest)
       end.

Inductive Entry :=
| RegularFile (content : Pipeline.Buffer)
| Directory.

(** The entries of [public/musics], in the order [readdirSync] lists
    them; a name occurs once. *)
Definition Dir := list (string * Entry).

Fixpoint lookup (name : string) (d : Dir) : option Entry :=
  match d with
  | [] => None
  | (n, e) :: rest => if n =? name then Some e else lookup name rest
  end.

Fixpoint store (name : string) (e : Entry) (d : Dir) : Dir :=
  match d with
  | [] => [(name, e)]
  | (n, e') :: rest =>
      if n =? name then (n, e) :: rest else (n, e') :: store name e rest
  end.

(** [fs.writeFileSync(path.join(musicsDir, name), data)]: it throws
    ([None]) when the joined path is a directory: the empty name and
    [.] give the directory itself, [..] its parent. *)
Definition writeFileSync (name : string) (data : Pipeline.Buffer) (d : Dir)
  : option Dir :=
  if (name =? "") || (name =? ".") || (name =? "..") then None
  else match lookup name d with
       | Some Directory => None
       | _ => Some (store name (RegularFile data) d)
       end.

Section Script.

(** [buffer.toString('utf8')] and [Buffer.from(text, 'base64')]. *)
Variable utf8Decode : Pipeline.Buffer -> jsstring.
Variable fromBase64 : jsstring -> Pipeline.Buffer.

(** One turn of the loop, with its [try]/[catch]. *)
Definition decodeOne (d : Dir) (f : string) : Dir :=
  match lookup f d with
  | Some (RegularFile content) =>
      let base64 := trim (utf8Decode content) in
      match base64 with
      | [] => d
      | _ :: _ =>
          let buf := fromBase64 base64 in
          let out := stripB64 f in
          match writeFileSync out buf d with
          | Some d' => d'
          | None => d
          end
      end
  | _ => d
  end.

(** The script on an existing directory. *)
Definition decodeAll (d : Dir) : Dir :=
  let files := filter (endsWith ".b64") (map fst d) in
  fold_left decodeOne files d.

End Script.

End MusicDecode.

(* ================================================================== *)
(** ** The page ([pages/index.tsx]): [uploadImage] and [onGenerate] *)

Module Page.

Import Text.

(** The state of the component. *)
Record State := mkState {
  file : option Pipeline.Buffer;
  templateId : jsstring;
  productName : jsstring;
  includeText : bool;
  videoUrl : option jsstring;
  loading : bool;
  message : jsstring
}.

(** What a [fetch] gives back: [res.ok] and, of the object [res.json()]
    resolves to, the fields the page reads. *)
Record Reply := mkReply {
  ok : bool;
  error : option jsstring;
  key : option jsstring;
  videoUrlOf : option jsstring
}.

(** The JSON body of the generate-video request. *)
Record GenerateBody := mkGenerateBody {
  bodyImageKey : option jsstring;
  bodyTemplateId : jsstring;
  bodyProductName : jsstring;
  bodyIncludeText : bool
}.

Inductive Request :=
| PostUpload (file : Pipeline.Buffer)
| PostGenerate (body : GenerateBody).

(** The server as the page sees it; [inr m] is a [fetch] or [json] that
    throws an error with message [m]. *)
Record Server := mkServer {
  upload : Pipeline.Buffer -> Reply + jsstring;
  generate : GenerateBody -> Reply + jsstring
}.

(** [json.error || fallback] *)
Definition errorOr (reply : Reply) (fallback : string) : jsstring :=
  match error reply with
  | Some (c :: r) => c :: r
  | _ => lit fallback
  end.

(** [uploadImage()]: [inl None] is the [null] of a page without a file,
    [inr m] a thrown error. *)
Definition uploadImage (server : Server) (st : State)
  : option Reply + jsstring :=
  match file st with
  | None => inl None
  | Some f =>
      match upload server f with
      | inr m => inr m
      | inl json =>
          if negb (ok json) then inr (errorOr json "Upload failed")
          else inl (Some json)
      end
  end.

(** The body of the [try] block of [onGenerate]: the video URL to set,
    or the message of the error thrown; with the requests made. *)
Definition tryGenerate (server : Server) (st : State)
  : (option jsstring + jsstring) * list Request :=
  let uploads :=
    match file st with
    | Some f => [PostUpload f]
    | None => []
    end in
  match uploadImage server st with
  | inr m => (inr m, uploads)
  | inl None => (inr (lit "No file uploaded"), uploads)
  | inl (Some up) =>
      let body :=
        mkGenerateBody (key up) (templateId st) (productName st) (includeText st) in
      let requests := (uploads ++ [PostGenerate body])%list in
      match generate server body with
      | inr m => (inr m, requests)
      | inl json =>
          if negb (ok json) then (inr (errorOr json "Generation failed"), requests)
          else (inl (videoUrlOf json), requests)
      end
  end.

(** [onGenerate()]: the state once its promise has settled. The message
    and the video URL are cleared first; [finally] ends the loading. *)
Definition onGenerate (server : Server) (st : State) : State * list Request :=
  match tryGenerate server st with
  | (inl url, requests) =>
      (mkState (file st) (templateId st) (productName st) (includeText st)
         url false [], requests)
  | (inr m, requests) =>
      (mkState (file st) (templateId st) (productName st) (includeText st)
         None false m, requests)
  end.

End Page.

(* ================================================================== *)
(** * Properties *)

Import Num Geometry Text Templates Pipeline Samples.

(** ** Rounding *)

Section Rounding.

Open Scope R_scope.

Lemma js_round_eq (x : R) (z : Z) :
  IZR z <= x + / 2 < IZR z + 1 -> js_round x = z.
Proof. intros H. unfold js_round. now apply Zfloor_eq. Qed.

Lemma js_round_bound (x : R) :
  IZR (js_round x) <= x + / 2 < IZR (js_round x) + 1.
Proof. unfold js_round. apply Zfloor_bound. Qed.

Lemma js_round_IZR (z : Z) : js_round (IZR z) = z.
Proof. apply js_round_eq. lra. Qed.

Lemma js_round_le (x y : R) : x <= y -> (js_round x <= js_round y)%Z.
Proof. intros H. unfold js_round. apply Zfloor_le. lra. Qed.

End Rounding.

(** ** The easing curve *)

Section Easing.

Open Scope R_scope.





Lemma ease_symmetric (t : R) : easeInOutSine (1 - t) = 1 - easeInOutSine t.
Proof.
  unfold easeInOutSine.
  replace (PI * (1 - t)) with (PI - PI * t) by ring.
  rewrite cos_minus, cos_PI, sin_PI. lra.
Qed.

End Easing.

(** ** The zoom factor *)

Section ZoomFactor.

Open Scope R_scope.



(** With a single frame the curve is sampled at its end. *)
Lemma frameTime_single (i : Z) : frameTime 1 i = 1.
Proof. reflexivity. Qed.





End ZoomFactor.

(** ** The crop window *)

Section CropWindow.

Open Scope R_scope.



End CropWindow.

(** ** Binary64 numbers and rounding to nearest *)

Section Binary64.

Import Doubles.

Local Open Scope R_scope.

Lemma pow2_pos (e : Z) : 0 < powerRZ 2 e.
Proof. apply powerRZ_lt. lra. Qed.

Lemma pow2_add (a b : Z) : powerRZ 2 (a + b) = powerRZ 2 a * powerRZ 2 b.
Proof. apply powerRZ_add. lra. Qed.

Lemma pow2_nat (n : nat) : 1 <= powerRZ 2 (Z.of_nat n).
Proof.
  rewrite <- pow_powerRZ. apply pow_R1_Rle. lra.
Qed.

Lemma pow2_le (a b : Z) : (a <= b)%Z -> powerRZ 2 a <= powerRZ 2 b.
Proof.
  intros H. replace b with (a + Z.of_nat (Z.to_nat (b - a)))%Z by lia.
  rewrite pow2_add.
  pose proof (pow2_pos a). pose proof (pow2_nat (Z.to_nat (b - a))). nra.
Qed.

Lemma pow2_lt (a b : Z) : (a < b)%Z -> powerRZ 2 a < powerRZ 2 b.
Proof.
  intros H. apply Rlt_le_trans with (powerRZ 2 (a + 1)).
  - rewrite pow2_add. change (powerRZ 2 1) with (2 * 1). pose proof (pow2_pos a). lra.
  - apply pow2_le. lia.
Qed.

Lemma pow2_lt_inv (a b : Z) : powerRZ 2 a < powerRZ 2 b -> (a < b)%Z.
Proof.
  intros H. destruct (Z_lt_le_dec a b) as [L|L]; [exact L|].
  apply pow2_le in L. lra.
Qed.

Lemma IZR_pow2 (z : Z) : (0 <= z)%Z -> IZR (2 ^ z) = powerRZ 2 z.
Proof.
  intros H. replace z with (Z.of_nat (Z.to_nat z)) at 1 2 by lia.
  rewrite <- pow_IZR, <- pow_powerRZ. reflexivity.
Qed.

(** A function on a finite range of integers has a least value. *)
Lemma argmin_range (f : Z -> R) (lo : Z) (n : nat) :
  exists k, (lo <= k <= lo + Z.of_nat n)%Z
            /\ forall j, (lo <= j <= lo + Z.of_nat n)%Z -> f k <= f j.
Proof.
  induction n as [|n (k & Hk & Hmin)].
  - exists lo. split; [lia|]. intros j Hj. replace j with lo by lia. lra.
  - destruct (Rle_dec (f k) (f (lo + Z.of_nat (S n))%Z)) as [L|L].
    + exists k. split; [lia|]. intros j Hj.
      destruct (Z.eq_dec j (lo + Z.of_nat (S n))) as [->|Hne]; [exact L|].
      apply Hmin. lia.
    + exists (lo + Z.of_nat (S n))%Z. split; [lia|]. intros j Hj.
      destruct (Z.eq_dec j (lo + Z.of_nat (S n))) as [->|Hne]; [lra|].
      apply Rle_trans with (f k); [lra|]. apply Hmin. lia.
Qed.

Lemma argmin_box (f : Z -> Z -> R) (lo1 lo2 : Z) (n1 n2 : nat) :
  exists k1 k2,
    (lo1 <= k1 <= lo1 + Z.of_nat n1)%Z /\ (lo2 <= k2 <= lo2 + Z.of_nat n2)%Z
    /\ forall j1 j2, (lo1 <= j1 <= lo1 + Z.of_nat n1)%Z ->
                     (lo2 <= j2 <= lo2 + Z.of_nat n2)%Z -> f k1 k2 <= f j1 j2.
Proof.
  induction n2 as [|n2 (k1 & k2 & H1 & H2 & Hmin)].
  - destruct (argmin_range (fun j => f j lo2) lo1 n1) as (k1 & H1 & Hmin).
    exists k1, lo2. split; [exact H1|]. split; [lia|].
    intros j1 j2 Hj1 Hj2. replace j2 with lo2 by lia. now apply Hmin.
  - destruct (argmin_range (fun j => f j (lo2 + Z.of_nat (S n2))%Z) lo1 n1)
      as (k1' & H1' & Hmin').
    destruct (Rle_dec (f k1 k2) (f k1' (lo2 + Z.of_nat (S n2))%Z)) as [L|L].
    + exists k1, k2. split; [exact H1|]. split; [lia|]. intros j1 j2 Hj1 Hj2.
      destruct (Z.eq_dec j2 (lo2 + Z.of_nat (S n2))) as [->|Hne].
      * apply Rle_trans with (f k1' (lo2 + Z.of_nat (S n2))%Z); [exact L|].
        now apply Hmin'.
      * apply Hmin; [exact Hj1 | lia].
    + exists k1', (lo2 + Z.of_nat (S n2))%Z. split; [exact H1'|]. split; [lia|].
      intros j1 j2 Hj1 Hj2.
      destruct (Z.eq_dec j2 (lo2 + Z.of_nat (S n2))) as [->|Hne].
      * now apply Hmin'.
      * apply Rle_trans with (f k1 k2); [lra|]. apply Hmin; [exact Hj1 | lia].
Qed.

(** Every real has a nearest double: the doubles are finitely many. *)
Lemma nearest_exists (x : R) : exists d, nearest x d.
Proof.
  pose (M := (2 ^ 53 - 1)%Z).
  destruct (argmin_box (fun m e => Rabs (IZR m * powerRZ 2 e - x))
              (- M) (-1074) (Z.to_nat (2 * M)) (Z.to_nat 2045))
    as (m & e & Hm & He & Hmin).
  assert (HM : (0 <= 2 * M)%Z) by (unfold M; lia).
  rewrite Z2Nat.id in Hm by exact HM. rewrite Z2Nat.id in He by lia.
  exists (IZR m * powerRZ 2 e). split.
  - exists m, e. split; [unfold M in Hm; lia|]. split; [lia | reflexivity].
  - intros d' (m' & e' & Hm' & He' & ->). apply Hmin.
    + rewrite Z2Nat.id by exact HM. unfold M. lia.
    + rewrite Z2Nat.id by lia. lia.
Qed.

Lemma fl_nearest (x : R) : nearest x (fl x).
Proof. unfold fl. apply epsilon_spec. apply nearest_exists. Qed.

Lemma fl_double (x : R) : isDouble (fl x).
Proof. apply fl_nearest. Qed.

(** A double is not rounded. *)
Lemma fl_exact (x : R) : isDouble x -> fl x = x.
Proof.
  intros H. destruct (fl_nearest x) as [_ Hmin]. specialize (Hmin x H).
  replace (x - x) with 0 in Hmin by ring. rewrite Rabs_R0 in Hmin.
  pose proof (Rabs_pos (fl x - x)).
  assert (E : Rabs (fl x - x) = 0) by lra.
  destruct (Req_dec (fl x - x) 0) as [Z|NZ]; [lra|].
  apply Rabs_no_R0 in NZ. lra.
Qed.

(** Rounding keeps the order. *)
Lemma fl_mono (x y : R) : x <= y -> fl x <= fl y.
Proof.
  intros Hxy. destruct (Rle_or_lt (fl x) (fl y)) as [L|L]; [exact L|].
  destruct (fl_nearest x) as [Dx Hx]. destruct (fl_nearest y) as [Dy Hy].
  specialize (Hx (fl y) Dy). specialize (Hy (fl x) Dx).
  assert (E : x = y).
  { revert Hx Hy. unfold Rabs.
    repeat destruct (Rcase_abs _); intros; lra. }
  rewrite E in L. lra.
Qed.

Lemma isDouble_IZR (z : Z) : (Z.abs z <= 2 ^ 53)%Z -> isDouble (IZR z).
Proof.
  intros H. destruct (Z.eq_dec (Z.abs z) (2 ^ 53)) as [E|NE].
  - exists (Z.sgn z), 53%Z. split; [lia|]. split; [lia|].
    rewrite <- IZR_pow2 by lia. rewrite <- mult_IZR. f_equal. lia.
  - exists z, 0%Z. split; [lia|]. split; [lia|]. simpl. ring.
Qed.

(** Halves and quarters of small integers are doubles. *)
Lemma isDouble_frac (z : Z) (k : nat) :
  (Z.abs z < 2 ^ 53)%Z -> (k <= 1074)%nat -> isDouble (IZR z / 2 ^ k).
Proof.
  intros H Hk. exists z, (- Z.of_nat k)%Z. split; [exact H|]. split; [lia|].
  rewrite powerRZ_neg', <- pow_powerRZ. reflexivity.
Qed.

(** Above [2^a] the doubles are multiples of [2^(a-52)]. *)
Lemma double_grid (y : R) (a : Z) :
  isDouble y -> powerRZ 2 a <= Rabs y ->
  exists k, y = IZR k * powerRZ 2 (a - 52).
Proof.
  intros (m & e & Hm & He & ->) Ha.
  rewrite Rabs_mult, (Rabs_pos_eq (powerRZ 2 e)) in Ha
    by (apply Rlt_le, pow2_pos).
  rewrite <- abs_IZR in Ha.
  assert (Hlt : IZR (Z.abs m) < powerRZ 2 53).
  { rewrite <- IZR_pow2 by lia. now apply IZR_lt. }
  assert (He' : (a - 52 <= e)%Z).
  { assert (powerRZ 2 a < powerRZ 2 (53 + e)).
    { rewrite pow2_add. pose proof (pow2_pos e).
      pose proof (IZR_le 0 (Z.abs m) (Z.abs_nonneg m)). nra. }
    apply pow2_lt_inv in H. lia. }
  exists (m * 2 ^ (e - (a - 52)))%Z.
  rewrite mult_IZR, IZR_pow2 by lia.
  rewrite Rmult_assoc, <- pow2_add. f_equal. f_equal. lia.
Qed.

(** Halving a double that is not subnormal is exact. *)
Lemma isDouble_half (x : R) :
  isDouble x -> powerRZ 2 (-1021) <= Rabs x -> isDouble (x / 2).
Proof.
  intros (m & e & Hm & He & ->) Hx.
  rewrite Rabs_mult, (Rabs_pos_eq (powerRZ 2 e)) in Hx
    by (apply Rlt_le, pow2_pos).
  rewrite <- abs_IZR in Hx.
  assert (Hlt : IZR (Z.abs m) < powerRZ 2 53).
  { rewrite <- IZR_pow2 by lia. now apply IZR_lt. }
  assert (He' : (-1074 < e)%Z).
  { assert (powerRZ 2 (-1021) < powerRZ 2 (53 + e)).
    { rewrite pow2_add. pose proof (pow2_pos e).
      pose proof (IZR_le 0 (Z.abs m) (Z.abs_nonneg m)). nra. }
    apply pow2_lt_inv in H. lia. }
  exists m, (e - 1)%Z. split; [exact Hm|]. split; [lia|].
  replace (e - 1)%Z with (e + -1)%Z by lia. rewrite pow2_add.
  simpl (powerRZ 2 (-1)). field.
Qed.

(** Where the doubles are the multiples of [2^s], a real closer than
    half a step to one of them rounds to it. *)
Lemma fl_grid (x g : R) (s : Z) :
  isDouble g -> (exists k, g = IZR k * powerRZ 2 s) ->
  powerRZ 2 (s + 52) <= Rabs (fl x) ->
  Rabs (g - x) < powerRZ 2 (s - 1) ->
  fl x = g.
Proof.
  intros Dg (k & Hk) Hbig Hclose.
  destruct (double_grid (fl x) (s + 52) (fl_double x) Hbig) as (j & Hj).
  replace (s + 52 - 52)%Z with s in Hj by lia.
  destruct (fl_nearest x) as [_ Hmin]. specialize (Hmin g Dg).
  assert (Hd : Rabs (fl x - g) < powerRZ 2 s).
  { replace (fl x - g) with ((fl x - x) - (g - x)) by ring.
    eapply Rle_lt_trans; [apply Rabs_triang|]. rewrite Rabs_Ropp.
    replace s with (s - 1 + 1)%Z at 1 by lia. rewrite pow2_add.
    change (powerRZ 2 1) with (2 * 1). lra. }
  rewrite Hj, Hk in Hd |- *.
  replace (IZR j * powerRZ 2 s - IZR k * powerRZ 2 s)
    with (IZR (j - k) * powerRZ 2 s) in Hd by (rewrite minus_IZR; ring).
  rewrite Rabs_mult, (Rabs_pos_eq (powerRZ 2 s)) in Hd
    by (apply Rlt_le, pow2_pos).
  rewrite <- abs_IZR in Hd. pose proof (pow2_pos s).
  assert (IZR (Z.abs (j - k)) < 1) by nra.
  apply lt_IZR in H0. replace j with k by lia. reflexivity.
Qed.

End Binary64.

(** ** The crop window in binary64 *)

Section CropWindow64.

Import Doubles.

Local Open Scope R_scope.

Lemma fl_IZR (z : Z) : (Z.abs z <= 2 ^ 53)%Z -> fl (IZR z) = IZR z.
Proof. intros H. apply fl_exact. now apply isDouble_IZR. Qed.

Lemma fl_frac (z : Z) (k : nat) :
  (Z.abs z < 2 ^ 53)%Z -> (k <= 1074)%nat -> fl (IZR z / 2 ^ k) = IZR z / 2 ^ k.
Proof. intros H Hk. apply fl_exact. now apply isDouble_frac. Qed.

(** Rounding keeps a number between two doubles. *)
Lemma fl_between (a b : Z) (k : nat) (x : R) :
  (Z.abs a < 2 ^ 53)%Z -> (Z.abs b < 2 ^ 53)%Z -> (k <= 1074)%nat ->
  IZR a / 2 ^ k <= x <= IZR b / 2 ^ k ->
  IZR a / 2 ^ k <= fl x <= IZR b / 2 ^ k.
Proof.
  intros Ha Hb Hk [Hl Hu]. apply fl_mono in Hl, Hu.
  rewrite fl_frac in Hl, Hu by assumption. now split.
Qed.

(** One axis of the window, for a canvas side [c] of the handler's
    magnitude: the offset is not negative, and offset plus extent stays
    within the rounded scaled size, whatever double the scaled size is. *)
Lemma axis64_inside (x : R) (c : Z) :
  isDouble x -> (0 < c <= 2 ^ 30)%Z ->
  let s := js_round x in
  let l := Z.max 0 (js_round (fl (fl (x - IZR c) / 2))) in
  (0 <= l /\ l + Z.min c s <= s)%Z.
Proof.
  intros Dx Hc s l. split; [apply Z.le_max_l|].
  pose proof (js_round_bound x) as Hs. fold s in Hs.
  assert (Hc30 : IZR c <= 1073741824) by (apply (IZR_le c (2 ^ 30)); lia).
  assert (Hc0 : 1 <= IZR c) by (apply (IZR_le 1 c); lia).
  destruct (Z_lt_le_dec s c) as [Hlt|Hge].
  - (* the scaled size is below the canvas: the offset is 0 *)
    rewrite Z.min_r by lia.
    assert (Hx : x - IZR c <= IZR (-1) / 2 ^ 1).
    { assert (IZR s + 1 <= IZR c).
      { rewrite <- plus_IZR. apply IZR_le. lia. }
      simpl. lra. }
    apply fl_mono in Hx. rewrite fl_frac in Hx by lia.
    assert (Hh : fl (x - IZR c) / 2 <= IZR (-1) / 2 ^ 2) by (simpl in *; lra).
    apply fl_mono in Hh. rewrite fl_frac in Hh by lia.
    apply js_round_le in Hh.
    rewrite (js_round_eq (IZR (-1) / 2 ^ 2) 0) in Hh by (simpl; lra).
    unfold l. lia.
  - rewrite Z.min_l by lia.
    assert (Hm : (js_round (fl (fl (x - IZR c) / 2)) <= s - c)%Z);
      [|unfold l; lia].
    apply IZR_le in Hge.
    destruct (Rle_or_lt (2 * IZR c + 2) x) as [Hbig|Hsmall].
    + (* a large scaled size: halving it is exact *)
      assert (Hsub : x - IZR c <= x) by lra.
      apply fl_mono in Hsub. rewrite (fl_exact x Dx) in Hsub.
      assert (Hh : fl (x - IZR c) / 2 <= x / 2) by lra.
      apply fl_mono in Hh.
      rewrite (fl_exact (x / 2)) in Hh.
      2:{ apply isDouble_half; [exact Dx|]. rewrite Rabs_pos_eq by lra.
          apply Rle_trans with 1; [|lra].
          change 1 with (powerRZ 2 0). apply pow2_le. lia. }
      apply js_round_le in Hh.
      pose proof (js_round_bound (x / 2)) as Hb.
      apply le_IZR. rewrite minus_IZR.
      apply IZR_le in Hh. lra.
    + (* a small one: the half-integers around it are doubles *)
      assert (Hs30 : (0 <= s - c <= 2 ^ 31)%Z).
      { split; [apply le_IZR in Hge; lia|].
        apply le_IZR. rewrite minus_IZR.
        replace (IZR (2 ^ 31)) with 2147483648 by (simpl; lra). lra. }
      assert (Hx : x - IZR c <= IZR (2 * (s - c) + 1) / 2 ^ 1).
      { rewrite plus_IZR, mult_IZR, minus_IZR. simpl. lra. }
      apply fl_mono in Hx. rewrite fl_frac in Hx by lia.
      assert (Hh : fl (x - IZR c) / 2 <= IZR (2 * (s - c) + 1) / 2 ^ 2)
        by (simpl in *; lra).
      apply fl_mono in Hh. rewrite fl_frac in Hh by lia.
      apply js_round_le in Hh.
      assert (Hr : (js_round (IZR (2 * (s - c) + 1) / 2 ^ 2) <= s - c)%Z).
      { pose proof (js_round_bound (IZR (2 * (s - c) + 1) / 2 ^ 2)) as Hb.
        remember (js_round (IZR (2 * (s - c) + 1) / 2 ^ 2)) as r.
        rewrite plus_IZR, mult_IZR in Hb. simpl in Hb.
        assert (0 <= IZR (s - c)) by (apply (IZR_le 0); lia).
        apply Z.lt_succ_r. apply lt_IZR. rewrite succ_IZR.
        lra. }
      lia.
Qed.

Lemma cropWindow64_inside (floatScaledW floatScaledH : R) :
  isDouble floatScaledW -> isDouble floatScaledH ->
  let g := cropWindow floatScaledW floatScaledH in
  (0 <= left g /\ 0 <= top g
   /\ left g + width g <= scaledW g /\ top g + height g <= scaledH g)%Z.
Proof.
  intros Dw Dh. cbn.
  pose proof (axis64_inside floatScaledW 1280 Dw ltac:(lia)) as [H1 H2].
  pose proof (axis64_inside floatScaledH 720 Dh ltac:(lia)) as [H3 H4].
  cbn zeta in *. auto.
Qed.

(** Whatever [Math.cos] returns and whatever the source size and the
    frame, the [extract] window lies inside the resized image. *)
Lemma frameGeometry64_inside (cos64 : R -> R) (iw ih frames i : Z) :
  let g := frameGeometry cos64 iw ih frames i in
  (0 <= left g /\ 0 <= top g
   /\ left g + width g <= scaledW g /\ top g + height g <= scaledH g)%Z.
Proof.
  apply cropWindow64_inside; apply fl_double.
Qed.

End CropWindow64.

(** ** An enclosure of pi, and the value of [Math.PI] *)

Section PiEnclosure.

Import PiSeries.
Local Open Scope R_scope.

Lemma Q2R_qpow (q : Q) (n : nat) : Q2R (qpow q n) = Q2R q ^ n.
Proof.
  induction n as [|n IH]; simpl.
  - unfold Q2R. simpl. lra.
  - now rewrite Q2R_mult, IH.
Qed.

Lemma pow_minus_one (n : nat) : (-1) ^ n = if Nat.even n then 1 else -1.
Proof.
  induction n as [|n IH]; [reflexivity|].
  rewrite Nat.even_succ, <- Nat.negb_even. simpl. rewrite IH.
  destruct (Nat.even n); simpl; lra.
Qed.

Lemma Q2R_qterm (n : nat) : Q2R (qterm n) = tg_alt PI_2_3_7_tg n.
Proof.
  unfold qterm, tg_alt, PI_2_3_7_tg, Ratan_seq.
  rewrite Q2R_mult, Q2R_div by (unfold Qeq; simpl; lia).
  rewrite Q2R_plus, Q2R_mult, !Q2R_qpow, pow_minus_one.
  replace (Q2R (Z.of_nat (2 * n + 1) # 1)) with (INR (2 * n + 1))
    by (unfold Q2R; cbn [Qnum Qden]; rewrite INR_IZR_INZ, Rinv_1; ring).
  replace (Q2R (if Nat.even n then 1 else -1)) with (if Nat.even n then 1 else -1)
    by (destruct (Nat.even n); unfold Q2R; simpl; lra).
  replace (Q2R (1 # 3)) with (/ 3) by (unfold Q2R; simpl; lra).
  replace (Q2R (1 # 7)) with (/ 7) by (unfold Q2R; simpl; lra).
  replace (Q2R 2) with 2 by (unfold Q2R; simpl; lra).
  unfold Rdiv. ring.
Qed.

Lemma Q2R_qsum (n : nat) : Q2R (qsum n) = sum_f_R0 (tg_alt PI_2_3_7_tg) n.
Proof.
  induction n as [|n IH]; simpl.
  - apply Q2R_qterm.
  - now rewrite Q2R_plus, IH, Q2R_qterm.
Qed.

(** Pi lies between [1.2e-16] and [1.23e-16] above the double
    [7074237752028440 / 2^51]. *)
Lemma PI_enclosure :
  7074237752028440 / 2 ^ 51 + 12 / 10 ^ 17 <= PI
  <= 7074237752028440 / 2 ^ 51 + 123 / 10 ^ 18.
Proof.
  pose proof (PI_2_3_7_ineq 9) as [Hlo Hhi].
  change (S (2 * 9)) with 19%nat in Hlo. change (2 * 9)%nat with 18%nat in Hhi.
  rewrite <- Q2R_qsum in Hlo, Hhi.
  assert (Qlo : ((7074237752028440 # 2251799813685248)
                 + (12 # 100000000000000000) <= 4 * qsum 19)%Q)
    by (apply Qle_bool_iff; vm_compute; reflexivity).
  assert (Qhi : (4 * qsum 18 <= (7074237752028440 # 2251799813685248)
                                + (123 # 1000000000000000000))%Q)
    by (apply Qle_bool_iff; vm_compute; reflexivity).
  apply Qle_Rle in Qlo, Qhi.
  rewrite Q2R_plus, Q2R_mult in Qlo, Qhi.
  replace (Q2R 4) with 4 in Qlo, Qhi by (unfold Q2R; simpl; lra).
  replace (Q2R (7074237752028440 # 2251799813685248))
    with (7074237752028440 / 2 ^ 51) in Qlo, Qhi by (unfold Q2R; simpl; lra).
  replace (Q2R (12 # 100000000000000000)) with (12 / 10 ^ 17) in Qlo
    by (unfold Q2R; simpl; lra).
  replace (Q2R (123 # 1000000000000000000)) with (123 / 10 ^ 18) in Qhi
    by (unfold Q2R; simpl; lra).
  lra.
Qed.

End PiEnclosure.

(** ** The easing function in binary64 *)

Section Easing64.

Import Doubles.

Local Open Scope R_scope.

Lemma fl_0 : fl 0 = 0.
Proof. apply (fl_IZR 0). lia. Qed.

Lemma fl_1 : fl 1 = 1.
Proof. apply (fl_IZR 1). lia. Qed.

Lemma fl_2 : fl 2 = 2.
Proof. apply (fl_IZR 2). lia. Qed.

Lemma fl_half : fl (/ 2) = / 2.
Proof.
  replace (/ 2) with (IZR 1 / 2 ^ 1) by (simpl; lra). apply fl_frac; lia.
Qed.

(** [Math.PI] is [0x1.921fb54442d18p+1]. *)
Lemma PI64_value : PI64 = 7074237752028440 / 2 ^ 51.
Proof.
  pose proof PI_enclosure as [Hlo Hhi].
  assert (H51 : powerRZ 2 (-51) = / 2 ^ 51) by reflexivity.
  assert (H52 : powerRZ 2 (-52) = / 2 ^ 52) by reflexivity.
  apply (fl_grid PI _ (-51)).
  - apply (isDouble_frac 7074237752028440 51); lia.
  - exists 7074237752028440%Z. rewrite H51. reflexivity.
  - change (powerRZ 2 (-51 + 52)) with (2 * 1).
    assert (H3 : 3 <= PI) by (simpl in Hlo; lra).
    apply fl_mono in H3. rewrite (fl_IZR 3) in H3 by lia.
    rewrite Rabs_pos_eq; lra.
  - change (-51 - 1)%Z with (-52)%Z. rewrite H52.
    rewrite Rabs_left1 by (simpl in Hlo |- *; lra).
    simpl in Hhi |- *. lra.
Qed.

Lemma PI64_gap : 12 / 10 ^ 17 <= PI - PI64 <= 123 / 10 ^ 18.
Proof. rewrite PI64_value. pose proof PI_enclosure. lra. Qed.

Lemma PI64_double : isDouble PI64.
Proof. apply fl_double. Qed.

Lemma PI64_bounds : 3 <= PI64 <= 4.
Proof. rewrite PI64_value. simpl. lra. Qed.

Section Contract.

Variable cos64 : R -> R.

Lemma ease64_range :
  (forall x, -1 <= cos64 x <= 1) ->
  forall t, 0 <= easeInOutSine cos64 t <= 1.
Proof.
  intros Hc t. unfold easeInOutSine.
  specialize (Hc (fl (PI64 * t))).
  assert (H0 : 0 <= 1 - cos64 (fl (PI64 * t))) by lra.
  assert (H2 : 1 - cos64 (fl (PI64 * t)) <= 2) by lra.
  apply fl_mono in H0, H2. rewrite fl_0 in H0. rewrite fl_2 in H2.
  split.
  - apply Rle_trans with (fl 0); [rewrite fl_0; lra | apply fl_mono; lra].
  - apply Rle_trans with (fl 1); [apply fl_mono; lra | rewrite fl_1; lra].
Qed.

Lemma ease64_0 : cos64 0 = 1 -> easeInOutSine cos64 0 = 0.
Proof.
  intros Hc. unfold easeInOutSine.
  rewrite Rmult_0_r, fl_0, Hc.
  replace (1 - 1) with 0 by ring. rewrite fl_0.
  replace (0 / 2) with 0 by lra. apply fl_0.
Qed.

Lemma ease64_1 : cos64 PI64 = -1 -> easeInOutSine cos64 1 = 1.
Proof.
  intros Hc. unfold easeInOutSine.
  rewrite Rmult_1_r, (fl_exact PI64 PI64_double), Hc.
  replace (1 - -1) with 2 by ring. rewrite fl_2.
  replace (2 / 2) with 1 by lra. apply fl_1.
Qed.

Lemma ease64_mono :
  (forall x y, 0 <= x -> x <= y -> y <= PI64 -> cos64 y <= cos64 x) ->
  forall s t, 0 <= s -> s <= t -> t <= 1 ->
    easeInOutSine cos64 s <= easeInOutSine cos64 t.
Proof.
  intros Hc s t Hs Hst Ht. unfold easeInOutSine.
  pose proof PI64_bounds as [Hp _].
  apply fl_mono.
  assert (H : fl (1 - cos64 (fl (PI64 * s))) <= fl (1 - cos64 (fl (PI64 * t))));
    [|lra].
  apply fl_mono.
  assert (cos64 (fl (PI64 * t)) <= cos64 (fl (PI64 * s))); [|lra].
  apply Hc.
  - rewrite <- fl_0. apply fl_mono. nra.
  - apply fl_mono. nra.
  - rewrite <- (fl_exact PI64 PI64_double) at 2. apply fl_mono. nra.
Qed.

End Contract.

(** C3, as amended: the easing function is the binary64 evaluation of
    [(1 - cos (PI t)) / 2]. With a [Math.cos] whose values lie in
    [-1, 1], its values lie in [0, 1]; it is [0] at [0] when
    [Math.cos(0)] is [1] and [1] at [1] when [Math.cos(Math.PI)] is
    [-1]; it is non-decreasing on [0, 1] when [Math.cos] is
    non-increasing from [0] to [Math.PI]. The symmetry
    [e (1 - t) = 1 - e t] is a property of the real-valued formula. *)
Theorem easeInOutSine_contract (cos64 : R -> R) :
  (forall x, -1 <= cos64 x <= 1) ->
  (forall t, 0 <= easeInOutSine cos64 t <= 1)
  /\ (cos64 0 = 1 -> easeInOutSine cos64 0 = 0)
  /\ (cos64 PI64 = -1 -> easeInOutSine cos64 1 = 1)
  /\ ((forall x y, 0 <= x -> x <= y -> y <= PI64 -> cos64 y <= cos64 x) ->
      forall s t, 0 <= s -> s <= t -> t <= 1 ->
        easeInOutSine cos64 s <= easeInOutSine cos64 t)
  /\ (forall t, Geometry.easeInOutSine (1 - t) = 1 - Geometry.easeInOutSine t).
Proof.
  intros Hc. split; [now apply ease64_range|].
  split; [apply ease64_0|]. split; [apply ease64_1|].
  split; [apply ease64_mono | exact ease_symmetric].
Qed.

(** *** The correctly rounded cosine *)

Lemma roundedCos_range (x : R) : -1 <= roundedCos x <= 1.
Proof.
  unfold roundedCos. pose proof (COS_bound x) as [Hl Hu].
  apply fl_mono in Hl, Hu. rewrite fl_1 in Hu.
  rewrite (fl_IZR (-1)) in Hl by lia. lra.
Qed.

Lemma roundedCos_0 : roundedCos 0 = 1.
Proof. unfold roundedCos. rewrite cos_0. apply fl_1. Qed.

Lemma roundedCos_decreasing (x y : R) :
  0 <= x -> x <= y -> y <= PI64 -> roundedCos y <= roundedCos x.
Proof.
  intros Hx Hxy Hy. unfold roundedCos. apply fl_mono.
  pose proof PI64_gap as [Hg _]. simpl in Hg.
  apply cos_decr_1; lra.
Qed.

(** [Math.cos(Math.PI)] is [-1]: the cosine there is within [1e-32] of
    it. *)
Lemma roundedCos_PI64 : roundedCos PI64 = -1.
Proof.
  unfold roundedCos.
  pose proof PI64_gap as [Hlo Hhi]. simpl in Hlo, Hhi.
  set (d := PI - PI64) in *.
  assert (Hcos : cos PI64 = - cos d).
  { replace PI64 with (PI - d) by (unfold d; ring).
    rewrite cos_minus, cos_PI, sin_PI. ring. }
  assert (Hd : 1 - 2 * (d / 2) * (d / 2) <= cos d <= 1).
  { split; [|apply COS_bound].
    replace d with (2 * (d / 2)) at 3 by field. rewrite cos_2a_sin.
    pose proof (sin_lt_x (d / 2) ltac:(lra)).
    assert (0 <= sin (d / 2))
      by (apply sin_ge_0; pose proof PI64_bounds; unfold d in *; lra).
    nra. }
  assert (Hx : -1 <= cos PI64 <= -1 + / 2 ^ 60).
  { rewrite Hcos. split; [lra|].
    assert (2 * (d / 2) * (d / 2) <= / 2 ^ 60); [|lra].
    assert (Hd31 : d <= / 2 ^ 31) by (simpl; lra).
    assert (Hdd : d * d <= / 2 ^ 31 * / 2 ^ 31)
      by (apply Rmult_le_compat; lra).
    simpl in Hdd |- *. nra. }
  assert (H53 : powerRZ 2 (-53) = / 2 ^ 53) by reflexivity.
  assert (H54 : powerRZ 2 (-54) = / 2 ^ 54) by reflexivity.
  apply (fl_grid _ _ (-53)).
  - apply (isDouble_IZR (-1)). lia.
  - exists (- 2 ^ 53)%Z. rewrite H53. simpl. lra.
  - change (powerRZ 2 (-53 + 52)) with (/ (2 * 1)).
    assert (Hh : cos PI64 <= IZR (-1) / 2 ^ 1) by (simpl in *; lra).
    apply fl_mono in Hh. rewrite fl_frac in Hh by lia.
    rewrite Rabs_left1 by (simpl in Hh; lra). simpl in Hh. lra.
  - change (-53 - 1)%Z with (-54)%Z. rewrite H54.
    rewrite Rabs_left1 by lra. simpl in Hx |- *. lra.
Qed.

(** A correctly rounded cosine meets every condition of the contract. *)
Lemma easeInOutSine_contract_witness :
  (forall x, -1 <= roundedCos x <= 1)
  /\ easeInOutSine roundedCos 0 = 0
  /\ easeInOutSine roundedCos 1 = 1
  /\ easeInOutSine roundedCos (/ 4) <= easeInOutSine roundedCos (/ 2).
Proof.
  split; [exact roundedCos_range|].
  destruct (easeInOutSine_contract roundedCos roundedCos_range)
    as (_ & H0 & H1 & Hmono & _).
  split; [apply H0, roundedCos_0|].
  split; [apply H1, roundedCos_PI64|].
  apply Hmono; [exact roundedCos_decreasing | lra | lra | lra].
Defined.

(** [Math.cos(Math.PI * 0.5)] is a little above [2^-54]: the cosine
    there is the sine of half the distance from [Math.PI] to pi. *)
Lemma roundedCos_half_PI64 :
  17 / 2 ^ 58 <= roundedCos (fl (PI64 * / 2)) <= 18 / 2 ^ 58.
Proof.
  pose proof PI64_bounds as [Hp3 Hp4].
  replace (PI64 * / 2) with (PI64 / 2) by lra.
  rewrite (fl_exact (PI64 / 2)).
  2:{ apply isDouble_half; [apply PI64_double|].
      rewrite Rabs_pos_eq by lra. apply Rle_trans with 1; [|lra].
      change 1 with (powerRZ 2 0). apply pow2_le. lia. }
  unfold roundedCos.
  pose proof PI64_gap as [Hlo Hhi]. simpl in Hlo, Hhi.
  set (y := (PI - PI64) / 2).
  assert (Hy : 6 / 10 ^ 17 <= y <= 615 / 10 ^ 19) by (unfold y; simpl; lra).
  simpl in Hy.
  assert (Hcos : cos (PI64 / 2) = sin y).
  { rewrite <- sin_shift. f_equal. unfold y. field. }
  rewrite Hcos.
  assert (Hsin : y - y * y * y / 6 <= sin y <= y).
  { split; [|apply Rlt_le, sin_lt_x; lra].
    pose proof (SIN y ltac:(lra) ltac:(pose proof PI_RGT_0; pose proof PI64_gap; lra))
      as [Hlb _].
    unfold sin_lb, sin_approx, sin_term in Hlb. simpl in Hlb.
    assert (0 <= y * y * y * y * y * (1 / 120 - y * y / 5040)).
    { assert (0 <= y * y * y * y * y) by (repeat apply Rmult_le_pos; lra).
      apply Rmult_le_pos; [assumption|]. nra. }
    rewrite ?Rmult_1_r in Hlb. 
    replace (INR (fact 3)) with 6 in Hlb by (simpl; lra).
    replace (INR (fact 5)) with 120 in Hlb by (simpl; lra).
    replace (INR (fact 7)) with 5040 in Hlb by (simpl; lra).
    lra. }
  assert (Hl : IZR 17 / 2 ^ 58 <= sin y).
  { assert (y * y * y / 6 <= y / 10 ^ 6); [|simpl in *; lra].
    assert (y * y <= / 10 ^ 6) by (simpl; nra). simpl in *. nra. }
  assert (Hu : sin y <= IZR 18 / 2 ^ 58) by (simpl; lra).
  apply fl_mono in Hl, Hu. rewrite fl_frac in Hl, Hu by lia.
  simpl in *. lra.
Qed.

(** C3 as stated fails in its last clause: with a correctly rounded
    cosine the easing at 0.5 is [0.5 - 2^-54] (0.49999999999999994); 1 -
    0.5 is 0.5 again, and one minus the easing there is not below 0.5, so
    [e (1 - t)] and [1 - e t] differ at [t = 0.5]. *)
Lemma easeInOutSine_not_symmetric :
  easeInOutSine roundedCos (/ 2) = / 2 - / 2 ^ 54
  /\ fl (1 - / 2) = / 2
  /\ / 2 <= fl (1 - easeInOutSine roundedCos (/ 2))
  /\ easeInOutSine roundedCos (fl (1 - / 2))
     < fl (1 - easeInOutSine roundedCos (/ 2)).
Proof.
  assert (He : easeInOutSine roundedCos (/ 2) = / 2 - / 2 ^ 54).
  { unfold easeInOutSine.
    pose proof roundedCos_half_PI64 as [Hl Hu].
    set (c := roundedCos (fl (PI64 * / 2))) in *.
    assert (H53 : powerRZ 2 (-53) = / 2 ^ 53) by reflexivity.
    assert (H54 : powerRZ 2 (-54) = / 2 ^ 54) by reflexivity.
    assert (Hs : fl (1 - c) = IZR (2 ^ 53 - 1) / 2 ^ 53).
    { apply (fl_grid _ _ (-53)).
      - apply isDouble_frac; lia.
      - exists (2 ^ 53 - 1)%Z. rewrite H53. reflexivity.
      - change (powerRZ 2 (-53 + 52)) with (/ (2 * 1)).
        assert (Hh : IZR 1 / 2 ^ 1 <= 1 - c) by (simpl in *; lra).
        apply fl_mono in Hh. rewrite fl_frac in Hh by lia.
        rewrite Rabs_pos_eq; simpl in Hh; lra.
      - change (-53 - 1)%Z with (-54)%Z. rewrite H54.
        simpl in Hl, Hu |- *. unfold Rabs. destruct (Rcase_abs _); lra. }
    rewrite Hs.
    replace (IZR (2 ^ 53 - 1) / 2 ^ 53 / 2) with (IZR (2 ^ 53 - 1) / 2 ^ 54)
      by (simpl; lra).
    rewrite fl_frac by lia. simpl. lra. }
  assert (Hh : fl (1 - / 2) = / 2).
  { replace (1 - / 2) with (/ 2) by lra. apply fl_half. }
  assert (Hr : / 2 <= fl (1 - easeInOutSine roundedCos (/ 2))).
  { rewrite <- fl_half at 1. apply fl_mono. rewrite He.
    assert (0 < / 2 ^ 54) by (apply Rinv_0_lt_compat, pow_lt; lra). lra. }
  split; [exact He|]. split; [exact Hh|]. split; [exact Hr|].
  rewrite Hh, He in *.
  assert (0 < / 2 ^ 54) by (apply Rinv_0_lt_compat, pow_lt; lra). lra.
Qed.

End Easing64.

(** ** The zoom curve in binary64 *)

Section ZoomCurve64.

Import Doubles.
Local Open Scope R_scope.

Lemma frameTime64_range (frames i : Z) :
  (1 < frames)%Z -> (0 <= i)%Z -> (i < frames)%Z ->
  0 <= frameTime frames i <= 1.
Proof.
  intros HN Hi0 HiN. unfold frameTime.
  destruct (Z.eqb_spec frames 1) as [E|_]; [lia|].
  assert (Hd : 0 < IZR (frames - 1)) by (apply IZR_lt; lia).
  assert (Hi : 0 <= IZR i) by (apply IZR_le; lia).
  assert (Hle : IZR i <= IZR (frames - 1)) by (apply IZR_le; lia).
  assert (Hq : 0 <= IZR i / IZR (frames - 1) <= 1).
  { split.
    - apply Rmult_le_pos; [exact Hi|]. left. now apply Rinv_0_lt_compat.
    - apply Rmult_le_reg_r with (IZR (frames - 1)); [exact Hd|].
      unfold Rdiv. rewrite Rmult_assoc, Rinv_l by lra. lra. }
  destruct Hq as [Hl Hu]. apply fl_mono in Hl, Hu.
  rewrite fl_0 in Hl. rewrite fl_1 in Hu. now split.
Qed.

Lemma frameTime64_mono (frames i j : Z) :
  (1 < frames)%Z -> (i <= j)%Z -> frameTime frames i <= frameTime frames j.
Proof.
  intros HN Hij. unfold frameTime.
  destruct (Z.eqb_spec frames 1) as [E|_]; [lia|].
  assert (Hd : 0 < IZR (frames - 1)) by (apply IZR_lt; lia).
  apply fl_mono.
  apply Rmult_le_compat_r; [left; now apply Rinv_0_lt_compat|].
  now apply IZR_le.
Qed.

(** The literal [0.6] and [1 + 0.6], to within [2^-50]. *)
Lemma zoomFactor_value :
  IZR 675539944105574 / 2 ^ 50 <= zoomFactor <= IZR 675539944105575 / 2 ^ 50.
Proof. unfold zoomFactor. apply fl_between; [lia | lia | lia |]. simpl. lra. Qed.

Lemma zoomEnd_value :
  IZR 1801439850948198 / 2 ^ 50 <= fl (1 + zoomFactor)
  <= IZR 1801439850948199 / 2 ^ 50.
Proof.
  pose proof zoomFactor_value as H.
  apply fl_between; [lia | lia | lia |]. simpl in *. lra.
Qed.

Lemma factor64_ge_minFactor (cos64 : R -> R) (iw ih frames i : Z) :
  minFactor iw ih <= factor cos64 iw ih frames i.
Proof. unfold factor. apply Rmax_r. Qed.

(** X28: with a [Math.cos] that does not increase from [0] to
    [Math.PI], the scale factor computed in binary64 is at least
    [minFactor] and does not decrease from a frame to a later one. *)
Theorem zoom_factor_monotone64 (cos64 : R -> R) (iw ih frames i j : Z) :
  (forall x y, 0 <= x -> x <= y -> y <= PI64 -> cos64 y <= cos64 x) ->
  (1 < frames)%Z -> (0 <= i)%Z -> (i <= j)%Z -> (j < frames)%Z ->
  minFactor iw ih <= factor cos64 iw ih frames i
  /\ factor cos64 iw ih frames i <= factor cos64 iw ih frames j.
Proof.
  intros Hc HN Hi Hij Hj. split; [apply factor64_ge_minFactor|].
  unfold factor. apply Rle_max_compat_r. apply fl_mono.
  assert (fl (zoomFactor * easeInOutSine cos64 (frameTime frames i))
          <= fl (zoomFactor * easeInOutSine cos64 (frameTime frames j)));
    [|lra].
  apply fl_mono. apply Rmult_le_compat_l.
  - pose proof zoomFactor_value as [Hz _]. simpl in Hz. lra.
  - apply ease64_mono; [exact Hc | | |].
    + apply frameTime64_range; lia.
    + now apply frameTime64_mono.
    + apply frameTime64_range; lia.
Qed.

Lemma zoom_factor_monotone64_witness :
  minFactor 1920 1080 <= factor roundedCos 1920 1080 150 10
  /\ factor roundedCos 1920 1080 150 10 <= factor roundedCos 1920 1080 150 11.
Proof.
  apply (zoom_factor_monotone64 roundedCos 1920 1080 150 10 11);
    [exact roundedCos_decreasing | lia | lia | lia | lia].
Defined.

(** X29: with [Math.cos(0) = 1] and [Math.cos(Math.PI) = -1], the zoom
    computed in binary64 starts at the source's own size (or the
    covering size) and ends at the double [1 + 0.6] times it (or the
    covering size), which is 1.6 to within [2^-50]; a run of one frame
    shows the end of the zoom. *)
Theorem zoom_endpoints64 (cos64 : R -> R) (iw ih frames : Z) :
  cos64 0 = 1 -> cos64 PI64 = -1 -> (1 < frames)%Z ->
  factor cos64 iw ih frames 0 = Rmax 1 (minFactor iw ih)
  /\ factor cos64 iw ih frames (frames - 1)
     = Rmax (fl (1 + zoomFactor)) (minFactor iw ih)
  /\ factor cos64 iw ih 1 0 = Rmax (fl (1 + zoomFactor)) (minFactor iw ih)
  /\ Rabs (fl (1 + zoomFactor) - 16 / 10) <= / 2 ^ 50.
Proof.
  intros H0 H1 HN.
  assert (Hz : fl zoomFactor = zoomFactor) by (apply fl_exact, fl_double).
  assert (Hd : IZR (frames - 1) <> 0) by (apply not_0_IZR; lia).
  split; [|split; [|split]].
  - unfold factor, frameTime.
    destruct (Z.eqb_spec frames 1) as [E|_]; [lia|].
    replace (IZR 0 / IZR (frames - 1)) with 0 by (unfold Rdiv; ring).
    rewrite fl_0, (ease64_0 _ H0), Rmult_0_r, fl_0.
    replace (1 + 0) with 1 by ring. now rewrite fl_1.
  - unfold factor, frameTime.
    destruct (Z.eqb_spec frames 1) as [E|_]; [lia|].
    replace (IZR (frames - 1) / IZR (frames - 1)) with 1 by (field; exact Hd).
    now rewrite fl_1, (ease64_1 _ H1), Rmult_1_r, Hz.
  - unfold factor, frameTime. cbn [Z.eqb Pos.eqb].
    now rewrite (ease64_1 _ H1), Rmult_1_r, Hz.
  - pose proof zoomEnd_value as [Hl Hu]. simpl in Hl, Hu |- *.
    unfold Rabs. destruct (Rcase_abs _); lra.
Qed.

Lemma zoom_endpoints64_witness :
  factor roundedCos 1920 1080 150 0 = Rmax 1 (minFactor 1920 1080)
  /\ factor roundedCos 1920 1080 150 (150 - 1)
     = Rmax (fl (1 + zoomFactor)) (minFactor 1920 1080)
  /\ factor roundedCos 1920 1080 1 0
     = Rmax (fl (1 + zoomFactor)) (minFactor 1920 1080)
  /\ Rabs (fl (1 + zoomFactor) - 16 / 10) <= / 2 ^ 50.
Proof.
  apply (zoom_endpoints64 roundedCos 1920 1080 150);
    [exact roundedCos_0 | exact roundedCos_PI64 | lia].
Defined.

(** A side of [n] pixels scaled by a factor that is at least the
    rounded quotient [c / n] rounds to at least [c] pixels. *)
Lemma covers64 (n c : Z) (f : R) :
  (1 <= n <= 2 ^ 30)%Z -> (1 <= c <= 2 ^ 11)%Z ->
  fl (IZR c / IZR n) <= f -> (c <= js_round (fl (IZR n * f)))%Z.
Proof.
  intros Hn Hc Hf.
  assert (Hn0 : 0 < IZR n) by (apply IZR_lt; lia).
  set (m := (((2 * c - 1) * 2 ^ 39 + n - 1) / n)%Z).
  pose proof (Z.div_mod ((2 * c - 1) * 2 ^ 39 + n - 1) n ltac:(lia)) as Hdm.
  pose proof (Z.mod_pos_bound ((2 * c - 1) * 2 ^ 39 + n - 1) n ltac:(lia))
    as [Hr0 Hr1].
  fold m in Hdm.
  set (r := (((2 * c - 1) * 2 ^ 39 + n - 1) mod n)%Z) in *.
  assert (Hm0 : (0 <= m)%Z) by (apply Z.div_pos; lia).
  assert (Hlo : ((2 * c - 1) * 2 ^ 39 <= n * m)%Z) by lia.
  assert (Hhi : (n * m <= c * 2 ^ 40)%Z) by lia.
  assert (Hm53 : (Z.abs m < 2 ^ 53)%Z).
  { rewrite Z.abs_eq by exact Hm0.
    assert (m <= n * m)%Z by nia. lia. }
  apply IZR_le in Hlo, Hhi. rewrite !mult_IZR in Hlo, Hhi.
  rewrite minus_IZR, mult_IZR in Hlo.
  replace (IZR (2 ^ 39)) with (2 ^ 39) in Hlo by (rewrite pow_IZR; reflexivity).
  replace (IZR (2 ^ 40)) with (2 ^ 40) in Hhi by (rewrite pow_IZR; reflexivity).
  assert (Hd : IZR m / 2 ^ 40 <= IZR c / IZR n).
  { apply Rmult_le_reg_r with (IZR n * 2 ^ 40).
    - apply Rmult_lt_0_compat; [exact Hn0 | apply pow_lt; lra].
    - replace (IZR m / 2 ^ 40 * (IZR n * 2 ^ 40)) with (IZR n * IZR m)
        by (field; apply pow_nonzero; lra).
      replace (IZR c / IZR n * (IZR n * 2 ^ 40)) with (IZR c * 2 ^ 40)
        by (field; lra).
      exact Hhi. }
  apply fl_mono in Hd. rewrite fl_frac in Hd by lia.
  assert (Hnf : IZR (2 * c - 1) / 2 ^ 1 <= IZR n * f).
  { apply Rle_trans with (IZR n * (IZR m / 2 ^ 40)).
    - rewrite minus_IZR, mult_IZR.
      apply Rmult_le_reg_r with (2 ^ 40); [apply pow_lt; lra|].
      replace (IZR n * (IZR m / 2 ^ 40) * 2 ^ 40) with (IZR n * IZR m)
        by (field; apply pow_nonzero; lra).
      replace ((2 * IZR c - 1) / 2 ^ 1 * 2 ^ 40) with ((2 * IZR c - 1) * 2 ^ 39)
        by (simpl; lra).
      exact Hlo.
    - apply Rmult_le_compat_l; lra. }
  apply fl_mono in Hnf. rewrite fl_frac in Hnf by lia.
  apply js_round_le in Hnf.
  rewrite (js_round_eq (IZR (2 * c - 1) / 2 ^ 1) c) in Hnf; [exact Hnf|].
  rewrite minus_IZR, mult_IZR. simpl. lra.
Qed.

(** X30: for a source between 1x1 and 2^30 x 2^30 the [extract] window
    computed in binary64 is the whole 1280x720 canvas, and the resized
    image is at least as large, whatever [Math.cos] returns. *)
Theorem zoom_frame_fills_canvas64 (cos64 : R -> R) (iw ih frames i : Z) :
  (1 <= iw <= 2 ^ 30)%Z -> (1 <= ih <= 2 ^ 30)%Z ->
  let g := frameGeometry cos64 iw ih frames i in
  (width g = 1280 /\ height g = 720 /\ 1280 <= scaledW g /\ 720 <= scaledH g)%Z.
Proof.
  intros Hw Hh g.
  pose proof (factor64_ge_minFactor cos64 iw ih frames i) as Hmin.
  unfold minFactor in Hmin.
  pose proof (Rmax_l (fl (1280 / IZR iw)) (fl (720 / IZR ih))).
  pose proof (Rmax_r (fl (1280 / IZR iw)) (fl (720 / IZR ih))).
  assert (HW : (1280 <= scaledW g)%Z).
  { apply (covers64 iw 1280); [lia | lia | lra]. }
  assert (HH : (720 <= scaledH g)%Z).
  { apply (covers64 ih 720); [lia | lia | lra]. }
  subst g. cbn in HW, HH |- *. repeat split; lia.
Qed.

Lemma zoom_frame_fills_canvas64_witness :
  let g := frameGeometry roundedCos 640 480 150 75 in
  (width g = 1280 /\ height g = 720 /\ 1280 <= scaledW g /\ 720 <= scaledH g)%Z.
Proof. apply (zoom_frame_fills_canvas64 roundedCos 640 480 150 75); lia. Defined.

End ZoomCurve64.

(** ** [path.join] on the paths of a run *)

Section PathJoin.

Local Open Scope string_scope.

Lemma string_app_assoc (a b c : string) : (a ++ b) ++ c = a ++ (b ++ c).
Proof. induction a as [|x a IH]; cbn; [reflexivity | now rewrite IH]. Qed.

Lemma string_app_nil_r (a : string) : a ++ "" = a.
Proof. induction a as [|x a IH]; cbn; [reflexivity | now rewrite IH]. Qed.

Lemma noSlash_app (a b : string) : noSlash (a ++ b) = noSlash a && noSlash b.
Proof.
  unfold noSlash. induction a as [|c a IH]; cbn; [reflexivity|].
  now rewrite IH, andb_assoc.
Qed.

Lemma splitSlash_nonempty (s : string) : splitSlash s <> [].
Proof.
  destruct s as [|c s]; cbn; [discriminate|].
  destruct (Ascii.eqb c "/"); [discriminate|].
  destruct (splitSlash s); discriminate.
Qed.

Lemma splitSlash_noSlash (s : string) : noSlash s = true -> splitSlash s = [s].
Proof.
  unfold noSlash. induction s as [|c s IH]; cbn; [reflexivity|].
  intros H. apply andb_true_iff in H. destruct H as [Hc Hs].
  apply negb_true_iff in Hc. rewrite Hc, (IH Hs). reflexivity.
Qed.

Lemma splitSlash_app (a b : string) :
  splitSlash (a ++ String "/" b) = (splitSlash a ++ splitSlash b)%list.
Proof.
  induction a as [|c a IH]; cbn.
  - reflexivity.
  - rewrite IH. destruct (Ascii.eqb c "/"); [reflexivity|].
    pose proof (splitSlash_nonempty a).
    destruct (splitSlash a); [contradiction | reflexivity].
Qed.

(** The parts hold no slash. *)
Lemma splitSlash_parts (s : string) :
  Forall (fun p => noSlash p = true) (splitSlash s).
Proof.
  induction s as [|c s IH]; cbn.
  - constructor; [reflexivity | constructor].
  - destruct (Ascii.eqb c "/") eqn:Hc.
    + constructor; [reflexivity | exact IH].
    + destruct (splitSlash s) as [|p ps]; [repeat constructor; cbn; now rewrite Hc|].
      inversion IH as [|? ? Hp Hps]; subst. constructor; [|exact Hps].
      unfold noSlash in *. cbn. now rewrite Hc, Hp.
Qed.

Lemma plainName_inv (p : string) :
  plainName p = true ->
  p <> "" /\ p <> "." /\ p <> ".." /\ noSlash p = true.
Proof.
  unfold plainName. rewrite !andb_true_iff, !negb_true_iff, !String.eqb_neq.
  tauto.
Qed.

Lemma plainName_intro (p : string) :
  p <> "" -> p <> "." -> p <> ".." -> noSlash p = true -> plainName p = true.
Proof.
  intros. unfold plainName.
  rewrite !andb_true_iff, !negb_true_iff, !String.eqb_neq. tauto.
Qed.

Lemma pushSegment_plain (a : bool) (res : list string) (p : string) :
  plainName p = true -> pushSegment a res p = p :: res.
Proof.
  intros H. apply plainName_inv in H. destruct H as (H1 & H2 & H3 & _).
  unfold pushSegment.
  apply String.eqb_neq in H1, H2, H3. now rewrite H1, H2, H3.
Qed.

Lemma pushSegment_normal (a : bool) (res : list string) (part : string) :
  normalRes a res -> noSlash part = true -> normalRes a (pushSegment a res part).
Proof.
  intros (names & dots & -> & Hn & Hd & Ha) Hp. unfold pushSegment.
  destruct (String.eqb_spec part "") as [E1|N1]; cbn [orb].
  { exists names, dots. auto. }
  destruct (String.eqb_spec part ".") as [E2|N2].
  { exists names, dots. auto. }
  destruct (String.eqb_spec part "..") as [E3|N3].
  - subst part. destruct names as [|n names]; cbn [app].
    + destruct dots as [|d dots].
      * destruct a.
        -- exists [], [".."]. split; [reflexivity|]. split; [constructor|].
           split; [repeat constructor | reflexivity].
        -- exists [], []. split; [reflexivity|]. split; [constructor|].
           split; [constructor | intros H; now contradiction H].
      * inversion Hd as [|? ? Hd1 Hd2]; subst. rewrite String.eqb_refl.
        exists [], (".." :: ".." :: dots). split; [reflexivity|].
        split; [constructor|]. split; [repeat constructor; exact Hd2|].
        intros _. apply Ha. discriminate.
    + inversion Hn as [|? ? Hn1 Hn2]; subst.
      apply plainName_inv in Hn1. destruct Hn1 as (_ & _ & Hn1 & _).
      apply String.eqb_neq in Hn1. rewrite Hn1.
      exists names, dots. auto.
  - exists (part :: names), dots. repeat split; auto.
    constructor; [now apply plainName_intro | exact Hn].
Qed.

Lemma fold_normal (a : bool) (parts res : list string) :
  Forall (fun p => noSlash p = true) parts -> normalRes a res ->
  normalRes a (fold_left (pushSegment a) parts res).
Proof.
  revert res. induction parts as [|p parts IH]; intros res Hp Hres; cbn.
  - exact Hres.
  - inversion Hp; subst. apply IH; [assumption|]. now apply pushSegment_normal.
Qed.

Lemma normalRes_nil (a : bool) : normalRes a [].
Proof.
  exists [], []. split; [reflexivity|]. split; [constructor|].
  split; [constructor | intros H; now contradiction H].
Qed.

Lemma fold_names (a : bool) (names acc : list string) :
  Forall (fun p => plainName p = true) names ->
  fold_left (pushSegment a) names acc = (rev names ++ acc)%list.
Proof.
  revert acc. induction names as [|n names IH]; intros acc H; cbn.
  - reflexivity.
  - inversion H; subst. rewrite pushSegment_plain by assumption.
    rewrite IH by assumption. now rewrite <- app_assoc.
Qed.

Lemma dots_repeat (dots : list string) :
  Forall (fun p => p = "..") dots -> dots = repeat ".." (List.length dots).
Proof.
  induction 1 as [|d dots E _ IH]; cbn; [reflexivity|]. now rewrite E, <- IH.
Qed.

Lemma rev_repeat {A} (x : A) (k : nat) : rev (repeat x k) = repeat x k.
Proof.
  induction k as [|k IH]; [reflexivity|]. cbn. rewrite IH.
  clear IH. induction k as [|k IH]; [reflexivity|]. cbn. now rewrite IH.
Qed.

Lemma fold_dots (k j : nat) :
  fold_left (pushSegment true) (repeat ".." k) (repeat ".." j)
  = repeat ".." (k + j).
Proof.
  revert j. induction k as [|k IH]; intros j; cbn [repeat fold_left].
  - reflexivity.
  - replace (pushSegment true (repeat ".." j) "..") with (repeat ".." (S j))
      by (destruct j; reflexivity).
    rewrite IH. f_equal. lia.
Qed.

(** Normalising what was normalised changes nothing. *)
Lemma refold (a : bool) (res : list string) :
  normalRes a res -> fold_left (pushSegment a) (rev res) [] = res.
Proof.
  intros (names & dots & -> & Hn & Hd & Ha).
  rewrite rev_app_distr, fold_left_app.
  rewrite (dots_repeat dots Hd) at 1 2. rewrite rev_repeat.
  assert (Hdots : fold_left (pushSegment a) (repeat ".." (List.length dots)) []
                  = repeat ".." (List.length dots)).
  { destruct dots as [|d dots]; [reflexivity|].
    rewrite Ha by discriminate.
    change (@nil string) with (repeat ".." 0). rewrite fold_dots.
    f_equal. lia. }
  rewrite Hdots, fold_names by (now apply Forall_rev).
  rewrite rev_involutive. f_equal; symmetry; now apply dots_repeat.
Qed.

Lemma concat_cons (x y : string) (l : list string) :
  String.concat "/" (x :: y :: l) = x ++ "/" ++ String.concat "/" (y :: l).
Proof. reflexivity. Qed.

Lemma concat_snoc (l : list string) (x : string) :
  l <> [] ->
  String.concat "/" (l ++ [x]) = String.concat "/" l ++ "/" ++ x.
Proof.
  induction l as [|y l IH]; intros Hl; [now contradiction Hl|].
  destruct l as [|z l].
  - reflexivity.
  - change ((y :: z :: l) ++ [x])%list with (y :: (z :: (l ++ [x]))%list).
    rewrite concat_cons.
    change (z :: (l ++ [x])%list) with ((z :: l) ++ [x])%list.
    rewrite IH by discriminate. rewrite concat_cons.
    now rewrite !string_app_assoc.
Qed.

Lemma splitSlash_concat (l : list string) :
  l <> [] -> Forall (fun p => noSlash p = true) l ->
  splitSlash (String.concat "/" l) = l.
Proof.
  induction l as [|x l IH]; intros Hl H; [now contradiction Hl|].
  inversion H as [|? ? Hx Hrest]; subst. destruct l as [|y l].
  - now apply splitSlash_noSlash.
  - rewrite concat_cons. change (x ++ "/" ++ String.concat "/" (y :: l))
      with (x ++ String "/" (String.concat "/" (y :: l))).
    rewrite splitSlash_app, IH by (discriminate || assumption).
    now rewrite splitSlash_noSlash.
Qed.

Lemma endsWithSlash_app (a b : string) :
  b <> "" -> endsWithSlash (a ++ b) = endsWithSlash b.
Proof.
  intros Hb. induction a as [|c a IH]; [reflexivity|].
  cbn [append endsWithSlash]. rewrite <- IH.
  destruct (a ++ b) eqn:E; [|reflexivity].
  destruct a; [cbn in E; now contradiction Hb | discriminate].
Qed.

Lemma endsWithSlash_noSlash (s : string) : noSlash s = true -> endsWithSlash s = false.
Proof.
  unfold noSlash. induction s as [|c s IH]; [reflexivity|].
  cbn. intros H. apply andb_true_iff in H. destruct H as [Hc Hs].
  destruct s; [now apply negb_true_iff in Hc | now apply IH].
Qed.

Lemma prefix_slash_app (a b : string) :
  a <> "" -> startsWithSlash (a ++ b) = startsWithSlash a.
Proof.
  destruct a as [|c a]; [intros H; now contradiction H | reflexivity].
Qed.

Lemma prefix_slash_noSlash (a : string) :
  noSlash a = true -> startsWithSlash a = false.
Proof.
  destruct a as [|c a]; [reflexivity|]. unfold noSlash. cbn.
  intros H. apply andb_true_iff in H. destruct H as [Hc _].
  now apply negb_true_iff in Hc.
Qed.

Lemma normalRes_noSlash (a : bool) (res : list string) :
  normalRes a res -> Forall (fun p => noSlash p = true) res.
Proof.
  intros (names & dots & -> & Hn & Hd & _). apply Forall_app. split.
  - eapply Forall_impl; [|exact Hn]. intros p Hp. now apply plainName_inv in Hp.
  - eapply Forall_impl; [|exact Hd]. now intros p ->.
Qed.

Lemma normalRes_nonempty (a : bool) (res : list string) :
  normalRes a res -> Forall (fun p => p <> "") res.
Proof.
  intros (names & dots & -> & Hn & Hd & _). apply Forall_app. split.
  - eapply Forall_impl; [|exact Hn]. intros p Hp. now apply plainName_inv in Hp.
  - eapply Forall_impl; [|exact Hd]. now intros p ->.
Qed.

(** The text of a normal path: where it starts and how it splits. *)
Lemma concat_facts (l : list string) :
  l <> [] -> Forall (fun p => noSlash p = true) l -> Forall (fun p => p <> "") l ->
  String.concat "/" l <> ""
  /\ startsWithSlash (String.concat "/" l) = false
  /\ endsWithSlash (String.concat "/" l) = false.
Proof.
  induction l as [|x l IH]; intros Hl Hs Hn; [now contradiction Hl|].
  inversion Hs as [|? ? Hx Hs']; inversion Hn as [|? ? Hx' Hn']; subst.
  destruct l as [|y l].
  - cbn. split; [exact Hx'|]. split;
      [now apply prefix_slash_noSlash | now apply endsWithSlash_noSlash].
  - destruct (IH ltac:(discriminate) Hs' Hn') as (I1 & I2 & I3).
    rewrite concat_cons. split; [|split].
    + destruct x; [now contradiction Hx' | discriminate].
    + rewrite prefix_slash_app by exact Hx'. now apply prefix_slash_noSlash.
    + rewrite endsWithSlash_app by discriminate.
      change ("/" ++ String.concat "/" (y :: l))
        with (String "/" (String.concat "/" (y :: l))).
      cbn [endsWithSlash].
      destruct (String.concat "/" (y :: l)) eqn:E; [now contradiction I1|].
      exact I3.
Qed.

Lemma endsWithSlash_name (q n : string) :
  plainName n = true -> endsWithSlash (q ++ "/" ++ n) = false.
Proof.
  intros Hn. apply plainName_inv in Hn. destruct Hn as (Hn1 & _ & _ & Hn4).
  rewrite endsWithSlash_app by discriminate.
  change ("/" ++ n) with (String "/" n). cbn [endsWithSlash].
  destruct n as [|c n]; [now contradiction Hn1|].
  now apply endsWithSlash_noSlash.
Qed.

(** [normalize] on a path without a trailing slash whose parts do not
    all cancel. *)
Lemma normalize_file (q : string) (res : list string) :
  q <> "" -> endsWithSlash q = false ->
  fold_left (pushSegment (negb (startsWithSlash q))) (splitSlash q) [] = res ->
  String.concat "/" (rev res) <> "" ->
  normalize q
  = (if startsWithSlash q then "/" else "") ++ String.concat "/" (rev res).
Proof.
  intros Hq Hend Hres Hbody. unfold normalize, normalizeString.
  apply String.eqb_neq in Hq, Hbody. rewrite Hq, Hend, Hres, Hbody.
  now rewrite string_app_nil_r.
Qed.

Lemma concat_nonempty (res : list string) (n : string) :
  n <> "" -> String.concat "/" (rev (n :: res)) <> "".
Proof.
  intros Hn. cbn [rev]. destruct (rev res) as [|r l] eqn:E.
  - exact Hn.
  - rewrite concat_snoc by discriminate.
    destruct (String.concat "/" (r :: l)); discriminate.
Qed.

(** Joining a file name to a path in normal form appends it. *)
Lemma join_normal (p m : string) :
  normalPath p -> plainName m = true ->
  pathJoin p m = p ++ "/" ++ m /\ normalPath (p ++ "/" ++ m).
Proof.
  intros (a & res & Hres & Hne & ->) Hm.
  pose proof (plainName_inv m Hm) as (Hm1 & _ & _ & Hm4).
  pose proof (normalRes_noSlash _ _ Hres) as Hs.
  pose proof (normalRes_nonempty _ _ Hres) as Hn.
  assert (Hrev : rev res <> []).
  { intros E. apply (f_equal (@rev string)) in E.
    rewrite rev_involutive in E. now apply Hne. }
  destruct (concat_facts (rev res) Hrev (Forall_rev Hs) (Forall_rev Hn))
    as (C1 & C2 & C3).
  set (body := String.concat "/" (rev res)) in *.
  set (pre := if a then "/" else "").
  assert (Hp : pre ++ body <> "").
  { destruct a; cbn; [discriminate | exact C1]. }
  assert (Habs : startsWithSlash (pre ++ body) = a).
  { destruct a; cbn; [reflexivity | exact C2]. }
  assert (Hsplit : splitSlash (pre ++ body)
                   = ((if a then [""] else []) ++ rev res)%list).
  { unfold body, pre. destruct a.
    - change ("/" ++ String.concat "/" (rev res))
        with ("" ++ String "/" (String.concat "/" (rev res))).
      rewrite splitSlash_app. cbn [splitSlash].
      now rewrite splitSlash_concat by (assumption || now apply Forall_rev).
    - cbn [append app].
      now rewrite splitSlash_concat by (assumption || now apply Forall_rev). }
  assert (Hfold : fold_left (pushSegment (negb a))
                    (splitSlash ((pre ++ body) ++ "/" ++ m)) [] = m :: res).
  { change ("/" ++ m) with (String "/" m).
    rewrite splitSlash_app, Hsplit, splitSlash_noSlash by exact Hm4.
    rewrite !fold_left_app.
    assert (Hskip : fold_left (pushSegment (negb a)) (if a then [""] else []) []
                    = []) by (destruct a; reflexivity).
    rewrite Hskip, (refold _ _ Hres). cbn [fold_left].
    now apply pushSegment_plain. }
  assert (Hjoin : pathJoin (pre ++ body) m = (pre ++ body) ++ "/" ++ m).
  { unfold pathJoin, join. cbn [filter].
    destruct (String.eqb_spec (pre ++ body) "") as [E|_]; [now contradiction Hp|].
    destruct (String.eqb_spec m "") as [E|_]; [now contradiction Hm1|].
    cbn [negb String.concat].
    rewrite (normalize_file _ (m :: res)).
    - rewrite prefix_slash_app, Habs by exact Hp. cbn [rev].
      rewrite concat_snoc by exact Hrev. fold body. fold pre.
      now rewrite !string_app_assoc.
    - destruct (pre ++ body); [now contradiction Hp | discriminate].
    - now apply endsWithSlash_name.
    - rewrite prefix_slash_app, Habs by exact Hp. exact Hfold.
    - now apply concat_nonempty. }
  split; [exact Hjoin|].
  exists a, (m :: res). split; [|split; [discriminate|]].
  - destruct Hres as (names & dots & -> & Hnames & Hdots & Ha).
    exists (m :: names), dots. split; [reflexivity|].
    split; [now constructor|]. split; assumption.
  - cbn [rev]. rewrite concat_snoc by exact Hrev. fold body. fold pre.
    now rewrite !string_app_assoc.
Qed.

(** Joining a file name to any directory: the directory's normal form,
    then the name. *)
Lemma join_dir (d n : string) :
  plainName n = true ->
  pathJoin d n = dirPrefix d ++ n /\ normalPath (pathJoin d n).
Proof.
  intros Hn'. pose proof (plainName_inv n Hn') as (Hn1 & _ & _ & Hn4).
  assert (Hres : normalRes (negb (startsWithSlash d))
                   (fold_left (pushSegment (negb (startsWithSlash d)))
                      (splitSlash d) [])).
  { apply fold_normal; [apply splitSlash_parts | apply normalRes_nil]. }
  set (a := startsWithSlash d) in *.
  set (res := fold_left (pushSegment (negb a)) (splitSlash d) []) in *.
  assert (Hbody : String.concat "/" (rev (n :: res))
                  = match res with
                    | [] => ""
                    | _ :: _ => String.concat "/" (rev res) ++ "/"
                    end ++ n).
  { destruct res as [|r res'] eqn:E; [reflexivity|].
    cbn [rev]. rewrite concat_snoc.
    - now rewrite !string_app_assoc.
    - intros E'. apply app_eq_nil in E'. destruct E' as [_ E']. discriminate. }
  assert (Hjoin : pathJoin d n = dirPrefix d ++ n).
  { unfold pathJoin, join. cbn [filter].
    destruct (String.eqb_spec n "") as [E|_]; [now contradiction Hn1|].
    destruct (String.eqb_spec d "") as [Ed|Hd]; cbn [negb String.concat].
    - rewrite (normalize_file _ [n]).
      + subst d. rewrite (prefix_slash_noSlash _ Hn4). reflexivity.
      + exact Hn1.
      + now apply endsWithSlash_noSlash.
      + rewrite (prefix_slash_noSlash _ Hn4), splitSlash_noSlash by exact Hn4.
        cbn [fold_left negb]. now apply pushSegment_plain.
      + exact Hn1.
    - rewrite (normalize_file _ (n :: res)).
      + rewrite prefix_slash_app by exact Hd. fold a. rewrite Hbody.
        unfold dirPrefix. fold a. fold res. now rewrite !string_app_assoc.
      + destruct d; [now contradiction Hd | discriminate].
      + now apply endsWithSlash_name.
      + rewrite prefix_slash_app by exact Hd. fold a.
        change ("/" ++ n) with (String "/" n).
        rewrite splitSlash_app, (splitSlash_noSlash n) by exact Hn4.
        rewrite fold_left_app. fold res. cbn [fold_left].
        now apply pushSegment_plain.
      + now apply concat_nonempty. }
  split; [exact Hjoin|].
  exists a, (n :: res). split; [|split; [discriminate|]].
  - destruct Hres as (names & dots & E & Hnames & Hdots & Ha).
    exists (n :: names), dots. rewrite E. split; [reflexivity|].
    split; [now constructor|]. split; assumption.
  - rewrite Hjoin, Hbody. unfold dirPrefix. fold a. fold res.
    now rewrite !string_app_assoc.
Qed.

End PathJoin.

(** ** The temporary paths of a run, spelled out *)

Section RunPaths.

Local Open Scope string_scope.

Lemma noSlash_uint (d : Decimal.uint) : noSlash (NilEmpty.string_of_uint d) = true.
Proof. induction d; cbn; auto. Qed.

Lemma noSlash_decimal (z : Z) : noSlash (decimal z) = true.
Proof.
  unfold decimal, NilZero.string_of_int, NilZero.string_of_uint.
  destruct (Z.to_int z) as [d|d]; destruct d; cbn; try reflexivity;
    apply noSlash_uint.
Qed.

Lemma noSlash_zeros (k : nat) : noSlash (String.concat "" (repeat "0" k)) = true.
Proof.
  induction k as [|k IH]; [reflexivity|].
  cbn [repeat]. destruct (repeat "0" k) eqn:E; [reflexivity|].
  cbn [String.concat] in *. cbn. exact IH.
Qed.

Lemma noSlash_padStart0 (n : nat) (s : string) :
  noSlash s = true -> noSlash (padStart0 n s) = true.
Proof.
  intros H. unfold padStart0. now rewrite noSlash_app, noSlash_zeros, H.
Qed.

Ltac plain_name :=
  apply plainName_intro; [discriminate | discriminate | discriminate |];
  rewrite ?noSlash_app;
  repeat (apply andb_true_intro; split);
  first [reflexivity | apply noSlash_decimal
        | apply noSlash_padStart0, noSlash_decimal].

Lemma plainName_input (t : Z) : plainName ("input-" ++ decimal t ++ ".jpg") = true.
Proof. plain_name. Qed.

Lemma plainName_output (t : Z) : plainName ("output-" ++ decimal t ++ ".mp4") = true.
Proof. plain_name. Qed.

Lemma plainName_frames (t : Z) : plainName ("frames-" ++ decimal t) = true.
Proof. plain_name. Qed.

Lemma plainName_slide (t : Z) :
  plainName ("slide-input-" ++ decimal t ++ ".png") = true.
Proof. plain_name. Qed.

Lemma plainName_frame (i : Z) :
  plainName ("frame-" ++ padStart0 4 (decimal i) ++ ".png") = true.
Proof. plain_name. Qed.

Lemma inputImagePathAt_eq (d : string) (t : Z) :
  inputImagePathAt d t = dirPrefix d ++ "input-" ++ decimal t ++ ".jpg".
Proof. apply join_dir, plainName_input. Qed.

Lemma outputVideoPathAt_eq (d : string) (t : Z) :
  outputVideoPathAt d t = dirPrefix d ++ "output-" ++ decimal t ++ ".mp4".
Proof. apply join_dir, plainName_output. Qed.

Lemma framesDirAt_eq (d : string) (t : Z) :
  framesDirAt d t = dirPrefix d ++ "frames-" ++ decimal t.
Proof. apply join_dir, plainName_frames. Qed.

Lemma withTextPathAt_eq (d : string) (t : Z) :
  withTextPathAt d t = dirPrefix d ++ "slide-input-" ++ decimal t ++ ".png".
Proof. apply join_dir, plainName_slide. Qed.

Lemma framesDirAt_normal (d : string) (t : Z) : normalPath (framesDirAt d t).
Proof. apply join_dir, plainName_frames. Qed.

(** A frame lies directly below the frames directory of its run. *)
Lemma framePath_eq (d : string) (t i : Z) :
  framePath (framesDirAt d t) i
  = framesDirAt d t ++ "/frame-" ++ padStart0 4 (decimal i) ++ ".png".
Proof.
  unfold framePath.
  apply (join_normal _ _ (framesDirAt_normal d t) (plainName_frame i)).
Qed.

Lemma framePattern_eq (d : string) (t : Z) :
  pathJoin (framesDirAt d t) "frame-%04d.png"
  = framesDirAt d t ++ "/frame-%04d.png".
Proof. now apply (join_normal _ _ (framesDirAt_normal d t)). Qed.

End RunPaths.

(** ** The overlay font size *)

Section FontSize.

Open Scope R_scope.

(** [roundDiv] is [Math.round] of the real quotient. *)
Lemma roundDiv_js_round (n d : Z) :
  (0 < d)%Z -> roundDiv n d = js_round (IZR n / IZR d).
Proof.
  intros Hd. symmetry. apply js_round_eq. unfold roundDiv.
  pose proof (Z.div_mod (2 * n + d) (2 * d) ltac:(lia)) as Hdm.
  pose proof (Z.mod_pos_bound (2 * n + d) (2 * d) ltac:(lia)) as [Hr0 Hr1].
  set (q := ((2 * n + d) / (2 * d))%Z) in *.
  set (r := ((2 * n + d) mod (2 * d))%Z) in *.
  assert (Hn : 2 * IZR n + IZR d = 2 * IZR d * IZR q + IZR r).
  { rewrite <- !mult_IZR, <- !plus_IZR. f_equal. lia. }
  assert (HD : 0 < IZR d) by (apply IZR_lt; lia).
  apply IZR_le in Hr0. apply IZR_lt in Hr1. rewrite mult_IZR in Hr1.
  assert (Hq : IZR n / IZR d + / 2 = IZR q + IZR r / (2 * IZR d)).
  { field_simplify_eq; [|lra]. lra. }
  rewrite Hq.
  assert (0 <= IZR r / (2 * IZR d) < 1).
  { split.
    - apply Rmult_le_pos; [lra|]. left. apply Rinv_0_lt_compat. lra.
    - apply Rmult_lt_reg_r with (2 * IZR d); [lra|].
      unfold Rdiv. rewrite Rmult_assoc, Rinv_l by lra. lra. }
  lra.
Qed.

Lemma fontSizeZoom_round (scaledW scaledH : Z) :
  fontSizeZoom scaledW scaledH
  = Z.max 28 (js_round (IZR (Z.min scaledW scaledH) / 24)).
Proof. unfold fontSizeZoom. now rewrite roundDiv_js_round by lia. Qed.

Lemma fontSizeSlide_round (w : Z) :
  fontSizeSlide w = Z.max 28 (js_round (IZR w / 24)).
Proof. unfold fontSizeSlide. now rewrite roundDiv_js_round by lia. Qed.

End FontSize.

(** ** Escaping the overlay text *)

Section Escaping.

Lemma replaceAll_app (c : N) (r a b : jsstring) :
  replaceAll c r (a ++ b) = replaceAll c r a ++ replaceAll c r b.
Proof.
  induction a as [|x a IH]; [reflexivity|].
  cbn [replaceAll app]. now rewrite IH, app_assoc.
Qed.

Lemma escapeXml_app (a b : jsstring) :
  escapeXml (a ++ b) = escapeXml a ++ escapeXml b.
Proof. unfold escapeXml. now rewrite !replaceAll_app. Qed.

Lemma isMeta_cases (c : N) :
  isMeta c = false ->
  N.eqb c AMP = false /\ N.eqb c LT = false /\ N.eqb c GT = false
  /\ N.eqb c QUOT = false /\ N.eqb c APOS = false.
Proof.
  unfold isMeta. intros H.
  repeat (apply orb_false_iff in H; destruct H as [H ?]). auto.
Qed.

Lemma isMeta_true (c : N) :
  isMeta c = true -> c = AMP \/ c = LT \/ c = GT \/ c = QUOT \/ c = APOS.
Proof.
  unfold isMeta. intros H.
  repeat (apply orb_true_iff in H; destruct H as [H|H]);
    apply N.eqb_eq in H; auto.
Qed.

Lemma escapeXml_unit (c : N) : escapeXml [c] = escapeUnit c.
Proof.
  destruct (isMeta c) eqn:Hm.
  - apply isMeta_true in Hm.
    destruct Hm as [->|[->|[->|[->| ->]]]]; reflexivity.
  - apply isMeta_cases in Hm. destruct Hm as (H1 & H2 & H3 & H4 & H5).
    unfold escapeXml, escapeUnit. cbn [replaceAll app].
    rewrite H1. cbn [replaceAll app]. rewrite H2. cbn [replaceAll app].
    rewrite H3. cbn [replaceAll app]. rewrite H4. cbn [replaceAll app].
    now rewrite H5.
Qed.

Lemma escapeXml_per_unit (str : jsstring) :
  escapeXml str = flat_map escapeUnit str.
Proof.
  induction str as [|c rest IH]; [reflexivity|].
  change (c :: rest) with ([c] ++ rest).
  rewrite escapeXml_app, escapeXml_unit, IH. reflexivity.
Qed.

Lemma wellEscaped_unit_app (c : N) (s : jsstring) :
  wellEscaped s = true -> wellEscaped (escapeUnit c ++ s) = true.
Proof.
  intros Hs. destruct (isMeta c) eqn:Hm.
  - apply isMeta_true in Hm.
    destruct Hm as [->|[->|[->|[->| ->]]]]; cbn; exact Hs.
  - pose proof (isMeta_cases c Hm) as (H1 & H2 & H3 & H4 & H5).
    unfold escapeUnit. rewrite H1, H2, H3, H4, H5.
    cbn [app wellEscaped]. now rewrite H1, Hm, Hs.
Qed.

Lemma escapeXml_wellEscaped (str : jsstring) :
  wellEscaped (escapeXml str) = true.
Proof.
  rewrite escapeXml_per_unit.
  induction str as [|c rest IH]; [reflexivity|].
  cbn [flat_map]. now apply wellEscaped_unit_app.
Qed.

(** No raw [<], [>] or quote survives, whatever follows. *)
Lemma wellEscaped_no_raw (s : jsstring) (c : N) :
  wellEscaped s = true -> In c s -> isMeta c = true -> c = AMP.
Proof.
  induction s as [|x rest IH]; [intros _ []|].
  cbn [wellEscaped]. intros H [->|Hin] Hm.
  - destruct (N.eqb_spec c AMP) as [E|_]; [exact E|].
    rewrite Hm in H. discriminate.
  - apply andb_true_iff in H. destruct H as [_ H]. now apply IH.
Qed.

Lemma unescape_escape_fuel (str : jsstring) (fuel : nat) :
  (List.length (escapeXml str) <= fuel)%nat ->
  unescapeXml fuel (escapeXml str) = str.
Proof.
  rewrite escapeXml_per_unit. revert fuel.
  induction str as [|c rest IH]; intros fuel Hlen.
  - destruct fuel; reflexivity.
  - cbn [flat_map] in *. rewrite length_app in Hlen.
    destruct (isMeta c) eqn:Hm.
    + apply isMeta_true in Hm.
      destruct Hm as [->|[->|[->|[->| ->]]]];
        (destruct fuel as [|fuel]; [cbn in Hlen; lia|]);
        cbn in Hlen |- *; f_equal; apply IH; lia.
    + pose proof (isMeta_cases c Hm) as (H1 & H2 & H3 & H4 & H5).
      assert (Hu : escapeUnit c = [c])
        by (unfold escapeUnit; now rewrite H1, H2, H3, H4, H5).
      rewrite Hu in Hlen |- *. cbn [List.length] in Hlen.
      destruct fuel as [|fuel]; [lia|].
      cbn [app unescapeXml]. rewrite H1. f_equal. apply IH. lia.
Qed.

End Escaping.

(** ** Trimming and the decision to render text *)

Section ShowText.

Lemma trimStart_nil (str : jsstring) :
  trimStart str = [] <-> forallb isWhiteSpace str = true.
Proof.
  induction str as [|c rest IH]; [now split|].
  cbn [trimStart forallb]. destruct (isWhiteSpace c); cbn [andb].
  - exact IH.
  - split; discriminate.
Qed.

Lemma forallb_rev {A} (f : A -> bool) (l : list A) :
  forallb f (rev l) = forallb f l.
Proof.
  induction l as [|x l IH]; [reflexivity|].
  cbn [rev forallb]. rewrite forallb_app, IH. cbn. now rewrite andb_true_r, andb_comm.
Qed.

Lemma trimEnd_nil (str : jsstring) :
  trimEnd str = [] <-> forallb isWhiteSpace str = true.
Proof.
  unfold trimEnd. rewrite <- (forallb_rev isWhiteSpace str), <- trimStart_nil.
  split; intros H.
  - apply (f_equal (@rev N)) in H. now rewrite rev_involutive in H.
  - now rewrite H.
Qed.

Lemma trimStart_whitespace (str : jsstring) :
  forallb isWhiteSpace (trimStart str) = true -> trimStart str = [].
Proof.
  induction str as [|c rest IH]; [reflexivity|].
  cbn [trimStart]. destruct (isWhiteSpace c) eqn:Hc; [exact IH|].
  cbn [forallb]. rewrite Hc. discriminate.
Qed.

(** [trim] leaves nothing exactly when every code unit is white space. *)
Lemma trim_nil (str : jsstring) :
  trim str = [] <-> forallb isWhiteSpace str = true.
Proof.
  unfold trim. rewrite trimEnd_nil. split; intros H.
  - apply trimStart_whitespace in H. now apply trimStart_nil.
  - apply trimStart_nil in H. now rewrite H.
Qed.

Lemma length_pos_iff {A} (l : list A) :
  Nat.ltb 0 (List.length l) = true <-> l <> [].
Proof.
  destruct l; cbn; split; intros H; try reflexivity; try discriminate.
  now contradiction H.
Qed.

Lemma showText_true (productName : option jsstring) (includeText : option bool) :
  showText productName includeText = true
  <-> includeText <> Some false
      /\ exists str, productName = Some str /\ trim str <> [].
Proof.
  unfold showText. rewrite !andb_true_iff, negb_true_iff. split.
  - intros [[Hi _] Hp]. split.
    + intros ->. discriminate.
    + destruct productName as [str|]; [|discriminate].
      exists str. split; [reflexivity|]. now apply length_pos_iff.
  - intros [Hi (str & -> & Ht)]. repeat split.
    + destruct includeText as [[|]|]; try reflexivity. now contradiction Hi.
    + destruct str; [now contradiction Ht|reflexivity].
    + now apply length_pos_iff.
Qed.

End ShowText.

(** ** Invariants of the call log *)

Section LogInvariant.

Variable P : Event -> Prop.

Lemma keeps_ret {A} (a : A) : keeps P (ret a).
Proof. intros w H. exact H. Qed.

Lemma keeps_throw {A} (m : string) : keeps P (@throw A m).
Proof. intros w H. exact H. Qed.

Lemma keeps_bind {A B} (c : M A) (k : A -> M B) :
  keeps P c -> (forall a, keeps P (k a)) -> keeps P (bind c k).
Proof.
  intros Hc Hk w H. unfold bind. specialize (Hc w H).
  destruct (c w) as [[a|m] w']; cbn in *; [now apply Hk | exact Hc].
Qed.

Lemma keeps_tryCatch {A} (c : M A) (h : string -> M A) :
  keeps P c -> (forall m, keeps P (h m)) -> keeps P (tryCatch c h).
Proof.
  intros Hc Hh w H. unfold tryCatch. specialize (Hc w H).
  destruct (c w) as [[a|m] w']; cbn in *; [exact Hc | now apply Hh].
Qed.

Lemma keeps_emit (e : Event) : P e -> keeps P (emit e).
Proof.
  intros He w H. cbn. apply Forall_app. split; [exact H | now constructor].
Qed.

Lemma keeps_orThrow {A} (r : option A) (m : string) : keeps P (orThrow r m).
Proof. destruct r; [apply keeps_ret | apply keeps_throw]. Qed.

Lemma keeps_dateNow (o : Oracle) : keeps P (dateNow o).
Proof. intros w H. exact H. Qed.

Lemma keeps_create (p : string) : keeps P (create p).
Proof. intros w H. exact H. Qed.

Lemma keeps_if {A} (b : bool) (c1 c2 : M A) :
  keeps P c1 -> keeps P c2 -> keeps P (if b then c1 else c2).
Proof. now destruct b. Qed.

Lemma keeps_quiet {A} (f : World -> Outcome A * World) :
  (forall w, log (snd (f w)) = log w) -> keeps P f.
Proof. intros Hf w H. now rewrite Hf. Qed.

Lemma keeps_fsCall (o : Oracle) (e : Event) (c : M unit) :
  P e -> keeps P c -> keeps P (fsCall o e c).
Proof.
  intros He Hc. apply keeps_bind; [now apply keeps_emit|].
  intros _. apply keeps_if; [apply keeps_throw | exact Hc].
Qed.

Lemma keeps_writeFileSync (o : Oracle) (p : string) :
  P (FsWriteFile p) -> keeps P (writeFileSync o p).
Proof. intros H. apply keeps_fsCall; [exact H | apply keeps_create]. Qed.

Lemma keeps_mkdirSync (o : Oracle) (p : string) :
  P (FsMkdir p) -> keeps P (mkdirSync o p).
Proof. intros H. apply keeps_fsCall; [exact H | apply keeps_create]. Qed.

Lemma keeps_unlinkSync (o : Oracle) (p : string) :
  P (FsUnlink p) -> keeps P (unlinkSync o p).
Proof.
  intros H. apply keeps_fsCall; [exact H|].
  apply keeps_quiet. intros w. now destruct (fileExists p (files w)).
Qed.

Lemma keeps_rmSync (o : Oracle) (p : string) :
  P (FsRm p) -> keeps P (rmSync o p).
Proof. intros H. apply keeps_fsCall; [exact H | now apply keeps_quiet]. Qed.

Lemma keeps_readFileSync (o : Oracle) (p : string) :
  P (FsReadFile p) -> keeps P (readFileSync o p).
Proof.
  intros H. apply keeps_fsCall; [exact H|].
  apply keeps_quiet. intros w. now destruct (fileExists p (files w)).
Qed.

Lemma keeps_runEncoder (o : Oracle) (job : EncodeJob) :
  P (EncoderRun job) -> keeps P (runEncoder o job).
Proof.
  intros H. apply keeps_bind; [now apply keeps_emit|].
  intros _. apply keeps_if; [apply keeps_create | apply keeps_throw].
Qed.

Lemma keeps_forEach {A} (xs : list A) (body : A -> M unit) :
  (forall x, keeps P (body x)) -> keeps P (forEach xs body).
Proof.
  intros Hb. induction xs as [|x xs IH]; [apply keeps_ret|].
  cbn [forEach]. apply keeps_bind; [apply Hb | intros _; exact IH].
Qed.

End LogInvariant.

Ltac keeps_step :=
  first
    [ apply keeps_writeFileSync
    | apply keeps_mkdirSync
    | apply keeps_unlinkSync
    | apply keeps_rmSync
    | apply keeps_readFileSync
    | apply keeps_runEncoder
    | apply keeps_emit
    | apply keeps_orThrow
    | apply keeps_dateNow
    | apply keeps_create
    | apply keeps_ret
    | apply keeps_throw
    | apply keeps_forEach; intros ?
    | apply keeps_tryCatch; [|intros ?]
    | apply keeps_bind; [|intros ?]
    | apply keeps_if ].

(** ** The overlay calls of a run *)

Section OverlayCalls.

Lemma handlerBody_keeps_escaped (o : Oracle) (req : Request) (imageKey : string)
    (template : Template) :
  keeps (carriesEscaped (productName req)) (handlerBody o req imageKey template).
Proof.
  unfold handlerBody.
  repeat keeps_step; try exact I.
  destruct (style template); [unfold zoomBranch | unfold slideBranch];
    repeat keeps_step; try exact I.
  - destruct (showText (productName req) (includeText req)); cbn; auto.
  - unfold carriesEscaped. do 2 eexists. reflexivity.
Qed.

Lemma handler_keeps_escaped (h : Host) (o : Oracle) (req : Request) (w : World) :
  Forall (carriesEscaped (productName req)) (log w) ->
  Forall (carriesEscaped (productName req)) (log (snd (handler h o req w))).
Proof.
  intros H. unfold handler.
  destruct (negb _); [exact H|].
  destruct (truthy (imageKey req)) as [k|]; [|exact H].
  destruct (truthy (templateId req)) as [t|]; [|exact H].
  destruct (getTemplateById t) as [template|]; [|exact H].
  destruct (resolveFfmpeg h); [|exact H].
  pose proof (handlerBody_keeps_escaped o req k template w H) as Hk.
  destruct (handlerBody o req k template w) as [[u|m] w']; exact Hk.
Qed.

End OverlayCalls.

(** ** Text on or off *)

Section OverlaySwitch.

Local Open Scope string_scope.

Lemma handlerBody_overlay_off (o : Oracle) (req : Request) (imageKey : string)
    (template : Template) :
  showText (productName req) (includeText req) = false ->
  keeps noOverlay (handlerBody o req imageKey template).
Proof.
  intros Hoff. unfold handlerBody. rewrite Hoff.
  repeat keeps_step; try exact I.
  destruct (style template); [unfold zoomBranch | unfold slideBranch];
    repeat keeps_step; exact I.
Qed.

Lemma handler_keeps (P : Event -> Prop) (h : Host) (o : Oracle) (req : Request) :
  (forall k template, keeps P (handlerBody o req k template)) ->
  Forall P (log (snd (handler h o req idle))).
Proof.
  intros Hb. unfold handler.
  destruct (negb _); [constructor|].
  destruct (truthy (imageKey req)) as [k|]; [|constructor].
  destruct (truthy (templateId req)) as [t|]; [|constructor].
  destruct (getTemplateById t) as [template|]; [|constructor].
  destruct (resolveFfmpeg h); [|constructor].
  pose proof (Hb k template idle (Forall_nil P)) as Hk.
  destruct (handlerBody o req k template idle) as [[u|m] w']; exact Hk.
Qed.

End OverlaySwitch.

(** ** The frames a run renders *)

Section RenderedFrames.

Lemma frameIndices_range (frames i : Z) :
  In i (frameIndices frames) -> (0 <= i /\ i < frames)%Z.
Proof.
  unfold frameIndices. intros H. apply in_map_iff in H.
  destruct H as (n & <- & Hn). apply in_seq in Hn. lia.
Qed.

Lemma handlerBody_keeps_inside (o : Oracle) (req : Request) (imageKey : string)
    (template : Template) :
  keeps extractInside (handlerBody o req imageKey template).
Proof.
  unfold handlerBody.
  repeat keeps_step; try exact I.
  destruct (style template); [unfold zoomBranch | unfold slideBranch];
    repeat keeps_step; try exact I.
  apply frameGeometry64_inside.
Qed.

(** C1: the [extract] window of a zoom frame lies inside the resized
    image: the offsets are not negative, and offset plus extent does not
    pass the rounded scaled width and height. This holds of the window
    computed in binary64 for every source size, frame count and frame
    index and whatever [Math.cos] returns, and so of the window of every
    frame that any run hands to the image library. *)
Theorem zoom_crop_inside_scaled :
  (forall (cos64 : R -> R) (iw ih frames i : Z),
      let g := Doubles.frameGeometry cos64 iw ih frames i in
      (0 <= left g /\ 0 <= top g
       /\ left g + width g <= scaledW g /\ top g + height g <= scaledH g)%Z)
  /\ (forall (h : Host) (o : Oracle) (req : Request),
        Forall extractInside (log (snd (handler h o req idle)))).
Proof.
  split.
  - exact frameGeometry64_inside.
  - intros h o req. apply handler_keeps. intros k template.
    apply handlerBody_keeps_inside.
Qed.

End RenderedFrames.

(** ** Escaped text in every overlay *)

Section EscapedOverlay.

Local Open Scope string_scope.
Local Open Scope list_scope.

(** C8: [escapeXml] replaces each of the five metacharacters by its
    entity and nothing else (the ampersand first, so the entities'
    own ampersands are not escaped again); its result holds no raw
    [<], [>] or quote, and each [&] in it starts an entity; the reader
    gets the input back; in every run, the zoom frames and the slide
    composite carry the markup built around the escaped, trimmed product
    name, and the markup of both paths embeds that text twice, as
    given. *)
Theorem overlay_text_escaped (h : Host) (o : Oracle) (req : Request)
    (str : jsstring) :
  escapeXml str = flat_map escapeUnit str
  /\ wellEscaped (escapeXml str) = true
  /\ (forall c, In c (escapeXml str) ->
        c <> LT /\ c <> GT /\ c <> QUOT /\ c <> APOS)
  /\ unescapeXml (List.length (escapeXml str)) (escapeXml str) = str
  /\ Forall (carriesEscaped (productName req)) (log (snd (handler h o req idle)))
  /\ (forall scaledW scaledH w h text,
        zoomSvg scaledW scaledH text
        = svgHead 1280 720 (fontSizeZoom scaledW scaledH)
            ++ text ++ svgMid ++ text ++ svgTail
        /\ slideSvg w h text
           = svgHead w h (fontSizeSlide w) ++ text ++ svgMid ++ text ++ svgTail).
Proof.
  split; [apply escapeXml_per_unit|].
  split; [apply escapeXml_wellEscaped|].
  split.
  { intros c Hin.
    assert (Hm : isMeta c = true -> c = AMP)
      by (apply (wellEscaped_no_raw (escapeXml str));
          [apply escapeXml_wellEscaped | exact Hin]).
    repeat split; intros ->; specialize (Hm eq_refl); discriminate. }
  split; [apply unescape_escape_fuel; lia|].
  split; [apply handler_keeps_escaped; constructor|].
  intros. split; reflexivity.
Qed.

Lemma overlay_text_escaped_witness :
  In AMP (escapeXml (lit "A&B<Test>"))
  /\ (AMP <> LT /\ AMP <> GT /\ AMP <> QUOT /\ AMP <> APOS).
Proof.
  assert (Hin : In AMP (escapeXml (lit "A&B<Test>"))) by (right; left; reflexivity).
  split; [exact Hin|].
  destruct (overlay_text_escaped bundledHost
              (collaborators (tickingClock 1700000000000) true true)
              (post (Some "uploads/a.jpg") (Some "slide-funky")
                 (Some (lit "A&B<Test>")) (Some true))
              (lit "A&B<Test>")) as (_ & _ & Hraw & _).
  exact (Hraw AMP Hin).
Defined.

(** The test case of the specification: [A&B<Test>] on the slide path. *)
Example escape_sample :
  escapeXml (trim (lit " A&B<Test> ")) = lit "A&amp;B&lt;Test&gt;".
Proof. reflexivity. Qed.

End EscapedOverlay.

(** ** Failing fast without an encoder *)

Section EncoderUnavailable.

Local Open Scope string_scope.

(** The three strategies all failing leaves no path. *)
Lemma resolveFfmpeg_none (h : Host) :
  (forall p, truthy (FFMPEG_PATH h) = Some p -> existsSync h p = false) ->
  (forall p, truthy (ffmpegStatic h) = Some p -> existsSync h p = false) ->
  truthy (whichSync h) = None ->
  resolveFfmpeg h = None.
Proof.
  intros He Hs Hw. unfold resolveFfmpeg.
  destruct (truthy (FFMPEG_PATH h)) as [p|].
  - now rewrite (He p eq_refl).
  - destruct (truthy (ffmpegStatic h)) as [p|]; [|exact Hw].
    now rewrite (Hs p eq_refl).
Qed.

(** C5, as amended: without an encoder the handler answers with an
    error and leaves the world as it found it: no storage call, no image
    work, no file; a POST request with an image key and a known
    template gets the encoder-unavailable error. *)
Theorem encoder_missing_fails_fast (h : Host) (o : Oracle) (req : Request)
    (w : World) :
  resolveFfmpeg h = None ->
  let r := handler h o req w in
  snd r = w
  /\ (log w = [] ->
      existsb isStorageGet (log (snd r)) = false
      /\ existsb isImageWork (log (snd r)) = false)
  /\ status (fst r) <> 200%Z
  /\ (method req = "POST" ->
      forall k t template,
        truthy (imageKey req) = Some k ->
        truthy (templateId req) = Some t ->
        getTemplateById t = Some template ->
        fst r = mkResponse 500 (ErrorBody ffmpegMissing)).
Proof.
  intros Hnone r. subst r.
  assert (Hsame : snd (handler h o req w) = w).
  { unfold handler. rewrite Hnone.
    destruct (negb _); [reflexivity|].
    destruct (truthy (imageKey req)); [|reflexivity].
    destruct (truthy (templateId req)) as [t|]; [|reflexivity].
    now destruct (getTemplateById t). }
  split; [exact Hsame|].
  split; [rewrite Hsame; intros ->; split; reflexivity|].
  unfold handler. rewrite Hnone.
  destruct (String.eqb_spec (method req) "POST") as [Hm|Hm]; cbn [negb].
  - destruct (truthy (imageKey req)) as [k|] eqn:Ek.
    + destruct (truthy (templateId req)) as [t|] eqn:Et.
      * destruct (getTemplateById t) as [template|] eqn:Eg;
          cbn [fst snd status]; (split; [discriminate|]).
        -- reflexivity.
        -- intros _ k' t' template' _ Ht Hg. congruence.
      * cbn [fst snd status]. split; [discriminate|].
        intros _ k' t' template' _ Ht _. discriminate.
    + cbn [fst snd status]. split; [discriminate|].
      intros _ k' t' template' Hk _ _. discriminate.
  - cbn [fst snd status]. split; [discriminate|].
    intros E. now contradiction Hm.
Qed.

Lemma encoder_missing_fails_fast_witness :
  let r := handler bareHost (collaborators (tickingClock 1700000000000) true true)
             (post (Some "uploads/a.jpg") (Some "zoom-ambient") None None) idle in
  snd r = idle /\ fst r = mkResponse 500 (ErrorBody ffmpegMissing).
Proof.
  intros r.
  pose proof (encoder_missing_fails_fast bareHost
                (collaborators (tickingClock 1700000000000) true true)
                (post (Some "uploads/a.jpg") (Some "zoom-ambient") None None)
                idle eq_refl) as (Hw & _ & _ & Hr).
  split; [exact Hw|].
  exact (Hr eq_refl _ _ _ eq_refl eq_refl eq_refl).
Defined.

(** C5 as stated fails: with no encoder, a request for an unknown
    template is answered [400 Invalid template], and one without an
    image key [400 Missing params], not with the encoder error. *)
Lemma missing_encoder_hidden_by_invalid_input :
  resolveFfmpeg bareHost = None
  /\ fst (handler bareHost (collaborators (tickingClock 1700000000000) true true)
            (post (Some "uploads/a.jpg") (Some "zoom-cinematic") None None) idle)
     = mkResponse 400 (ErrorBody "Invalid template")
  /\ fst (handler bareHost (collaborators (tickingClock 1700000000000) true true)
            (post None (Some "zoom-ambient") None None) idle)
     = mkResponse 400 (ErrorBody "Missing params")
  /\ mkResponse 400 (ErrorBody "Invalid template")
     <> mkResponse 500 (ErrorBody ffmpegMissing).
Proof.
  repeat split; try reflexivity. discriminate.
Qed.

End EncoderUnavailable.

(** ** Input validation *)

Section InvalidInput.

Local Open Scope string_scope.

Lemma showText_false_same_run (o : Oracle) (req : Request)
    (pn1 pn2 : option jsstring) (it1 it2 : option bool) (k : string)
    (template : Template) :
  showText pn1 it1 = false -> showText pn2 it2 = false ->
  handlerBody o (withText req pn1 it1) k template
  = handlerBody o (withText req pn2 it2) k template.
Proof.
  intros H1 H2. unfold handlerBody, zoomBranch, slideBranch.
  cbn [withText productName includeText]. rewrite H1, H2. reflexivity.
Qed.

(** C6, as amended: a request without an image key, without a template
    id or with an unknown template id is turned away before anything is
    called (with status 400 when it is a POST); a product name of white
    space only, with text requested, is not turned away: text is off and
    the run is the run of the same request without a product name. *)
Theorem invalid_input_rejected (h : Host) (o : Oracle) (req : Request)
    (w : World) :
  (truthy (imageKey req) = None \/ truthy (templateId req) = None
   \/ (exists t, truthy (templateId req) = Some t /\ getTemplateById t = None) ->
   snd (handler h o req w) = w
   /\ status (fst (handler h o req w)) <> 200%Z
   /\ (method req = "POST" -> status (fst (handler h o req w)) = 400%Z))
  /\ (forall str, forallb isWhiteSpace str = true ->
        showText (Some str) (Some true) = false
        /\ handler h o (withText req (Some str) (Some true)) w
           = handler h o (withText req None (Some true)) w).
Proof.
  split.
  - intros Hbad. unfold handler.
    destruct (String.eqb_spec (method req) "POST") as [Hm|Hm]; cbn [negb].
    + destruct Hbad as [Hk|[Ht|(t & Ht & Hg)]].
      * rewrite Hk. cbn. repeat split; discriminate.
      * rewrite Ht. destruct (truthy (imageKey req)); cbn; repeat split; discriminate.
      * rewrite Ht, Hg.
        destruct (truthy (imageKey req)); cbn; repeat split; discriminate.
    + cbn. split; [reflexivity|]. split; [discriminate|].
      intros E. now contradiction Hm.
  - intros str Hws.
    assert (Hoff : showText (Some str) (Some true) = false).
    { apply trim_nil in Hws. unfold showText. rewrite Hws. cbn.
      now rewrite andb_false_r. }
    split; [exact Hoff|].
    unfold handler. cbn [withText method imageKey templateId].
    destruct (negb (method req =? "POST")); [reflexivity|].
    destruct (truthy (imageKey req)) as [k|]; [|reflexivity].
    destruct (truthy (templateId req)) as [t|]; [|reflexivity].
    destruct (getTemplateById t) as [template|]; [|reflexivity].
    destruct (resolveFfmpeg h); [|reflexivity].
    now rewrite (showText_false_same_run o req (Some str) None (Some true)
                   (Some true) k template Hoff eq_refl).
Qed.

Lemma invalid_input_rejected_witness :
  snd (handler bundledHost (collaborators (tickingClock 1700000000000) true true)
         (post (Some "uploads/a.jpg") (Some "zoom-cinematic") None None) idle)
  = idle
  /\ showText (Some (lit "   ")) (Some true) = false.
Proof.
  pose proof (invalid_input_rejected bundledHost
                (collaborators (tickingClock 1700000000000) true true)
                (post (Some "uploads/a.jpg") (Some "zoom-cinematic") None None)
                idle) as [Hrej Hws].
  split.
  - apply Hrej. right. right. exists "zoom-cinematic". split; reflexivity.
  - apply (Hws (lit "   ")). reflexivity.
Defined.

(** C6 as stated fails: text requested with a product name of three
    spaces is served, with status 200, on both templates. *)
Lemma whitespace_name_is_served :
  status (fst (handler bundledHost
                 (collaborators (tickingClock 1700000000000) true true)
                 (post (Some "uploads/a.jpg") (Some "slide-funky")
                    (Some (lit "   ")) (Some true)) idle)) = 200%Z
  /\ status (fst (handler bundledHost
                    (collaborators (tickingClock 1700000000000) true true)
                    (post (Some "uploads/a.jpg") (Some "zoom-ambient")
                       (Some (lit "   ")) (Some true)) idle)) = 200%Z.
Proof. split; vm_compute; reflexivity. Qed.

End InvalidInput.

(** ** Temp paths of concurrent runs *)

Section RunScopedPaths.

Local Open Scope string_scope.

Lemma append_cancel_l (p a b : string) : p ++ a = p ++ b -> a = b.
Proof.
  induction p as [|c p IH]; cbn; [easy|].
  intros H. injection H as H. now apply IH.
Qed.

Lemma length_append (a b : string) :
  String.length (a ++ b) = (String.length a + String.length b)%nat.
Proof. induction a as [|c a IH]; cbn; [reflexivity | now rewrite IH]. Qed.

Lemma append_cancel_r (s a b : string) : a ++ s = b ++ s -> a = b.
Proof.
  revert b. induction a as [|c a IH]; intros [|d b] H; cbn in H.
  - reflexivity.
  - apply (f_equal String.length) in H. cbn in H. rewrite length_append in H. lia.
  - apply (f_equal String.length) in H. cbn in H. rewrite length_append in H. lia.
  - injection H as -> H. f_equal. now apply IH.
Qed.

Lemma to_int_nonnil (z : Z) :
  Z.to_int z <> Decimal.Pos Decimal.Nil /\ Z.to_int z <> Decimal.Neg Decimal.Nil.
Proof.
  destruct z as [|p|p]; cbn; split; try discriminate; intros H;
    injection H as H; now apply DecimalPos.Unsigned.to_uint_nonnil in H.
Qed.

Lemma decimal_inj (a b : Z) : decimal a = decimal b -> a = b.
Proof.
  unfold decimal. intros H. apply DecimalZ.to_int_inj.
  apply (f_equal NilZero.int_of_string) in H.
  destruct (to_int_nonnil a) as [Ha1 Ha2]. destruct (to_int_nonnil b) as [Hb1 Hb2].
  rewrite !NilZero.isi in H by assumption. now injection H.
Qed.

(** The time stamp is all that tells the input images of two runs
    apart: under one temp root they get the same path exactly when they
    read the same millisecond. *)
Lemma inputImagePath_same_iff (tmpDir : string) (t1 t2 : Z) :
  inputImagePathAt tmpDir t1 = inputImagePathAt tmpDir t2 <-> t1 = t2.
Proof.
  split; [|now intros ->].
  rewrite !inputImagePathAt_eq.
  intros H. apply append_cancel_l in H.
  apply (append_cancel_l "input-") in H.
  apply append_cancel_r in H. now apply decimal_inj.
Qed.

(** C9 fails: two runs for different images whose clocks read the same
    millisecond write their input image to the same path, and their
    encoders write to the same output path. *)
Theorem same_millisecond_runs_collide :
  let o := collaborators (sameMillisecond 1700000000000) true true in
  let runA := handler bundledHost o
                (post (Some "uploads/a.jpg") (Some "zoom-ambient") None None) idle in
  let runB := handler bundledHost o
                (post (Some "uploads/b.jpg") (Some "slide-funky") None None) idle in
  nth_error (log (snd runA)) 0 = Some (StorageGet "uploads/a.jpg")
  /\ nth_error (log (snd runB)) 0 = Some (StorageGet "uploads/b.jpg")
  /\ nth_error (log (snd runA)) 1 = Some (FsWriteFile "/tmp/input-1700000000000.jpg")
  /\ nth_error (log (snd runB)) 1 = Some (FsWriteFile "/tmp/input-1700000000000.jpg")
  /\ nth_error (log (snd runA)) 157
     = Some (FsReadFile "/tmp/output-1700000000000.mp4")
  /\ nth_error (log (snd runB)) 4
     = Some (FsReadFile "/tmp/output-1700000000000.mp4").
Proof. vm_compute. repeat split; reflexivity. Qed.

End RunScopedPaths.

(** ** Triples over the temp root *)

Section Triples.

Local Open Scope string_scope.

Lemma triple_conseq {A} (R R' : list string -> Prop) (c : M A)
    (Q Q' : A -> list string -> Prop) (E E' : list string -> Prop) :
  triple R c Q E ->
  (forall fs, R' fs -> R fs) ->
  (forall a fs, Q a fs -> Q' a fs) ->
  (forall fs, E fs -> E' fs) ->
  triple R' c Q' E'.
Proof.
  intros Hc HR HQ HE w Hw. specialize (Hc w (HR _ Hw)).
  destruct (c w) as [[a|m] w']; auto.
Qed.

Lemma triple_ret {A} (R : list string -> Prop) (a : A)
    (Q : A -> list string -> Prop) (E : list string -> Prop) :
  (forall fs, R fs -> Q a fs) -> triple R (ret a) Q E.
Proof. intros H w Hw. cbn. auto. Qed.

Lemma triple_throw {A} (R : list string -> Prop) (m : string)
    (Q : A -> list string -> Prop) (E : list string -> Prop) :
  (forall fs, R fs -> E fs) -> triple R (throw m) Q E.
Proof. intros H w Hw. cbn. auto. Qed.

Lemma triple_bind {A B} (R : list string -> Prop) (c : M A) (k : A -> M B)
    (Q : A -> list string -> Prop) (Q' : B -> list string -> Prop)
    (E : list string -> Prop) :
  triple R c Q E -> (forall a, triple (Q a) (k a) Q' E) ->
  triple R (bind c k) Q' E.
Proof.
  intros Hc Hk w Hw. unfold bind. specialize (Hc w Hw).
  destruct (c w) as [[a|m] w']; [now apply Hk | exact Hc].
Qed.

Lemma triple_tryCatch {A} (R : list string -> Prop) (c : M A)
    (h : string -> M A) (Q : A -> list string -> Prop)
    (E' E : list string -> Prop) :
  triple R c Q E' -> (forall m, triple E' (h m) Q E) ->
  triple R (tryCatch c h) Q E.
Proof.
  intros Hc Hh w Hw. unfold tryCatch. specialize (Hc w Hw).
  destruct (c w) as [[a|m] w']; [exact Hc | now apply Hh].
Qed.

Lemma triple_quiet {A} (R : list string -> Prop) (c : M A) :
  quiet c -> triple R c (fun _ => R) R.
Proof.
  intros Hq w Hw. specialize (Hq w).
  destruct (c w) as [[a|m] w']; cbn in Hq; now rewrite Hq.
Qed.

(** A quiet step in front of a continuation. *)
Lemma triple_bind_quiet {A B} (R : list string -> Prop) (c : M A)
    (k : A -> M B) (Q : B -> list string -> Prop) (E : list string -> Prop) :
  quiet c -> (forall fs, R fs -> E fs) ->
  (forall a, triple R (k a) Q E) ->
  triple R (bind c k) Q E.
Proof.
  intros Hq HE Hk. apply triple_bind with (Q := fun _ => R); [|exact Hk].
  apply triple_conseq with (R := R) (Q := fun _ => R) (E := R); auto.
  now apply triple_quiet.
Qed.

Lemma quiet_ret {A} (a : A) : quiet (ret a).
Proof. now intros w. Qed.

Lemma quiet_throw {A} (m : string) : quiet (@throw A m).
Proof. now intros w. Qed.

Lemma quiet_emit (e : Event) : quiet (emit e).
Proof. now intros w. Qed.

Lemma quiet_dateNow (o : Oracle) : quiet (dateNow o).
Proof. now intros w. Qed.

Lemma quiet_orThrow {A} (r : option A) (m : string) : quiet (orThrow r m).
Proof. destruct r; [apply quiet_ret | apply quiet_throw]. Qed.

Lemma quiet_readFileSync (o : Oracle) (p : string) : quiet (readFileSync o p).
Proof.
  intros w. unfold readFileSync, fsCall, bind, emit, throw.
  destruct (fsRefuses o (FsReadFile p)); cbn; [reflexivity|].
  now destruct (existsb (String.eqb p) (files w)).
Qed.

Lemma fileExists_In (p : string) (fs : list string) :
  fileExists p fs = true <-> In p fs.
Proof.
  unfold fileExists. rewrite existsb_exists. split.
  - intros (q & Hq & E). apply String.eqb_eq in E. now subst.
  - intros H. exists p. split; [exact H | apply String.eqb_refl].
Qed.

Lemma within_added (S : string -> Prop) (p : string) (fs : list string) :
  within S fs -> S p -> within S (added p fs).
Proof.
  intros Hfs Hp. unfold added. destruct (fileExists p fs); [exact Hfs|].
  intros f Hf. apply in_app_or in Hf. destruct Hf as [Hf|[<-|[]]]; auto.
Qed.

Lemma In_added (q p : string) (fs : list string) :
  In q fs -> In q (added p fs).
Proof.
  intros H. unfold added. destruct (fileExists p fs); [exact H|].
  apply in_or_app. now left.
Qed.

Lemma In_added_self (p : string) (fs : list string) : In p (added p fs).
Proof.
  unfold added. destruct (fileExists p fs) eqn:Hp.
  - now apply fileExists_In.
  - apply in_or_app. right. now left.
Qed.

Lemma within_weaken (S S' : string -> Prop) (fs : list string) :
  within S fs -> (forall f, S f -> S' f) -> within S' fs.
Proof. intros H HS f Hf. auto. Qed.

Lemma within_nil (fs : list string) : within (fun _ => False) fs -> fs = [].
Proof.
  intros H. destruct fs as [|f fs]; [reflexivity|].
  destruct (H f (or_introl eq_refl)).
Qed.

Lemma within_filter (S : string -> Prop) (keep : string -> bool)
    (fs : list string) :
  within S fs -> within (fun f => S f /\ keep f = true) (filter keep fs).
Proof.
  intros H f Hf. apply filter_In in Hf. destruct Hf as [Hf Hk]. auto.
Qed.

End Triples.

Section FileTriples.

Local Open Scope string_scope.

(** A file-system call: refused, it throws with the files as they
    were. *)
Lemma triple_fsCall (R : list string -> Prop) (o : Oracle) (e : Event)
    (c : M unit) (Q : unit -> list string -> Prop) (E : list string -> Prop) :
  (forall fs, R fs -> E fs) -> triple R c Q E -> triple R (fsCall o e c) Q E.
Proof.
  intros HE Hc w Hw. unfold fsCall, bind, emit, throw.
  destruct (fsRefuses o e).
  - cbn. now apply HE.
  - apply (Hc (mkWorld (files w) (log w ++ [e]) (ticks w))). exact Hw.
Qed.

Lemma triple_writeFileSync (R : list string -> Prop) (o : Oracle) (p : string)
    (Q : unit -> list string -> Prop) (E : list string -> Prop) :
  (forall fs, R fs -> Q tt (added p fs)) ->
  (forall fs, R fs -> E fs) ->
  triple R (writeFileSync o p) Q E.
Proof.
  intros H HE. apply triple_fsCall; [exact HE|]. intros w Hw. cbn. now apply H.
Qed.

Lemma triple_mkdirSync (R : list string -> Prop) (o : Oracle) (p : string)
    (Q : unit -> list string -> Prop) (E : list string -> Prop) :
  (forall fs, R fs -> Q tt (added p fs)) ->
  (forall fs, R fs -> E fs) ->
  triple R (mkdirSync o p) Q E.
Proof.
  intros H HE. apply triple_fsCall; [exact HE|]. intros w Hw. cbn. now apply H.
Qed.

Lemma triple_unlinkSync (R : list string -> Prop) (o : Oracle) (p : string)
    (Q : unit -> list string -> Prop) (E : list string -> Prop) :
  (forall fs, R fs -> fileExists p fs = true ->
     Q tt (filter (fun q => negb (q =? p)) fs)) ->
  (forall fs, R fs -> E fs) ->
  triple R (unlinkSync o p) Q E.
Proof.
  intros HQ HE. apply triple_fsCall; [exact HE|]. intros w Hw.
  destruct (fileExists p (files w)) eqn:Hp; cbn; auto.
Qed.

(** A call that the file system does not refuse is carried out. *)
Lemma triple_fsCall_allowed (R : list string -> Prop) (o : Oracle) (e : Event)
    (c : M unit) (Q : unit -> list string -> Prop) (E : list string -> Prop) :
  fsRefuses o e = false -> triple R c Q E -> triple R (fsCall o e c) Q E.
Proof.
  intros Hok Hc w Hw. unfold fsCall, bind, emit. rewrite Hok.
  apply (Hc (mkWorld (files w) (log w ++ [e]) (ticks w))). exact Hw.
Qed.

Lemma triple_writeFileSync_allowed (R : list string -> Prop) (o : Oracle)
    (p : string) (Q : unit -> list string -> Prop) (E : list string -> Prop) :
  fsRefuses o (FsWriteFile p) = false ->
  (forall fs, R fs -> Q tt (added p fs)) ->
  triple R (writeFileSync o p) Q E.
Proof.
  intros Hok H. apply triple_fsCall_allowed; [exact Hok|].
  intros w Hw. cbn. now apply H.
Qed.

Lemma triple_mkdirSync_allowed (R : list string -> Prop) (o : Oracle)
    (p : string) (Q : unit -> list string -> Prop) (E : list string -> Prop) :
  fsRefuses o (FsMkdir p) = false ->
  (forall fs, R fs -> Q tt (added p fs)) ->
  triple R (mkdirSync o p) Q E.
Proof.
  intros Hok H. apply triple_fsCall_allowed; [exact Hok|].
  intros w Hw. cbn. now apply H.
Qed.

(** A removal that the file system does not refuse fails only when the
    file is missing. *)
Lemma triple_unlinkSync_allowed (R : list string -> Prop) (o : Oracle)
    (p : string) (Q : unit -> list string -> Prop) (E : list string -> Prop) :
  fsRefuses o (FsUnlink p) = false ->
  (forall fs, R fs -> fileExists p fs = true ->
     Q tt (filter (fun q => negb (q =? p)) fs)) ->
  (forall fs, R fs -> fileExists p fs = false -> E fs) ->
  triple R (unlinkSync o p) Q E.
Proof.
  intros Hok HQ HE. apply triple_fsCall_allowed; [exact Hok|]. intros w Hw.
  destruct (fileExists p (files w)) eqn:Hp; cbn; auto.
Qed.

Lemma triple_rmSync_allowed (R : list string -> Prop) (o : Oracle)
    (p : string) (Q : unit -> list string -> Prop) (E : list string -> Prop) :
  fsRefuses o (FsRm p) = false ->
  (forall fs, R fs ->
     Q tt (filter (fun q => negb (q =? p) && negb (String.prefix (p ++ "/") q)) fs)) ->
  triple R (rmSync o p) Q E.
Proof.
  intros Hok H. apply triple_fsCall_allowed; [exact Hok|].
  intros w Hw. cbn. now apply H.
Qed.

Lemma triple_readFileSync_allowed (R : list string -> Prop) (o : Oracle)
    (p : string) (Q : unit -> list string -> Prop) (E : list string -> Prop) :
  fsRefuses o (FsReadFile p) = false ->
  (forall fs, R fs -> fileExists p fs = true -> Q tt fs) ->
  (forall fs, R fs -> fileExists p fs = false -> E fs) ->
  triple R (readFileSync o p) Q E.
Proof.
  intros Hok HQ HE. apply triple_fsCall_allowed; [exact Hok|]. intros w Hw.
  destruct (fileExists p (files w)) eqn:Hp; cbn; auto.
Qed.

Lemma triple_rmSync (R : list string -> Prop) (o : Oracle) (p : string)
    (Q : unit -> list string -> Prop) (E : list string -> Prop) :
  (forall fs, R fs ->
     Q tt (filter (fun q => negb (q =? p) && negb (String.prefix (p ++ "/") q)) fs)) ->
  (forall fs, R fs -> E fs) ->
  triple R (rmSync o p) Q E.
Proof.
  intros H HE. apply triple_fsCall; [exact HE|]. intros w Hw. cbn. now apply H.
Qed.

Lemma triple_readFileSync (R : list string -> Prop) (o : Oracle) (p : string)
    (Q : unit -> list string -> Prop) (E : list string -> Prop) :
  (forall fs, R fs -> fileExists p fs = true -> Q tt fs) ->
  (forall fs, R fs -> E fs) ->
  triple R (readFileSync o p) Q E.
Proof.
  intros HQ HE. apply triple_fsCall; [exact HE|]. intros w Hw.
  destruct (fileExists p (files w)) eqn:Hp; cbn; auto.
Qed.

Lemma triple_runEncoder (R : list string -> Prop) (o : Oracle) (job : EncodeJob)
    (Q : unit -> list string -> Prop) (E : list string -> Prop) :
  (forall fs, R fs -> Q tt (added (outputPath job) fs)) ->
  (forall fs, R fs -> E fs) ->
  triple R (runEncoder o job) Q E.
Proof.
  intros HQ HE w Hw. unfold runEncoder, bind, emit.
  destruct (encode o); cbn; [apply HQ | apply HE]; exact Hw.
Qed.

Lemma triple_forEach {A} (I : list string -> Prop) (xs : list A)
    (body : A -> M unit) (E : list string -> Prop) :
  (forall x, triple I (body x) (fun _ => I) E) ->
  triple I (forEach xs body) (fun _ => I) E.
Proof.
  intros Hb. induction xs as [|x xs IH]; cbn [forEach].
  - now apply triple_ret.
  - eapply triple_bind; [apply Hb | intros u; exact IH].
Qed.

End FileTriples.

Ltac quiet_rule :=
  first [ apply quiet_emit | apply quiet_dateNow | apply quiet_orThrow
        | apply quiet_readFileSync | apply quiet_ret | apply quiet_throw ].

(** One quiet step of a sequence; the throwing side is left to [tac]. *)
Tactic Notation "quiet_step" "as" ident(x) "by" tactic(tac) :=
  apply triple_bind_quiet; [quiet_rule | solve [tac] | intros x].

(** ** The success path removes what it created *)

Section SuccessCleans.

Local Open Scope string_scope.

Lemma prefix_dir (d x : string) : String.prefix (d ++ "/") (d ++ "/" ++ x) = true.
Proof.
  induction d as [|c d IH]; cbn.
  - destruct (ascii_dec "/" "/") as [_|N]; [now destruct x | now contradiction N].
  - destruct (ascii_dec c c) as [_|N]; [exact IH | now contradiction N].
Qed.

(** Every frame file lies below the frames directory of its run. *)
Lemma framePath_below (tmpDir : string) (t i : Z) :
  String.prefix (framesDirAt tmpDir t ++ "/")
    (framePath (framesDirAt tmpDir t) i) = true.
Proof.
  rewrite framePath_eq.
  exact (prefix_dir (framesDirAt tmpDir t)
           ("frame-" ++ padStart0 4 (decimal i) ++ ".png")).
Qed.

Lemma zoomBranch_cleans (o : Oracle) (imageBuffer : Buffer) (tmpDir : string)
    (outputVideoPath : string) (audio : AudioSource) (template : Template)
    (productName : option jsstring) (showText : bool) (frames : Z)
    (S : string -> Prop) :
  triple (within S)
    (zoomBranch o imageBuffer tmpDir outputVideoPath audio template
       productName showText frames)
    (fun _ => within (fun f => S f \/ f = outputVideoPath))
    (fun _ => True).
Proof.
  unfold zoomBranch.
  quiet_step as t by trivial.
  set (framesDir := framesDirAt tmpDir t).
  set (below := fun f => S f \/ f = framesDir
                         \/ String.prefix (framesDir ++ "/") f = true).
  apply triple_bind with (Q := fun _ => within below).
  { apply triple_mkdirSync; [|trivial]. intros fs H.
    apply within_added; [|right; left; reflexivity].
    eapply within_weaken; [exact H|]. intros f Hf. now left. }
  intros _.
  quiet_step as u by trivial. quiet_step as md by trivial.
  apply triple_bind with (Q := fun _ => within below).
  { apply triple_forEach. intros i.
    quiet_step as u' by trivial.
    destruct (renderFrame o i); [|now apply triple_throw].
    intros w Hw. cbn. apply within_added; [exact Hw|].
    right. right. apply framePath_below. }
  intros _.
  apply triple_bind
    with (Q := fun _ => within (fun f => below f \/ f = outputVideoPath)).
  { apply triple_runEncoder; [|trivial]. intros fs H.
    apply within_added; [|now right].
    eapply within_weaken; [exact H|]. intros f Hf. now left. }
  intros _.
  apply triple_rmSync; [|trivial]. intros fs H f Hf.
  apply filter_In in Hf. destruct Hf as [Hf Hkeep].
  apply andb_true_iff in Hkeep. destruct Hkeep as [Hne Hnp].
  apply negb_true_iff in Hne, Hnp. apply String.eqb_neq in Hne.
  destruct (H f Hf) as [[Hs|[Hd|Hp]]|Ho]; auto.
  - now contradiction Hne.
  - congruence.
Qed.

Lemma slideBranch_cleans (o : Oracle) (imageBuffer : Buffer) (tmpDir : string)
    (inputImagePath outputVideoPath : string) (audio : AudioSource)
    (template : Template) (productName : option jsstring) (showText : bool)
    (S : string -> Prop) :
  (forall p, fsRefuses o (FsUnlink p) = false) ->
  triple (within S)
    (slideBranch o imageBuffer tmpDir inputImagePath outputVideoPath audio
       template productName showText)
    (fun _ => within (fun f => S f \/ f = inputImagePath \/ f = outputVideoPath))
    (fun _ => True).
Proof.
  intros Hun. unfold slideBranch.
  apply triple_bind
    with (Q := fun slideInput =>
                 within (fun f => S f \/ f = inputImagePath \/ f = slideInput)).
  { assert (Hplain : triple (within S) (ret inputImagePath)
                       (fun slideInput =>
                          within (fun f => S f \/ f = inputImagePath
                                           \/ f = slideInput))
                       (fun _ => True)).
    { apply triple_ret. intros fs H. eapply within_weaken; [exact H|]. auto. }
    destruct showText; [|exact Hplain].
    apply triple_tryCatch with (E' := within S); [|intros _; exact Hplain].
    quiet_step as u by trivial. quiet_step as meta by trivial.
    quiet_step as t by trivial. quiet_step as u' by trivial.
    apply triple_bind
      with (Q := fun _ => within (fun f => S f \/ f = withTextPathAt tmpDir t)).
    { destruct (composite o); [|now apply triple_throw].
      intros w Hw. cbn. apply within_added; [|now right].
      eapply within_weaken; [exact Hw|]. auto. }
    intros _. apply triple_ret. intros fs H.
    eapply within_weaken; [exact H|]. intros f [Hf|Hf]; auto. }
  intros slideInput.
  apply triple_bind
    with (Q := fun _ =>
                 within (fun f => (S f \/ f = inputImagePath \/ f = slideInput)
                                  \/ f = outputVideoPath)).
  { apply triple_runEncoder; [|trivial]. intros fs H.
    apply within_added; [|now right].
    eapply within_weaken; [exact H|]. auto. }
  intros _.
  set (goal := within (fun f => S f \/ f = inputImagePath \/ f = outputVideoPath)).
  apply triple_tryCatch with (E' := goal);
    [|intros _; now apply triple_ret].
  destruct (String.eqb_spec slideInput inputImagePath) as [->|Hne]; cbn [negb].
  - apply triple_ret. intros fs H. eapply within_weaken; [exact H|].
    intros f [[Hf|[Hf|Hf]]|Hf]; auto.
  - apply triple_unlinkSync_allowed; [apply Hun| |].
    + intros fs H _ f Hf. apply filter_In in Hf. destruct Hf as [Hf Hk].
      apply negb_true_iff, String.eqb_neq in Hk.
      destruct (H f Hf) as [[Hs|[Hi|Hs]]|Ho]; auto. now contradiction Hk.
    + intros fs H Hno f Hf.
      destruct (H f Hf) as [[Hs|[Hi|Hs]]|Ho]; auto.
      subst f. apply fileExists_In in Hf. congruence.
Qed.

Lemma handlerBody_cleans (o : Oracle) (req : Request) (imageKey : string)
    (template : Template) :
  (forall p, fsRefuses o (FsUnlink p) = false) ->
  triple (fun fs => fs = []) (handlerBody o req imageKey template)
    (fun _ fs => fs = []) (fun _ => True).
Proof.
  intros Hun. unfold handlerBody.
  quiet_step as u by trivial. quiet_step as imageBuffer by trivial.
  quiet_step as t0 by trivial. quiet_step as t1 by trivial.
  set (I := inputImagePathAt (tmpdir o) t0).
  set (O := outputVideoPathAt (tmpdir o) t1).
  apply triple_bind with (Q := fun _ => within (fun f => f = I)).
  { apply triple_writeFileSync; [|trivial].
    intros fs ->. apply within_added; [|reflexivity].
    intros f []. }
  intros _. quiet_step as u' by trivial.
  apply triple_bind with (Q := fun _ => within (fun f => f = I \/ f = O)).
  { destruct (style template).
    - apply zoomBranch_cleans with (S := fun f => f = I).
    - eapply triple_conseq;
        [apply slideBranch_cleans with (S := fun f => f = I); exact Hun
        | | | ]; auto.
      intros u'' fs H. eapply within_weaken; [exact H|].
      cbn. intros f [Hf|[Hf|Hf]]; auto. }
  intros _.
  quiet_step as u1 by trivial. quiet_step as t by trivial.
  quiet_step as u2 by trivial. quiet_step as videoUrl by trivial.
  apply triple_bind with (Q := fun _ => within (fun f => f = O)).
  { apply triple_unlinkSync; [|trivial].
    intros fs H _ f Hf. apply filter_In in Hf. destruct Hf as [Hf Hk].
    apply negb_true_iff, String.eqb_neq in Hk.
    destruct (H f Hf); [now contradiction Hk | assumption]. }
  intros _.
  apply triple_bind with (Q := fun _ => within (fun _ => False)).
  { apply triple_unlinkSync; [|trivial].
    intros fs H _ f Hf. apply filter_In in Hf. destruct Hf as [Hf Hk].
    apply negb_true_iff, String.eqb_neq in Hk. now apply Hk, H. }
  intros _. apply triple_ret. intros fs H. now apply within_nil.
Qed.

(** Whatever the collaborators do, as long as the file system refuses
    no removal (a refused removal of the slide composite is swallowed
    at line 201): a run that starts with an empty temp root and answers
    200 leaves the temp root empty. *)
Lemma success_leaves_nothing (h : Host) (o : Oracle) (req : Request) (w : World) :
  (forall p, fsRefuses o (FsUnlink p) = false) ->
  files w = [] ->
  status (fst (handler h o req w)) = 200%Z ->
  files (snd (handler h o req w)) = [].
Proof.
  intros Hun Hw. unfold handler.
  destruct (negb _); [discriminate|].
  destruct (truthy (imageKey req)) as [k|]; [|discriminate].
  destruct (truthy (templateId req)) as [t|]; [|discriminate].
  destruct (getTemplateById t) as [template|]; [|discriminate].
  destruct (resolveFfmpeg h); [|discriminate].
  pose proof (handlerBody_cleans o req k template Hun w Hw) as H.
  destruct (handlerBody o req k template w) as [[url|m] w']; cbn.
  - intros _. exact H.
  - discriminate.
Qed.

End SuccessCleans.

(** ** The failure paths remove nothing *)

Section FailureLeaks.

Local Open Scope string_scope.

Lemma string_append_assoc (a b c : string) : (a ++ b) ++ c = a ++ (b ++ c).
Proof. induction a as [|x a IH]; cbn; [reflexivity | now rewrite IH]. Qed.

Lemma prefix_common (d a b : string) :
  String.prefix (d ++ a) (d ++ b) = String.prefix a b.
Proof.
  induction d as [|c d IH]; cbn; [reflexivity|].
  destruct (ascii_dec c c) as [_|N]; [exact IH | now contradiction N].
Qed.

Lemma eqb_common (d a b : string) : (d ++ a =? d ++ b) = (a =? b).
Proof.
  induction d as [|c d IH]; cbn; [reflexivity|].
  now rewrite Ascii.eqb_refl.
Qed.

Lemma input_ne_output (d : string) (t0 t1 : Z) :
  outputVideoPathAt d t1 <> inputImagePathAt d t0.
Proof.
  rewrite outputVideoPathAt_eq, inputImagePathAt_eq.
  intros H. apply append_cancel_l in H. discriminate H.
Qed.

(** Removing the frames directory does not touch the input image. *)
Lemma rm_framesDir_keeps_input (d : string) (t0 t : Z) :
  negb (inputImagePathAt d t0 =? framesDirAt d t)
  && negb (String.prefix (framesDirAt d t ++ "/") (inputImagePathAt d t0)) = true.
Proof.
  rewrite framesDirAt_eq, inputImagePathAt_eq.
  rewrite eqb_common, string_append_assoc, prefix_common. reflexivity.
Qed.

Lemma triple_bind_dateNow {B} (R : list string -> Prop) (o : Oracle)
    (k : Z -> M B) (Q : B -> list string -> Prop) (E : list string -> Prop) :
  (forall t, triple R (k t) Q E) -> triple R (bind (dateNow o) k) Q E.
Proof. intros Hk w Hw. apply (Hk (now o (ticks w))). exact Hw. Qed.

Lemma triple_bind_emit {B} (R : list string -> Prop) (e : Event)
    (k : unit -> M B) (Q : B -> list string -> Prop) (E : list string -> Prop) :
  triple R (k tt) Q E -> triple R (bind (emit e) k) Q E.
Proof. intros Hk w Hw. apply Hk. exact Hw. Qed.

Lemma zoomBranch_retains (o : Oracle) (imageBuffer : Buffer) (tmpDir : string)
    (t0 : Z) (outputVideoPath : string) (audio : AudioSource)
    (template : Template) (productName : option jsstring) (showText : bool)
    (frames : Z) :
  let inputImagePath := inputImagePathAt tmpDir t0 in
  triple (In inputImagePath)
    (zoomBranch o imageBuffer tmpDir outputVideoPath audio template
       productName showText frames)
    (fun _ => In inputImagePath) (In inputImagePath).
Proof.
  intros I. unfold zoomBranch.
  quiet_step as t by trivial.
  apply triple_bind with (Q := fun _ => In I).
  { apply triple_mkdirSync; [|trivial]. intros fs. apply In_added. }
  intros _.
  quiet_step as u by trivial. quiet_step as md by trivial.
  apply triple_bind with (Q := fun _ => In I).
  { apply triple_forEach. intros i.
    quiet_step as u' by trivial.
    destruct (renderFrame o i); [|now apply triple_throw].
    intros w Hw. cbn. now apply In_added. }
  intros _.
  apply triple_bind with (Q := fun _ => In I).
  { apply triple_runEncoder; [|trivial]. intros fs. apply In_added. }
  intros _.
  apply triple_rmSync; [|trivial].
  intros fs H. apply filter_In. split; [exact H|].
  apply rm_framesDir_keeps_input.
Qed.

Lemma slideBranch_retains (o : Oracle) (imageBuffer : Buffer) (tmpDir : string)
    (inputImagePath outputVideoPath : string) (audio : AudioSource)
    (template : Template) (productName : option jsstring) (showText : bool) :
  triple (In inputImagePath)
    (slideBranch o imageBuffer tmpDir inputImagePath outputVideoPath audio
       template productName showText)
    (fun _ => In inputImagePath) (In inputImagePath).
Proof.
  unfold slideBranch.
  apply triple_bind with (Q := fun _ => In inputImagePath).
  { destruct showText; [|now apply triple_ret].
    apply triple_tryCatch with (E' := In inputImagePath);
      [|intros _; now apply triple_ret].
    quiet_step as u by trivial. quiet_step as meta by trivial.
    quiet_step as t by trivial. quiet_step as u' by trivial.
    apply triple_bind with (Q := fun _ => In inputImagePath);
      [|intros _; now apply triple_ret].
    destruct (composite o); [|now apply triple_throw].
    intros w Hw. cbn. now apply In_added. }
  intros slideInput.
  apply triple_bind with (Q := fun _ => In inputImagePath).
  { apply triple_runEncoder; [|trivial]. intros fs. apply In_added. }
  intros _.
  apply triple_tryCatch with (E' := In inputImagePath);
    [|intros _; now apply triple_ret].
  destruct (String.eqb_spec slideInput inputImagePath) as [->|Hne]; cbn [negb].
  - now apply triple_ret.
  - apply triple_unlinkSync; [|trivial].
    intros fs H _. apply filter_In. split; [exact H|].
    apply negb_true_iff, String.eqb_neq. congruence.
Qed.

(** Once the image has been downloaded and written, whatever else goes
    wrong, the input image is still in the temp root when the [try]
    block is left by an exception. The write itself may be refused, and
    so may the removal of the output video that follows the removal of
    the input image; these two are assumed not to happen. *)
Lemma handlerBody_leaks (o : Oracle) (req : Request) (imageKey : string)
    (template : Template) (imageBuffer : Buffer) :
  (forall p, fsRefuses o (FsWriteFile p) = false) ->
  (forall p, fsRefuses o (FsUnlink p) = false) ->
  getObject o imageKey = Some imageBuffer ->
  triple (fun _ => True) (handlerBody o req imageKey template)
    (fun _ _ => True)
    (fun fs => exists t0, In (inputImagePathAt (tmpdir o) t0) fs).
Proof.
  intros Hwr Hun Hget. unfold handlerBody. rewrite Hget. cbn [orThrow].
  apply triple_bind_emit.
  apply triple_bind with (Q := fun _ _ => True); [now apply triple_ret|].
  intros b.
  apply triple_bind_dateNow. intros t0.
  apply triple_bind_dateNow. intros t1.
  set (I := inputImagePathAt (tmpdir o) t0).
  set (O := outputVideoPathAt (tmpdir o) t1).
  apply triple_conseq
    with (R := fun _ => True) (Q := fun _ _ => True) (E := In I);
    [|auto|auto|intros fs H; now exists t0].
  apply triple_bind with (Q := fun _ => In I).
  { apply triple_writeFileSync_allowed; [apply Hwr|].
    intros fs _. apply In_added_self. }
  intros _. quiet_step as u by trivial.
  apply triple_bind with (Q := fun _ => In I).
  { destruct (style template);
      [apply zoomBranch_retains | apply slideBranch_retains]. }
  intros _.
  apply triple_bind with (Q := fun _ fs => In I fs /\ In O fs).
  { apply triple_readFileSync; [|trivial].
    intros fs H HO. split; [exact H | now apply fileExists_In]. }
  intros _.
  quiet_step as t by (intros fs [H _]; exact H).
  quiet_step as u' by (intros fs [H _]; exact H).
  quiet_step as videoUrl by (intros fs [H _]; exact H).
  apply triple_bind with (Q := fun _ => In O).
  { apply triple_unlinkSync.
    - intros fs [_ HO] _. apply filter_In. split; [exact HO|].
      apply negb_true_iff, String.eqb_neq. apply input_ne_output.
    - intros fs [HI _]. exact HI. }
  intros _.
  apply triple_bind with (Q := fun _ _ => True); [|intros _; now apply triple_ret].
  apply triple_unlinkSync_allowed; [apply Hun|trivial|].
  intros fs HO Hno. apply fileExists_In in HO. congruence.
Qed.

(** For every host with an encoder, every behaviour of the storage, the
    image library and the encoder, and every valid request whose image
    was downloaded and written to the temp root: when the handler
    answers 500, an input image is left in the temp root. *)
Lemma failure_leaves_input_image (h : Host) (o : Oracle) (req : Request)
    (w : World) (k t p : string) (template : Template) (imageBuffer : Buffer) :
  (forall p, fsRefuses o (FsWriteFile p) = false) ->
  (forall p, fsRefuses o (FsUnlink p) = false) ->
  method req = "POST" ->
  truthy (imageKey req) = Some k ->
  truthy (templateId req) = Some t ->
  getTemplateById t = Some template ->
  resolveFfmpeg h = Some p ->
  getObject o k = Some imageBuffer ->
  status (fst (handler h o req w)) = 500%Z ->
  exists t0, In (inputImagePathAt (tmpdir o) t0) (files (snd (handler h o req w))).
Proof.
  intros Hwr Hun Hm Hk Ht Hg Hf Hget. unfold handler.
  rewrite Hm, Hk, Ht, Hg, Hf. cbn [String.eqb negb].
  change ("POST" =? "POST") with true. cbn [negb].
  pose proof (handlerBody_leaks o req k template imageBuffer Hwr Hun Hget w I)
    as H.
  destruct (handlerBody o req k template w) as [[url|m] w']; cbn.
  - discriminate.
  - intros _. exact H.
Qed.

End FailureLeaks.

(** ** Temporary files *)

Section TemporaryFiles.

Local Open Scope string_scope.

(** A run that succeeds leaves the temp root empty, on both templates,
    with and without text. *)
Example success_cleans_zoom :
  let r := handler bundledHost (collaborators (tickingClock 1700000000000) true true)
             (post (Some "uploads/a.jpg") (Some "zoom-ambient")
                (Some (lit "Mug")) None) idle in
  status (fst r) = 200%Z /\ files (snd r) = [].
Proof. vm_compute. split; reflexivity. Qed.

Example success_cleans_slide :
  let r := handler bundledHost (collaborators (tickingClock 1700000000000) true true)
             (post (Some "uploads/a.jpg") (Some "slide-funky")
                (Some (lit "Mug")) None) idle in
  status (fst r) = 200%Z /\ files (snd r) = [].
Proof. vm_compute. split; reflexivity. Qed.

(** C4 fails on the failure paths. When the encoder ends with an error
    on the zoom template, the handler answers 500 and the input image,
    the frames directory and its 150 frames are still there; on the
    slide template the input image and the composite are still there;
    when the upload fails, the input image and the output video are
    still there. *)
Theorem failed_run_leaves_temp_files :
  let encoderFails := collaborators (tickingClock 1700000000000) false true in
  let uploadFails := collaborators (tickingClock 1700000000000) true false in
  let zoomRun :=
    handler bundledHost encoderFails
      (post (Some "uploads/a.jpg") (Some "zoom-ambient") None None) idle in
  let slideRun :=
    handler bundledHost encoderFails
      (post (Some "uploads/a.jpg") (Some "slide-funky") (Some (lit "Mug")) None)
      idle in
  let uploadRun :=
    handler bundledHost uploadFails
      (post (Some "uploads/a.jpg") (Some "zoom-ambient") None None) idle in
  (status (fst zoomRun) = 500%Z
   /\ In "/tmp/input-1700000000000.jpg" (files (snd zoomRun))
   /\ In "/tmp/frames-1700000000002" (files (snd zoomRun))
   /\ In "/tmp/frames-1700000000002/frame-0149.png" (files (snd zoomRun))
   /\ List.length (files (snd zoomRun)) = 152%nat)
  /\ (status (fst slideRun) = 500%Z
      /\ files (snd slideRun)
         = ["/tmp/input-1700000000000.jpg"; "/tmp/slide-input-1700000000002.png"])
  /\ (status (fst uploadRun) = 500%Z
      /\ files (snd uploadRun)
         = ["/tmp/input-1700000000000.jpg"; "/tmp/output-1700000000001.mp4"]).
Proof.
  vm_compute.
  repeat split; try reflexivity.
  - left. reflexivity.
  - right. left. reflexivity.
  - do 151 right. left. reflexivity.
Qed.

(** The catch block removes nothing: whatever goes wrong after the input
    image is written, it is still there when the handler returns. Here:
    the image library cannot read the downloaded bytes. *)
Example unreadable_image_leaves_input :
  let o := mkOracle "/tmp" "/app" (tickingClock 1700000000000)
             (fun _ => Some [0; 1; 2]%N) None (fun _ => None) (fun _ => true)
             true true (fun key => Some key) Doubles.roundedCos
             (fun _ => false) in
  let r := handler bundledHost o
             (post (Some "uploads/a.txt") (Some "zoom-ambient") None None) idle in
  status (fst r) = 500%Z
  /\ files (snd r) = ["/tmp/input-1700000000000.jpg"; "/tmp/frames-1700000000002"].
Proof. vm_compute. split; reflexivity. Qed.

End TemporaryFiles.

(* ================================================================== *)
(** * Further properties of the handler *)

Import Runs.

Section HoareRules.

Local Open Scope string_scope.

Lemma hoare_conseq {A} (P P' : World -> Prop) (c : M A)
    (Q Q' : A -> World -> Prop) (E E' : World -> Prop) :
  hoare P c Q E ->
  (forall w, P' w -> P w) ->
  (forall a w, Q a w -> Q' a w) ->
  (forall w, E w -> E' w) ->
  hoare P' c Q' E'.
Proof.
  intros Hc HP HQ HE w Hw. specialize (Hc w (HP _ Hw)).
  destruct (c w) as [[a|m] w']; auto.
Qed.

Lemma hoare_ret {A} (P : World -> Prop) (a : A) (Q : A -> World -> Prop)
    (E : World -> Prop) :
  (forall w, P w -> Q a w) -> hoare P (ret a) Q E.
Proof. intros H w Hw. cbn. auto. Qed.

Lemma hoare_throw {A} (P : World -> Prop) (m : string)
    (Q : A -> World -> Prop) (E : World -> Prop) :
  (forall w, P w -> E w) -> hoare P (throw m) Q E.
Proof. intros H w Hw. cbn. auto. Qed.

Lemma hoare_bind {A B} (P : World -> Prop) (c : M A) (k : A -> M B)
    (Q : A -> World -> Prop) (Q' : B -> World -> Prop) (E : World -> Prop) :
  hoare P c Q E -> (forall a, hoare (Q a) (k a) Q' E) ->
  hoare P (bind c k) Q' E.
Proof.
  intros Hc Hk w Hw. unfold bind. specialize (Hc w Hw).
  destruct (c w) as [[a|m] w']; [now apply Hk | exact Hc].
Qed.

Lemma hoare_tryCatch {A} (P : World -> Prop) (c : M A) (h : string -> M A)
    (Q : A -> World -> Prop) (E' E : World -> Prop) :
  hoare P c Q E' -> (forall m, hoare E' (h m) Q E) ->
  hoare P (tryCatch c h) Q E.
Proof.
  intros Hc Hh w Hw. unfold tryCatch. specialize (Hc w Hw).
  destruct (c w) as [[a|m] w']; [exact Hc | now apply Hh].
Qed.

(** From an unreachable point anything follows. *)
Lemma hoare_unreachable {A} (c : M A) (Q : A -> World -> Prop)
    (E : World -> Prop) :
  hoare (fun _ => False) c Q E.
Proof. intros w []. Qed.

Lemma hoare_emit (P : World -> Prop) (e : Event) (Q : unit -> World -> Prop)
    (E : World -> Prop) :
  (forall w, P w -> Q tt (mkWorld (files w) (log w ++ [e]) (ticks w))) ->
  hoare P (emit e) Q E.
Proof. intros H w Hw. cbn. auto. Qed.

Lemma hoare_dateNow (P : World -> Prop) (o : Oracle) (Q : Z -> World -> Prop)
    (E : World -> Prop) :
  (forall w, P w ->
     Q (now o (ticks w)) (mkWorld (files w) (log w) (S (ticks w)))) ->
  hoare P (dateNow o) Q E.
Proof. intros H w Hw. cbn. auto. Qed.

Lemma hoare_orThrow {A} (P : World -> Prop) (r : option A) (m : string)
    (Q : A -> World -> Prop) (E : World -> Prop) :
  (forall a w, r = Some a -> P w -> Q a w) ->
  (forall w, r = None -> P w -> E w) ->
  hoare P (orThrow r m) Q E.
Proof.
  intros HQ HE w Hw. destruct r as [a|]; cbn; [now apply HQ | now apply HE].
Qed.

Lemma hoare_forEach {A} (I : World -> Prop) (xs : list A) (body : A -> M unit)
    (E : World -> Prop) :
  (forall x, In x xs -> hoare I (body x) (fun _ => I) E) ->
  hoare I (forEach xs body) (fun _ => I) E.
Proof.
  induction xs as [|x xs IH]; intros Hb; cbn [forEach].
  - now apply hoare_ret.
  - eapply hoare_bind; [apply Hb; now left|].
    intros u. apply IH. intros y Hy. apply Hb. now right.
Qed.

(** A loop with a failing element never ends normally. *)
Lemma hoare_forEach_fails {A} (I : World -> Prop) (xs : list A)
    (body : A -> M unit) (E : World -> Prop) (bad : A) :
  In bad xs ->
  (forall x, In x xs -> hoare I (body x) (fun _ => I) E) ->
  hoare I (body bad) (fun _ _ => False) E ->
  hoare I (forEach xs body) (fun _ _ => False) E.
Proof.
  induction xs as [|x xs IH]; intros Hin Hb Hbad; [destruct Hin|].
  cbn [forEach]. destruct Hin as [->|Hin].
  - eapply hoare_bind; [exact Hbad|]. intros u. apply hoare_unreachable.
  - eapply hoare_bind; [apply Hb; now left|].
    intros u. apply IH; [exact Hin | | exact Hbad].
    intros y Hy. apply Hb. now right.
Qed.

End HoareRules.

(** ** More on the zoom factor *)

Section ZoomFactorBounds.

Open Scope R_scope.








End ZoomFactorBounds.

(** ** The font size floor *)

Section FontFloor.

(** X4: the overlay font is never smaller than 28, grows with the image,
    and is exactly 28 as long as the measured side is below 684. *)
Theorem font_size_floor (w w' : Z) :
  (28 <= fontSizeSlide w)%Z
  /\ (fontSizeSlide w = 28 <-> w <= 683)%Z
  /\ (w <= w' -> fontSizeSlide w <= fontSizeSlide w')%Z
  /\ (forall sw sh, fontSizeZoom sw sh = fontSizeSlide (Z.min sw sh)).
Proof.
  unfold fontSizeSlide, fontSizeZoom, roundDiv.
  assert (Hiff : forall n, ((2 * n + 24) / (2 * 24) <= 28 <-> n <= 683)%Z).
  { intros n. change (2 * 24)%Z with 48%Z.
    pose proof (Z.div_mod (2 * n + 24) 48 ltac:(lia)).
    pose proof (Z.mod_pos_bound (2 * n + 24) 48 ltac:(lia)). lia. }
  split; [lia|]. split; [|split].
  - rewrite <- Hiff. lia.
  - intros Hle.
    assert ((2 * w + 24) / (2 * 24) <= (2 * w' + 24) / (2 * 24))%Z
      by (apply Z.div_le_mono; lia).
    lia.
  - reflexivity.
Qed.

Lemma font_size_floor_witness :
  (fontSizeSlide 600 <= fontSizeSlide 1920)%Z.
Proof. apply (font_size_floor 600 1920). lia. Defined.

End FontFloor.

(** ** Locating the encoder *)

Section ResolveFfmpeg.

Local Open Scope string_scope.

Lemma truthy_some (s : option string) (p : string) :
  truthy s = Some p <-> s = Some p /\ p <> "".
Proof.
  unfold truthy. destruct s as [q|]; [|split; [discriminate | intros [H _]; discriminate]].
  destruct (String.eqb_spec q "") as [->|Hne]; split.
  - discriminate.
  - intros [H Hp]. injection H as <-. now contradiction Hp.
  - intros H. injection H as <-. now split.
  - intros [H _]. exact H.
Qed.

(** X5: a path the resolution yields is never empty, and it is either the
    override or the bundled path, found on disk, or what the PATH search
    returned. *)
Theorem resolveFfmpeg_sound (h : Host) (p : string) :
  resolveFfmpeg h = Some p ->
  p <> ""
  /\ ((existsSync h p = true
       /\ (FFMPEG_PATH h = Some p
           \/ (truthy (FFMPEG_PATH h) = None /\ ffmpegStatic h = Some p)))
      \/ whichSync h = Some p).
Proof.
  unfold resolveFfmpeg.
  destruct (truthy (FFMPEG_PATH h)) as [e|] eqn:He.
  - destruct (existsSync h e) eqn:Hx.
    + intros H. injection H as <-. apply truthy_some in He. destruct He as [He Hne].
      split; [exact Hne|]. left. split; [exact Hx | now left].
    + intros H. apply truthy_some in H. destruct H as [H Hne].
      split; [exact Hne | now right].
  - destruct (truthy (ffmpegStatic h)) as [s|] eqn:Hs.
    + destruct (existsSync h s) eqn:Hx.
      * intros H. injection H as <-. apply truthy_some in Hs.
        destruct Hs as [Hs Hne]. split; [exact Hne|]. left.
        split; [exact Hx | right; now split].
      * intros H. apply truthy_some in H. destruct H as [H Hne].
        split; [exact Hne | now right].
    + intros H. apply truthy_some in H. destruct H as [H Hne].
      split; [exact Hne | now right].
Qed.

Lemma resolveFfmpeg_sound_witness :
  "/app/node_modules/ffmpeg-static/ffmpeg" <> "".
Proof.
  apply (resolveFfmpeg_sound bundledHost "/app/node_modules/ffmpeg-static/ffmpeg").
  reflexivity.
Defined.

(** X6: an override that is set and found on disk wins over everything;
    an override that is set but not found makes the resolution skip the
    bundled binary, present or not, and go to the PATH search. *)
Theorem resolveFfmpeg_override (h : Host) (p : string) :
  FFMPEG_PATH h = Some p -> p <> "" ->
  (existsSync h p = true -> resolveFfmpeg h = Some p)
  /\ (existsSync h p = false -> resolveFfmpeg h = truthy (whichSync h)).
Proof.
  intros He Hne. unfold resolveFfmpeg.
  assert (Ht : truthy (FFMPEG_PATH h) = Some p) by (apply truthy_some; now split).
  rewrite Ht. split; intros ->; reflexivity.
Qed.

Lemma resolveFfmpeg_override_witness :
  resolveFfmpeg
    (mkHost (Some "/opt/ffmpeg") (Some "/app/node_modules/ffmpeg-static/ffmpeg")
       (fun q => q =? "/app/node_modules/ffmpeg-static/ffmpeg") None)
  = None.
Proof.
  apply (resolveFfmpeg_override
           (mkHost (Some "/opt/ffmpeg")
              (Some "/app/node_modules/ffmpeg-static/ffmpeg")
              (fun q => q =? "/app/node_modules/ffmpeg-static/ffmpeg") None)
           "/opt/ffmpeg"); [reflexivity | discriminate | reflexivity].
Defined.

End ResolveFfmpeg.

(** ** The template registry *)

Section Registry.

Local Open Scope string_scope.

(** X7: looking up the id of a registered template returns that
    template, and a lookup that succeeds returns a registered template
    with the id asked for; the ids are the two of the registry. *)
Theorem getTemplateById_lookup (i : string) (t : Template) :
  (In t templates -> getTemplateById (id t) = Some t)
  /\ (getTemplateById i = Some t -> In t templates /\ id t = i)
  /\ (getTemplateById i = None <-> i <> "zoom-ambient" /\ i <> "slide-funky").
Proof.
  split; [|split].
  - intros [<-|[<-|[]]]; reflexivity.
  - unfold getTemplateById. intros H. apply find_some in H.
    destruct H as [Hin Heq]. apply String.eqb_eq in Heq. now split.
  - unfold getTemplateById, templates. cbn [find id].
    destruct (String.eqb_spec "zoom-ambient" i) as [<-|H1].
    + split; [discriminate | intros [H _]; now contradiction H].
    + destruct (String.eqb_spec "slide-funky" i) as [<-|H2].
      * split; [discriminate | intros [_ H]; now contradiction H].
      * split; [intros _; split; congruence | reflexivity].
Qed.

Lemma getTemplateById_lookup_witness :
  getTemplateById "slide-funky"
  = Some (mkTemplate "slide-funky" "Funky Slide" slide "/musics/funky.mp3" 6).
Proof.
  apply (getTemplateById_lookup "slide-funky"
           (mkTemplate "slide-funky" "Funky Slide" slide "/musics/funky.mp3" 6)).
  right. left. reflexivity.
Defined.

End Registry.

(** ** The temp paths of one run *)

Section OwnPaths.

Local Open Scope string_scope.

(** X8: the four temp paths of a run are pairwise different whatever the
    clock reads, also when every reading is the same millisecond. *)
Theorem own_paths_distinct (d : string) (t0 t1 t2 t3 : Z) :
  let input := inputImagePathAt d t0 in
  let output := outputVideoPathAt d t1 in
  let frames := framesDirAt d t2 in
  let slide := withTextPathAt d t3 in
  input <> output /\ input <> frames /\ input <> slide
  /\ output <> frames /\ output <> slide /\ frames <> slide.
Proof.
  cbn zeta.
  rewrite inputImagePathAt_eq, outputVideoPathAt_eq, framesDirAt_eq,
    withTextPathAt_eq.
  repeat split; intros H; apply append_cancel_l in H; discriminate H.
Qed.

End OwnPaths.

(** ** What a run does and does not do *)

Section RunOutcomes.

Local Open Scope string_scope.

(** An invariant of the log, kept whatever the outcome, is a triple. *)
Lemma hoare_of_keeps {A} (P : Event -> Prop) (c : M A) :
  keeps P c ->
  hoare (fun w => Forall P (log w)) c
    (fun _ w => Forall P (log w)) (fun w => Forall P (log w)).
Proof.
  intros Hk w Hw. specialize (Hk w Hw).
  destruct (c w) as [[a|m] w']; exact Hk.
Qed.

(** A fact that does not depend on the world survives any computation. *)
Lemma hoare_fact {A} (F : Prop) (c : M A) :
  hoare (fun _ => F) c (fun _ _ => F) (fun _ => True).
Proof. intros w Hw. destruct (c w) as [[a|m] w']; auto. Qed.

Lemma handler_accepted (h : Host) (o : Oracle) (req : Request) (w : World)
    (k : string) (template : Template) :
  accepted h req k template ->
  handler h o req w
  = match handlerBody o req k template w with
    | (Return videoUrl, w') => (mkResponse 200 (VideoBody videoUrl), w')
    | (Throw message, w') =>
        (mkResponse 500
           (ErrorBody (if message =? "" then "Video generation failed"
                       else message)), w')
    end.
Proof.
  intros (Hm & Hk & (t & Ht & Hg) & Hf). unfold handler.
  rewrite Hm, Hk, Ht, Hg. change ("POST" =? "POST") with true. cbn [negb].
  destruct (resolveFfmpeg h); [reflexivity | now contradiction Hf].
Qed.

(** X9: when the download fails, the handler answers 500 having called
    the storage once and nothing else: no file is written, the clock is
    not read, the encoder is not run. *)
Theorem storage_get_failure_stops_run (h : Host) (o : Oracle) (req : Request)
    (w : World) (k : string) (template : Template) :
  accepted h req k template ->
  getObject o k = None ->
  status (fst (handler h o req w)) = 500%Z
  /\ files (snd (handler h o req w)) = files w
  /\ log (snd (handler h o req w)) = (log w ++ [StorageGet k])%list
  /\ ticks (snd (handler h o req w)) = ticks w.
Proof.
  intros Hacc Hget. rewrite (handler_accepted h o req w k template Hacc).
  unfold handlerBody, bind, emit. rewrite Hget. cbn. auto.
Qed.

Lemma storage_get_failure_stops_run_witness :
  let o := mkOracle "/tmp" "/app" (tickingClock 1700000000000)
             (fun _ => None) None (fun _ => None) (fun _ => true) true true
             (fun key => Some key) Doubles.roundedCos (fun _ => false) in
  log (snd (handler bundledHost o
              (post (Some "uploads/gone.jpg") (Some "zoom-ambient") None None)
              idle))
  = [StorageGet "uploads/gone.jpg"].
Proof.
  intros o.
  apply (storage_get_failure_stops_run bundledHost o
           (post (Some "uploads/gone.jpg") (Some "zoom-ambient") None None)
           idle "uploads/gone.jpg"
           (mkTemplate "zoom-ambient" "Ambient Zoom" zoom "/musics/ambient.mp3" 6)).
  - repeat split; try reflexivity.
    + exists "zoom-ambient". split; reflexivity.
    + discriminate.
  - reflexivity.
Defined.

Lemma runEncoder_fails (P : Event -> Prop) (o : Oracle) (job : EncodeJob) :
  encode o = false -> P (EncoderRun job) ->
  hoare (fun w => Forall P (log w)) (runEncoder o job)
    (fun _ _ => False) (fun w => Forall P (log w)).
Proof.
  intros Henc HP w Hw. unfold runEncoder, bind, emit. rewrite Henc. cbn.
  apply Forall_app. split; [exact Hw | now constructor].
Qed.

Ltac keep_step x :=
  eapply hoare_bind;
  [ apply hoare_of_keeps; repeat keeps_step; try exact I | intros x ].

Lemma handlerBody_encoder_fails (o : Oracle) (req : Request) (k : string)
    (template : Template) :
  encode o = false ->
  hoare (fun w => Forall (fun e => isStoragePut e = false) (log w))
    (handlerBody o req k template)
    (fun _ _ => False)
    (fun w => Forall (fun e => isStoragePut e = false) (log w)).
Proof.
  intros Henc. unfold handlerBody.
  keep_step u; [reflexivity|]. keep_step imageBuffer.
  keep_step t0. keep_step t1. keep_step u1; [reflexivity|].
  keep_step u2; [reflexivity|].
  eapply hoare_bind; [|intros u3; apply hoare_unreachable].
  destruct (style template); [unfold zoomBranch | unfold slideBranch].
  - keep_step t. keep_step u3; [reflexivity|]. keep_step u4; [reflexivity|].
    keep_step md. keep_step u5; [reflexivity|].
    eapply hoare_bind; [|intros u6; apply hoare_unreachable].
    now apply runEncoder_fails.
  - keep_step slideInput; [reflexivity..|].
    eapply hoare_bind; [|intros u6; apply hoare_unreachable].
    now apply runEncoder_fails.
Qed.

(** X10: when the encoder ends with an error the handler never answers
    200 and never calls the storage to upload anything. *)
Theorem encoder_failure_is_fatal (h : Host) (o : Oracle) (req : Request) :
  encode o = false ->
  status (fst (handler h o req idle)) <> 200%Z
  /\ existsb isStoragePut (log (snd (handler h o req idle))) = false.
Proof.
  intros Henc. unfold handler.
  destruct (negb _); [now split|].
  destruct (truthy (imageKey req)) as [k|]; [|now split].
  destruct (truthy (templateId req)) as [t|]; [|now split].
  destruct (getTemplateById t) as [template|]; [|now split].
  destruct (resolveFfmpeg h); [|now split].
  pose proof (handlerBody_encoder_fails o req k template Henc idle
                (Forall_nil _)) as H.
  destruct (handlerBody o req k template idle) as [[url|m] w']; [destruct H|].
  cbn. split; [discriminate|].
  apply not_true_is_false. intros Hex. apply existsb_exists in Hex.
  destruct Hex as (e & Hin & He).
  rewrite Forall_forall in H. specialize (H e Hin). congruence.
Qed.

Lemma encoder_failure_is_fatal_witness :
  status (fst (handler bundledHost
                 (collaborators (tickingClock 1700000000000) false true)
                 (post (Some "uploads/a.jpg") (Some "slide-funky") None None)
                 idle)) <> 200%Z.
Proof.
  apply (encoder_failure_is_fatal bundledHost
           (collaborators (tickingClock 1700000000000) false true)
           (post (Some "uploads/a.jpg") (Some "slide-funky") None None)).
  reflexivity.
Defined.

End RunOutcomes.

Section RunOutcomes2.

Local Open Scope string_scope.

Ltac keep_step x :=
  eapply hoare_bind;
  [ apply hoare_of_keeps; repeat keeps_step; try exact I | intros x ].

Lemma zoomBranch_frame_fails (o : Oracle) (imageBuffer : Buffer)
    (tmpDir outputVideoPath : string) (audio : AudioSource)
    (template : Template) (productName : option jsstring) (showText : bool)
    (frames i : Z) :
  (0 <= i < frames)%Z -> renderFrame o i = false ->
  hoare (fun w => Forall (fun e => isEncoderRun e = false) (log w))
    (zoomBranch o imageBuffer tmpDir outputVideoPath audio template
       productName showText frames)
    (fun _ _ => False)
    (fun w => Forall (fun e => isEncoderRun e = false) (log w)).
Proof.
  intros Hi Hbad. unfold zoomBranch.
  keep_step t. keep_step u1; [reflexivity|]. keep_step u2; [reflexivity|].
  keep_step md.
  eapply hoare_bind; [|intros u3; apply hoare_unreachable].
  apply hoare_forEach_fails with (bad := i).
  - unfold frameIndices. apply in_map_iff. exists (Z.to_nat i).
    split; [lia|]. apply in_seq. lia.
  - intros x _. apply hoare_of_keeps. repeat keeps_step; reflexivity.
  - rewrite Hbad.
    eapply hoare_bind; [|intros u3; apply hoare_throw; intros w Hw; exact Hw].
    apply hoare_of_keeps. apply keeps_emit. reflexivity.
Qed.

(** X11: on a zoom template, when a single frame fails to render the
    encoder is never run and the handler does not answer 200. *)
Theorem frame_failure_skips_encoder (h : Host) (o : Oracle) (req : Request)
    (k : string) (template : Template) (i : Z) :
  accepted h req k template ->
  style template = zoom ->
  (0 <= i < durationSeconds template * fps)%Z ->
  renderFrame o i = false ->
  status (fst (handler h o req idle)) = 500%Z
  /\ existsb isEncoderRun (log (snd (handler h o req idle))) = false.
Proof.
  intros Hacc Hzoom Hi Hbad.
  rewrite (handler_accepted h o req idle k template Hacc).
  assert (H : hoare (fun w => Forall (fun e => isEncoderRun e = false) (log w))
                (handlerBody o req k template) (fun _ _ => False)
                (fun w => Forall (fun e => isEncoderRun e = false) (log w))).
  { unfold handlerBody. rewrite Hzoom.
    keep_step u; [reflexivity|]. keep_step imageBuffer.
    keep_step t0. keep_step t1. keep_step u1; [reflexivity|].
    keep_step u2; [reflexivity|].
    eapply hoare_bind; [|intros u3; apply hoare_unreachable].
    now apply zoomBranch_frame_fails with (i := i). }
  specialize (H idle (Forall_nil _)).
  destruct (handlerBody o req k template idle) as [[url|m] w']; [destruct H|].
  cbn. split; [reflexivity|].
  apply not_true_is_false. intros Hex. apply existsb_exists in Hex.
  destruct Hex as (e & Hin & He).
  rewrite Forall_forall in H. specialize (H e Hin). congruence.
Qed.

Lemma frame_failure_skips_encoder_witness :
  let o := mkOracle "/tmp" "/app" (tickingClock 1700000000000)
             (fun _ => Some [255; 216; 255]%N) (Some 4096%Z)
             (fun _ => Some (mkMetadata (Some 1920%Z) (Some 1080%Z)))
             (fun i => negb (i =? 149)%Z) true true (fun key => Some key)
             Doubles.roundedCos (fun _ => false) in
  existsb isEncoderRun
    (log (snd (handler bundledHost o
                 (post (Some "uploads/a.jpg") (Some "zoom-ambient") None None)
                 idle))) = false.
Proof.
  intros o.
  apply (frame_failure_skips_encoder bundledHost o
           (post (Some "uploads/a.jpg") (Some "zoom-ambient") None None)
           "uploads/a.jpg"
           (mkTemplate "zoom-ambient" "Ambient Zoom" zoom "/musics/ambient.mp3" 6)
           149).
  - repeat split; try reflexivity.
    + exists "zoom-ambient". split; reflexivity.
    + discriminate.
  - reflexivity.
  - cbn. lia.
  - reflexivity.
Defined.

Lemma runEncoder_returns (F : Prop) (o : Oracle) (job : EncodeJob) :
  hoare (fun _ => F) (runEncoder o job)
    (fun _ _ => F /\ encode o = true) (fun _ => True).
Proof.
  intros w Hw. unfold runEncoder, bind, emit.
  destruct (encode o); cbn; auto.
Qed.

Ltac fact_step x :=
  eapply hoare_bind; [apply hoare_fact | intros x].

Lemma handlerBody_success (o : Oracle) (req : Request) (k : string)
    (template : Template) :
  hoare (fun _ => True) (handlerBody o req k template)
    (fun videoUrl _ =>
       (exists imageBuffer, getObject o k = Some imageBuffer)
       /\ encode o = true
       /\ exists t t1,
            upload o ("videos/" ++ decimal t ++ "-"
                      ++ basename (outputVideoPathAt (tmpdir o) t1) ++ ".mp4")
            = Some videoUrl)
    (fun _ => True).
Proof.
  unfold handlerBody.
  fact_step u.
  eapply hoare_bind with
    (Q := fun _ _ => exists imageBuffer, getObject o k = Some imageBuffer).
  { apply hoare_orThrow; [|trivial]. intros b w Hb _. now exists b. }
  intros imageBuffer. set (G := exists b, getObject o k = Some b).
  fact_step t0. fact_step t1. fact_step u1. fact_step u2.
  eapply hoare_bind with (Q := fun _ _ => G /\ encode o = true).
  { destruct (style template); [unfold zoomBranch | unfold slideBranch].
    - fact_step t. fact_step u3. fact_step u4. fact_step md. fact_step u5.
      eapply hoare_bind; [apply runEncoder_returns|]. intros u6.
      apply (hoare_fact (G /\ encode o = true)).
    - fact_step slideInput.
      eapply hoare_bind; [apply runEncoder_returns|]. intros u6.
      apply (hoare_fact (G /\ encode o = true)). }
  intros u3. fact_step u4.
  eapply hoare_bind with (Q := fun _ _ => G /\ encode o = true);
    [apply hoare_dateNow; auto|].
  intros t. fact_step u5.
  eapply hoare_bind with
    (Q := fun videoUrl _ =>
            (G /\ encode o = true)
            /\ upload o ("videos/" ++ decimal t ++ "-"
                         ++ basename (outputVideoPathAt (tmpdir o) t1) ++ ".mp4")
               = Some videoUrl).
  { apply hoare_orThrow; [|trivial]. intros url w Hu Hw. now split. }
  intros videoUrl. fact_step u6. fact_step u7.
  apply hoare_ret. intros w [[HG He] Hu].
  split; [exact HG|]. split; [exact He|]. now exists t, t1.
Qed.

(** X12: the handler answers 200 only with a video body, and only when
    the download and the encoder succeeded and the storage returned that
    very URL for a key [videos/<ms>-<output file name>.mp4]. *)
Theorem success_means_all_succeeded (h : Host) (o : Oracle) (req : Request)
    (w : World) :
  status (fst (handler h o req w)) = 200%Z ->
  exists videoUrl k,
    body (fst (handler h o req w)) = VideoBody videoUrl
    /\ truthy (imageKey req) = Some k
    /\ getObject o k <> None
    /\ encode o = true
    /\ resolveFfmpeg h <> None
    /\ exists t t1,
         upload o ("videos/" ++ decimal t ++ "-"
                   ++ basename (outputVideoPathAt (tmpdir o) t1) ++ ".mp4")
         = Some videoUrl.
Proof.
  unfold handler.
  destruct (negb _); [discriminate|].
  destruct (truthy (imageKey req)) as [k|]; [|discriminate].
  destruct (truthy (templateId req)) as [t|]; [|discriminate].
  destruct (getTemplateById t) as [template|]; [|discriminate].
  destruct (resolveFfmpeg h) as [p|]; [|discriminate].
  pose proof (handlerBody_success o req k template w I) as H.
  destruct (handlerBody o req k template w) as [[url|m] w']; cbn; [|discriminate].
  intros _. destruct H as ((b & Hb) & He & Hu).
  exists url, k. repeat split; try assumption; try congruence; discriminate.
Qed.

Lemma success_means_all_succeeded_witness :
  exists videoUrl k,
    body (fst (handler bundledHost
                 (collaborators (tickingClock 1700000000000) true true)
                 (post (Some "uploads/a.jpg") (Some "slide-funky") None None)
                 idle)) = VideoBody videoUrl
    /\ k = "uploads/a.jpg".
Proof.
  destruct (success_means_all_succeeded bundledHost
              (collaborators (tickingClock 1700000000000) true true)
              (post (Some "uploads/a.jpg") (Some "slide-funky") None None)
              idle eq_refl) as (url & k & Hb & Hk & _).
  exists url, k. split; [exact Hb|]. cbn in Hk. now injection Hk as <-.
Defined.

End RunOutcomes2.

Section EncodeJobs.

Local Open Scope string_scope.

Lemma audioFor_cases (o : Oracle) (music : string) :
  let audio :=
    audioFor match musicSize o with
             | Some size => (1024 <? size)%Z
             | None => false
             end music in
  (audio = AudioFile music
   <-> exists size, musicSize o = Some size /\ (1024 < size)%Z)
  /\ (audio = Silence
      <-> forall size, musicSize o = Some size -> (size <= 1024)%Z).
Proof.
  cbn zeta. unfold audioFor. destruct (musicSize o) as [size|].
  - destruct (Z.ltb_spec 1024 size) as [Hlt|Hge]; (split; split); intros H;
      try reflexivity; try discriminate.
    + now exists size.
    + specialize (H size eq_refl). lia.
    + destruct H as (s & Hs & Hlt). injection Hs as <-. lia.
    + intros s Hs. injection Hs as <-. lia.
  - (split; split); intros H; try reflexivity; try discriminate.
    destruct H as (s & Hs & _). discriminate.
Qed.

(** The invariant of the log together with the number of clock
    readings. *)
Lemma hoare_emit_at (P : Event -> Prop) (n : nat) (e : Event) :
  P e ->
  hoare (fun w => Forall P (log w) /\ ticks w = n) (emit e)
    (fun _ w => Forall P (log w) /\ ticks w = n)
    (fun w => Forall P (log w)).
Proof.
  intros He. apply hoare_emit. intros w [Hw Ht]. split; [|exact Ht].
  cbn. apply Forall_app. split; [exact Hw | now constructor].
Qed.

Lemma hoare_create_at (P : Event -> Prop) (n : nat) (o : Oracle) (e : Event)
    (p : string) :
  P e ->
  hoare (fun w => Forall P (log w) /\ ticks w = n) (fsCall o e (create p))
    (fun _ w => Forall P (log w) /\ ticks w = n)
    (fun w => Forall P (log w)).
Proof.
  intros He w [Hw Ht]. unfold fsCall, bind, emit, throw, create.
  assert (Forall P (log w ++ [e]))
    by (apply Forall_app; split; [exact Hw | now constructor]).
  destruct (fsRefuses o e); cbn; [assumption | now split].
Qed.

Lemma hoare_now_at (P : Event -> Prop) (n : nat) (o : Oracle) :
  hoare (fun w => Forall P (log w) /\ ticks w = n) (dateNow o)
    (fun t w => t = now o n /\ Forall P (log w) /\ ticks w = S n)
    (fun w => Forall P (log w)).
Proof. apply hoare_dateNow. intros w [Hw Ht]. cbn. rewrite Ht. auto. Qed.

Lemma hoare_pure {A} (F : Prop) (P : World -> Prop) (c : M A)
    (Q : A -> World -> Prop) (E : World -> Prop) :
  (F -> hoare P c Q E) -> hoare (fun w => F /\ P w) c Q E.
Proof. intros H w [HF Hw]. now apply H. Qed.

Lemma handlerBody_jobs (o : Oracle) (req : Request) (k : string)
    (template : Template) :
  hoare (fun w => Forall (encodeJobOk o template) (log w) /\ ticks w = 0%nat)
    (handlerBody o req k template)
    (fun _ w => Forall (encodeJobOk o template) (log w))
    (fun w => Forall (encodeJobOk o template) (log w)).
Proof.
  set (P := encodeJobOk o template).
  destruct (audioFor_cases o (join [cwd o; "public"; musicFile template]))
    as [Ha Hs].
  unfold handlerBody.
  eapply hoare_bind; [apply hoare_emit_at; exact I|]. intros ?.
  eapply hoare_bind
    with (Q := fun _ w => Forall P (log w) /\ ticks w = 0%nat).
  { apply hoare_orThrow; [intros; assumption | intros w _ [H _]; exact H]. }
  intros imageBuffer.
  eapply hoare_bind; [apply hoare_now_at|]. intros t0.
  apply hoare_pure. intros ->.
  eapply hoare_bind; [apply hoare_now_at|]. intros t1.
  apply hoare_pure. intros ->.
  eapply hoare_bind; [apply hoare_create_at; exact I|]. intros ?.
  eapply hoare_bind; [apply hoare_emit_at; exact I|]. intros ?.
  eapply hoare_bind with (Q := fun _ w => Forall P (log w)).
  2: { intros ?. apply hoare_of_keeps. repeat keeps_step; exact I. }
  destruct (style template) eqn:Hstyle; [unfold zoomBranch | unfold slideBranch].
  - eapply hoare_bind; [apply hoare_now_at|]. intros t.
    apply hoare_pure. intros ->.
    eapply hoare_conseq with (P := fun w => Forall P (log w));
      [apply hoare_of_keeps | intros w [H _]; exact H | auto | auto].
    repeat keeps_step; try exact I.
    cbn. split; [reflexivity|].
    split; [exact Ha|]. split; [exact Hs|].
    split; [reflexivity|]. split; [exact Hstyle|]. split; reflexivity.
  - eapply hoare_conseq with (P := fun w => Forall P (log w));
      [apply hoare_of_keeps | intros w [H _]; exact H | auto | auto].
    repeat keeps_step; try exact I.
    cbn. split; [reflexivity|].
    split; [exact Ha|]. split; [exact Hs|].
    split; [reflexivity|]. split; [exact Hstyle | reflexivity].
Qed.

(** X13: every encoder invocation of a run carries the template's
    duration and writes to the run's output path, the one named after
    the second reading of the clock; it reads the frame pattern of the
    run's frames directory at 25 frames per second (zoom) or a looped
    image under the pan filter (slide); and it takes the music file
    [path.join(process.cwd(), 'public', template.musicFile)] exactly
    when that file exists with more than 1024 bytes: a missing file, or
    one of 1024 bytes or fewer, gives silence. *)
Theorem encoder_jobs_follow_template (h : Host) (o : Oracle) (req : Request)
    (k : string) (template : Template) :
  accepted h req k template ->
  Forall (encodeJobOk o template) (log (snd (handler h o req idle))).
Proof.
  intros Hacc. rewrite (handler_accepted h o req idle k template Hacc).
  pose proof (handlerBody_jobs o req k template idle
                (conj (Forall_nil _) eq_refl)) as Hk.
  destruct (handlerBody o req k template idle) as [[url|m] w']; exact Hk.
Qed.

Lemma encoder_jobs_follow_template_witness :
  Forall (encodeJobOk (collaborators (tickingClock 1700000000000) true true)
            (mkTemplate "slide-funky" "Funky Slide" slide "/musics/funky.mp3" 6))
    (log (snd (handler bundledHost
                 (collaborators (tickingClock 1700000000000) true true)
                 (post (Some "uploads/a.jpg") (Some "slide-funky") None None)
                 idle))).
Proof.
  apply (encoder_jobs_follow_template bundledHost
           (collaborators (tickingClock 1700000000000) true true)
           (post (Some "uploads/a.jpg") (Some "slide-funky") None None)
           "uploads/a.jpg").
  repeat split; try reflexivity.
  - exists "slide-funky". split; reflexivity.
  - discriminate.
Defined.

End EncodeJobs.

(** ** The calls of a successful zoom run *)

Section ZoomTrace.

Local Open Scope string_scope.

Lemma effect_ret {A} (a : A) : effect (ret a) [].
Proof. intros w. cbn. now rewrite app_nil_r. Qed.

Lemma effect_throw {A} (m : string) : effect (@throw A m) [].
Proof. intros w. exact I. Qed.

Lemma effect_emit (e : Event) : effect (emit e) [e].
Proof. intros w. cbn. auto. Qed.

Lemma effect_orThrow {A} (r : option A) (m : string) : effect (orThrow r m) [].
Proof. destruct r; [apply effect_ret | apply effect_throw]. Qed.

Lemma effect_create (p : string) : effect (create p) [].
Proof. intros w. cbn. now rewrite app_nil_r. Qed.

Lemma effect_bind {A B} (c : M A) (k : A -> M B) (l1 l2 : list Event) :
  effect c l1 -> (forall a, effect (k a) l2) -> effect (bind c k) (l1 ++ l2).
Proof.
  intros Hc Hk w. unfold bind. specialize (Hc w).
  destruct (c w) as [[a|m] w']; [|exact I].
  destruct Hc as [Hl Ht]. specialize (Hk a w').
  destruct (k a w') as [[b|m] w'']; [|exact I].
  destruct Hk as [Hl' Ht']. split; [|congruence].
  now rewrite Hl', Hl, app_assoc.
Qed.

Lemma effect_fsCall (o : Oracle) (e : Event) (c : M unit) :
  effect c [] -> effect (fsCall o e c) [e].
Proof.
  intros Hc. unfold fsCall. change [e] with ([e] ++ [])%list.
  apply effect_bind; [apply effect_emit|]. intros _.
  destruct (fsRefuses o e); [apply effect_throw | exact Hc].
Qed.

Lemma effect_writeFileSync (o : Oracle) (p : string) :
  effect (writeFileSync o p) [FsWriteFile p].
Proof. apply effect_fsCall, effect_create. Qed.

Lemma effect_mkdirSync (o : Oracle) (p : string) :
  effect (mkdirSync o p) [FsMkdir p].
Proof. apply effect_fsCall, effect_create. Qed.

Lemma effect_rmSync (o : Oracle) (p : string) : effect (rmSync o p) [FsRm p].
Proof. apply effect_fsCall. intros w. cbn. now rewrite app_nil_r. Qed.

Lemma effect_unlinkSync (o : Oracle) (p : string) :
  effect (unlinkSync o p) [FsUnlink p].
Proof.
  apply effect_fsCall. intros w.
  destruct (fileExists p (files w)); cbn; [now rewrite app_nil_r | exact I].
Qed.

Lemma effect_readFileSync (o : Oracle) (p : string) :
  effect (readFileSync o p) [FsReadFile p].
Proof.
  apply effect_fsCall. intros w.
  destruct (fileExists p (files w)); cbn; [now rewrite app_nil_r | exact I].
Qed.

Lemma effect_runEncoder (o : Oracle) (job : EncodeJob) :
  effect (runEncoder o job) [EncoderRun job].
Proof.
  intros w. unfold runEncoder, bind, emit. destruct (encode o); cbn; auto.
Qed.

Lemma effect_forEach {A} (xs : list A) (body : A -> M unit) (call : A -> Event) :
  (forall x, effect (body x) [call x]) ->
  effect (forEach xs body) (map call xs).
Proof.
  intros Hb. induction xs as [|x xs IH]; cbn [forEach map].
  - apply effect_ret.
  - change (call x :: map call xs) with ([call x] ++ map call xs)%list.
    apply effect_bind; [apply Hb | intros _; exact IH].
Qed.

(** An effect in front of a continuation. *)
Lemma hoare_effect {A B} (c : M A) (k : A -> M B) (l calls : list Event)
    (n : nat) (Q : B -> World -> Prop) :
  effect c l ->
  (forall a, hoare (at_ (calls ++ l) n) (k a) Q (fun _ => True)) ->
  hoare (at_ calls n) (bind c k) Q (fun _ => True).
Proof.
  intros Hc Hk w [Hl Ht]. unfold bind. specialize (Hc w).
  destruct (c w) as [[a|m] w']; [|exact I].
  destruct Hc as [Hl' Ht']. apply Hk. split; congruence.
Qed.

Lemma hoare_now {B} (o : Oracle) (k : Z -> M B) (calls : list Event) (n : nat)
    (Q : B -> World -> Prop) :
  hoare (at_ calls (S n)) (k (now o n)) Q (fun _ => True) ->
  hoare (at_ calls n) (bind (dateNow o) k) Q (fun _ => True).
Proof.
  intros Hk w [Hl Ht]. unfold bind, dateNow. rewrite Ht. apply Hk.
  split; [exact Hl | reflexivity].
Qed.

Lemma hoare_value {A B} (r : option A) (m : string) (k : A -> M B)
    (P : World -> Prop) (Q : B -> World -> Prop) :
  (forall a, r = Some a -> hoare P (k a) Q (fun _ => True)) ->
  hoare P (bind (orThrow r m) k) Q (fun _ => True).
Proof.
  intros Hk w Hw. destruct r as [a|]; [|exact I].
  exact (Hk a eq_refl w Hw).
Qed.

Lemma zoom_frame_effect (o : Oracle) (iw ih frames : Z)
    (productName : option jsstring) (showText : bool) (framesDir : string)
    (i : Z) :
  let g := Doubles.frameGeometry (mathCos o) iw ih frames i in
  let text := escapeXml (trim (assertString productName)) in
  effect
    (emit (ImageRenderFrame g
             (if showText then Some (zoomSvg (scaledW g) (scaledH g) text)
              else None)
             (framePath framesDir i)) ;;
     (if renderFrame o i then create (framePath framesDir i)
      else throw "frame rendering failed"))
    [renderCall (mathCos o) iw ih frames
       (if showText then Some text else None) framesDir i].
Proof.
  intros g text.
  replace (renderCall (mathCos o) iw ih frames
             (if showText then Some text else None) framesDir i)
    with (ImageRenderFrame g
            (if showText then Some (zoomSvg (scaledW g) (scaledH g) text)
             else None)
            (framePath framesDir i))
    by (unfold renderCall; now destruct showText).
  match goal with
  | |- effect _ [?call] => change [call] with ([call] ++ [])%list
  end.
  apply effect_bind; [apply effect_emit|]. intros _.
  destruct (renderFrame o i); [apply effect_create | apply effect_throw].
Qed.

Lemma hoare_assoc {A B C} (P : World -> Prop) (c : M A) (k1 : A -> M B)
    (k2 : B -> M C) (Q : C -> World -> Prop) (E : World -> Prop) :
  hoare P (bind c (fun a => bind (k1 a) k2)) Q E ->
  hoare P (bind (bind c k1) k2) Q E.
Proof.
  intros H w Hw. specialize (H w Hw). unfold bind in *.
  destruct (c w) as [[a|m] w']; exact H.
Qed.

Lemma handlerBody_zoom_trace (o : Oracle) (req : Request) (k : string)
    (template : Template) :
  style template = zoom ->
  hoare (at_ [] 0) (handlerBody o req k template)
    (fun _ w =>
       exists imageBuffer md,
         getObject o k = Some imageBuffer
         /\ metadata o imageBuffer = Some md
         /\ log w = zoomCalls o req k template md
         /\ ticks w = 4%nat)
    (fun _ => True).
Proof.
  intros Hzoom. unfold handlerBody. rewrite Hzoom.
  eapply hoare_effect; [apply effect_emit | intros _].
  apply hoare_value. intros imageBuffer Hget.
  apply hoare_now. apply hoare_now.
  eapply hoare_effect; [apply effect_writeFileSync | intros _].
  eapply hoare_effect; [apply effect_emit | intros _].
  unfold zoomBranch.
  apply hoare_assoc. apply hoare_now.
  apply hoare_assoc. eapply hoare_effect; [apply effect_mkdirSync | intros _].
  apply hoare_assoc. eapply hoare_effect; [apply effect_emit | intros _].
  apply hoare_assoc. apply hoare_value. intros md Hmd.
  apply hoare_assoc.
  eapply hoare_effect;
    [apply effect_forEach; intros i; apply zoom_frame_effect | intros _].
  apply hoare_assoc. eapply hoare_effect; [apply effect_runEncoder | intros _].
  eapply hoare_effect; [apply effect_rmSync | intros _].
  eapply hoare_effect; [apply effect_readFileSync | intros _].
  apply hoare_now.
  eapply hoare_effect; [apply effect_emit | intros _].
  apply hoare_value. intros videoUrl Hurl.
  eapply hoare_effect; [apply effect_unlinkSync | intros _].
  eapply hoare_effect; [apply effect_unlinkSync | intros _].
  apply hoare_ret. intros w [Hl Ht].
  exists imageBuffer, md. split; [exact Hget|]. split; [exact Hmd|].
  split; [|exact Ht]. rewrite Hl. unfold zoomCalls.
  cbn [app]. rewrite <- !app_assoc. reflexivity.
Qed.

(** X14: a zoom run that is answered 200 has made exactly these calls, in
    this order: download, write the input image, stat the music, make
    the frames directory, read the metadata, render the frames 0 to
    N-1 one after the other, run the encoder once on them, remove the
    frames directory, read the output, upload it, remove the input and
    the output; and it has read the clock four times. *)
Theorem zoom_success_trace (h : Host) (o : Oracle) (req : Request) (k : string)
    (template : Template) :
  accepted h req k template ->
  style template = zoom ->
  status (fst (handler h o req idle)) = 200%Z ->
  exists imageBuffer md,
    getObject o k = Some imageBuffer
    /\ metadata o imageBuffer = Some md
    /\ log (snd (handler h o req idle)) = zoomCalls o req k template md
    /\ ticks (snd (handler h o req idle)) = 4%nat.
Proof.
  intros Hacc Hzoom. rewrite (handler_accepted h o req idle k template Hacc).
  pose proof (handlerBody_zoom_trace o req k template Hzoom idle
                (conj eq_refl eq_refl)) as H.
  destruct (handlerBody o req k template idle) as [[url|m] w']; cbn.
  - intros _. exact H.
  - discriminate.
Qed.

Lemma zoom_success_trace_witness :
  List.length
    (log (snd (handler bundledHost
                 (collaborators (tickingClock 1700000000000) true true)
                 (post (Some "uploads/a.jpg") (Some "zoom-ambient") None None)
                 idle))) = 161%nat.
Proof.
  destruct (zoom_success_trace bundledHost
              (collaborators (tickingClock 1700000000000) true true)
              (post (Some "uploads/a.jpg") (Some "zoom-ambient") None None)
              "uploads/a.jpg"
              (mkTemplate "zoom-ambient" "Ambient Zoom" zoom "/musics/ambient.mp3" 6))
    as (b & md & _ & _ & Hlog & _).
  - repeat split; try reflexivity.
    + exists "zoom-ambient". split; reflexivity.
    + discriminate.
  - reflexivity.
  - reflexivity.
  - rewrite Hlog. unfold zoomCalls. rewrite !length_app, length_map.
    reflexivity.
Defined.

End ZoomTrace.

(** ** When a run succeeds *)

Section Progress.

Local Open Scope string_scope.

Lemma rm_framesDir_keeps_output (d : string) (t1 t : Z) :
  negb (outputVideoPathAt d t1 =? framesDirAt d t)
  && negb (String.prefix (framesDirAt d t ++ "/") (outputVideoPathAt d t1)) = true.
Proof.
  rewrite framesDirAt_eq, outputVideoPathAt_eq.
  rewrite eqb_common, string_append_assoc, prefix_common. reflexivity.
Qed.

Lemma output_ne_withText (d : string) (t1 t : Z) :
  outputVideoPathAt d t1 <> withTextPathAt d t.
Proof.
  rewrite outputVideoPathAt_eq, withTextPathAt_eq.
  intros H. apply append_cancel_l in H. discriminate H.
Qed.

Lemma triple_forEach_in {A} (I : list string -> Prop) (xs : list A)
    (body : A -> M unit) (E : list string -> Prop) :
  (forall x, In x xs -> triple I (body x) (fun _ => I) E) ->
  triple I (forEach xs body) (fun _ => I) E.
Proof.
  induction xs as [|x xs IH]; intros Hb; cbn [forEach].
  - now apply triple_ret.
  - eapply triple_bind; [apply Hb; now left|].
    intros u. apply IH. intros y Hy. apply Hb. now right.
Qed.

Lemma triple_bind_ret {A B} (R : list string -> Prop) (a : A) (k : A -> M B)
    (Q : B -> list string -> Prop) (E : list string -> Prop) :
  triple R (k a) Q E -> triple R (bind (ret a) k) Q E.
Proof. intros H w Hw. exact (H w Hw). Qed.

Lemma triple_runEncoder_ok (R : list string -> Prop) (o : Oracle)
    (job : EncodeJob) (Q : unit -> list string -> Prop)
    (E : list string -> Prop) :
  encode o = true ->
  (forall fs, R fs -> Q tt (added (outputPath job) fs)) ->
  triple R (runEncoder o job) Q E.
Proof.
  intros Henc HQ w Hw. unfold runEncoder, bind, emit. rewrite Henc. cbn.
  now apply HQ.
Qed.

Lemma In_filter_ne (p q : string) (fs : list string) :
  In p fs -> p <> q -> In p (filter (fun f => negb (f =? q)) fs).
Proof.
  intros Hin Hne. apply filter_In. split; [exact Hin|].
  now apply negb_true_iff, String.eqb_neq.
Qed.

Lemma zoomBranch_succeeds (o : Oracle) (imageBuffer : Buffer) (tmpDir : string)
    (t0 t1 : Z) (audio : AudioSource) (template : Template)
    (productName : option jsstring) (showText : bool) (frames : Z) :
  let inputImagePath := inputImagePathAt tmpDir t0 in
  let outputVideoPath := outputVideoPathAt tmpDir t1 in
  (forall e, fsRefuses o e = false) ->
  encode o = true ->
  metadata o imageBuffer <> None ->
  (forall i, (0 <= i < frames)%Z -> renderFrame o i = true) ->
  triple (In inputImagePath)
    (zoomBranch o imageBuffer tmpDir outputVideoPath audio template
       productName showText frames)
    (fun _ fs => In inputImagePath fs /\ In outputVideoPath fs)
    (fun _ => False).
Proof.
  intros I O Hfs Henc Hmd Hframes. unfold zoomBranch.
  apply triple_bind_dateNow. intros t.
  apply triple_bind with (Q := fun _ => In I).
  { apply triple_mkdirSync_allowed; [apply Hfs|]. intros fs. apply In_added. }
  intros _. apply triple_bind_emit.
  destruct (metadata o imageBuffer) as [md|]; [|now contradiction Hmd].
  cbn [orThrow]. apply triple_bind_ret.
  apply triple_bind with (Q := fun _ => In I).
  { apply triple_forEach_in. intros i Hi. apply frameIndices_range in Hi.
    apply triple_bind_emit. rewrite (Hframes i Hi).
    intros w Hw. cbn. now apply In_added. }
  intros _.
  apply triple_bind with (Q := fun _ fs => In I fs /\ In O fs).
  { apply triple_runEncoder_ok; [exact Henc|]. intros fs H.
    split; [now apply In_added | apply In_added_self]. }
  intros _. apply triple_rmSync_allowed; [apply Hfs|]. intros fs [HI HO].
  split; apply filter_In; split; try assumption.
  - apply rm_framesDir_keeps_input.
  - apply rm_framesDir_keeps_output.
Qed.

Lemma slideBranch_succeeds (o : Oracle) (imageBuffer : Buffer) (tmpDir : string)
    (t0 t1 : Z) (audio : AudioSource) (template : Template)
    (productName : option jsstring) (showText : bool) :
  let inputImagePath := inputImagePathAt tmpDir t0 in
  let outputVideoPath := outputVideoPathAt tmpDir t1 in
  encode o = true ->
  triple (In inputImagePath)
    (slideBranch o imageBuffer tmpDir inputImagePath outputVideoPath audio
       template productName showText)
    (fun _ fs => In inputImagePath fs /\ In outputVideoPath fs)
    (fun _ => False).
Proof.
  intros I O Henc. unfold slideBranch.
  apply triple_bind
    with (Q := fun slideInput fs =>
                 In I fs
                 /\ (slideInput = I \/ exists t, slideInput = withTextPathAt tmpDir t)).
  { assert (Hplain : forall E,
              triple (In I) (ret I)
                (fun slideInput fs =>
                   In I fs
                   /\ (slideInput = I
                       \/ exists t, slideInput = withTextPathAt tmpDir t)) E).
    { intros E. apply triple_ret. intros fs H. split; [exact H | now left]. }
    destruct showText; [|apply Hplain].
    apply triple_tryCatch with (E' := In I); [|intros _; apply Hplain].
    quiet_step as u by trivial. quiet_step as meta by trivial.
    apply triple_bind_dateNow. intros t. apply triple_bind_emit.
    apply triple_bind with (Q := fun _ => In I).
    { destruct (composite o); [|now apply triple_throw].
      intros w Hw. cbn. now apply In_added. }
    intros _. apply triple_ret. intros fs H. split; [exact H|].
    right. now exists t. }
  intros slideInput.
  apply triple_bind
    with (Q := fun _ fs =>
                 (In I fs /\ In O fs)
                 /\ (slideInput = I \/ exists t, slideInput = withTextPathAt tmpDir t)).
  { apply triple_runEncoder_ok; [exact Henc|]. intros fs [H Hs].
    split; [|exact Hs]. split; [now apply In_added | apply In_added_self]. }
  intros _.
  apply triple_tryCatch with (E' := fun fs => In I fs /\ In O fs);
    [|intros _; now apply triple_ret].
  destruct (String.eqb_spec slideInput I) as [->|Hne]; cbn [negb].
  - apply triple_ret. now intros fs [H _].
  - apply triple_unlinkSync.
    + intros fs [[HI HO] Hs] _. split; apply In_filter_ne; try assumption.
      * congruence.
      * destruct Hs as [->|[t ->]]; [now contradiction Hne|].
        apply output_ne_withText.
    + now intros fs [H _].
Qed.

Lemma handlerBody_succeeds (o : Oracle) (req : Request) (k : string)
    (template : Template) (imageBuffer : Buffer) :
  (forall e, fsRefuses o e = false) ->
  getObject o k = Some imageBuffer ->
  encode o = true ->
  (forall key, upload o key <> None) ->
  (style template = zoom ->
   metadata o imageBuffer <> None
   /\ forall i, (0 <= i < durationSeconds template * fps)%Z ->
                renderFrame o i = true) ->
  triple (fun _ => True) (handlerBody o req k template)
    (fun _ _ => True) (fun _ => False).
Proof.
  intros Hfs Hget Henc Hup Hzoom. unfold handlerBody. rewrite Hget.
  cbn [orThrow].
  apply triple_bind_emit. apply triple_bind_ret.
  apply triple_bind_dateNow. intros t0. apply triple_bind_dateNow. intros t1.
  set (I := inputImagePathAt (tmpdir o) t0).
  set (O := outputVideoPathAt (tmpdir o) t1).
  apply triple_bind with (Q := fun _ => In I).
  { apply triple_writeFileSync_allowed; [apply Hfs|].
    intros fs _. apply In_added_self. }
  intros _. apply triple_bind_emit.
  apply triple_bind with (Q := fun _ fs => In I fs /\ In O fs).
  { destruct (style template).
    - destruct (Hzoom eq_refl) as [Hmd Hframes].
      apply zoomBranch_succeeds; assumption.
    - apply slideBranch_succeeds; assumption. }
  intros _.
  apply triple_bind with (Q := fun _ fs => In I fs /\ In O fs).
  { apply triple_readFileSync_allowed; [apply Hfs|auto|].
    intros fs [_ HO] Hno. apply fileExists_In in HO. congruence. }
  intros _. apply triple_bind_dateNow. intros t. apply triple_bind_emit.
  match goal with
  | |- context [upload o ?key] =>
      destruct (upload o key) as [url|] eqn:Hu; [|now contradiction (Hup key)]
  end.
  cbn [orThrow]. apply triple_bind_ret.
  apply triple_bind with (Q := fun _ => In O).
  { apply triple_unlinkSync_allowed; [apply Hfs| |].
    - intros fs [_ HO] _. apply In_filter_ne; [exact HO | apply input_ne_output].
    - intros fs [HI _] Hno. apply fileExists_In in HI. congruence. }
  intros _.
  apply triple_bind with (Q := fun _ _ => True); [|intros _; now apply triple_ret].
  apply triple_unlinkSync_allowed; [apply Hfs|trivial|].
  intros fs HO Hno. apply fileExists_In in HO. congruence.
Qed.

(** X15: when the file system refuses no call and the download, the
    encoder and the upload succeed, the handler answers 200, from any
    state of the temp root. On the zoom template the image metadata must
    be readable and every frame must render; on the slide template
    nothing more is needed: a text overlay that cannot be composited is
    left out and the run goes on. *)
Theorem all_succeed_means_200 (h : Host) (o : Oracle) (req : Request)
    (w : World) (k : string) (template : Template) (imageBuffer : Buffer) :
  accepted h req k template ->
  (forall e, fsRefuses o e = false) ->
  getObject o k = Some imageBuffer ->
  encode o = true ->
  (forall key, upload o key <> None) ->
  (style template = zoom ->
   metadata o imageBuffer <> None
   /\ forall i, (0 <= i < durationSeconds template * fps)%Z ->
                renderFrame o i = true) ->
  status (fst (handler h o req w)) = 200%Z.
Proof.
  intros Hacc Hfs Hget Henc Hup Hzoom.
  rewrite (handler_accepted h o req w k template Hacc).
  pose proof (handlerBody_succeeds o req k template imageBuffer Hfs Hget Henc
                Hup Hzoom w I) as H.
  destruct (handlerBody o req k template w) as [[url|m] w']; [reflexivity|].
  destruct H.
Qed.

Lemma all_succeed_means_200_witness :
  let o := mkOracle "/tmp" "/app" (sameMillisecond 1700000000000)
             (fun _ => Some [0; 1; 2]%N) None (fun _ => None) (fun _ => false)
             false true (fun key => Some key) Doubles.roundedCos
             (fun _ => false) in
  status (fst (handler bundledHost o
                 (post (Some "uploads/a.bin") (Some "slide-funky")
                    (Some (lit "Mug")) (Some true))
                 idle)) = 200%Z.
Proof.
  intros o.
  apply (all_succeed_means_200 bundledHost o
           (post (Some "uploads/a.bin") (Some "slide-funky")
              (Some (lit "Mug")) (Some true))
           idle "uploads/a.bin"
           (mkTemplate "slide-funky" "Funky Slide" slide "/musics/funky.mp3" 6)
           [0; 1; 2]%N).
  - repeat split; try reflexivity.
    + exists "slide-funky". split; reflexivity.
    + discriminate.
  - reflexivity.
  - reflexivity.
  - reflexivity.
  - intros key. discriminate.
  - intros H. discriminate H.
Defined.

End Progress.

(** ** The calls of a successful slide run *)

Section SlideTrace.

Local Open Scope string_scope.

Lemma input_ne_withText (d : string) (t0 t : Z) :
  (withTextPathAt d t =? inputImagePathAt d t0) = false.
Proof.
  apply String.eqb_neq. rewrite inputImagePathAt_eq, withTextPathAt_eq.
  intros H. apply append_cancel_l in H. discriminate H.
Qed.

(** The overlay step in front of a continuation. *)
Lemma hoare_slideOverlay {B} (o : Oracle) (req : Request) (imageBuffer : Buffer)
    (inputImagePath : string) (k : string -> M B) (calls : list Event)
    (Q : B -> World -> Prop) :
  (forall overlayCalls readings slideInput,
     slideOverlay o req imageBuffer inputImagePath
     = (overlayCalls, readings, slideInput) ->
     hoare (at_ (calls ++ overlayCalls) (2 + readings)) (k slideInput) Q
       (fun _ => True)) ->
  hoare (at_ calls 2)
    (bind
       (if showText (productName req) (includeText req) then
          tryCatch
            (emit ImageMetadata ;;
             meta <- orThrow (metadata o imageBuffer)
                       "Input file contains unsupported image format" ;;
             let w := Num.js_or (mdWidth meta) 1280 in
             let h := Num.js_or (mdHeight meta) 720 in
             let text := escapeXml (trim (assertString (productName req))) in
             let svg := slideSvg w h text in
             t <- dateNow o ;;
             let withTextPath := withTextPathAt (tmpdir o) t in
             emit (ImageComposite svg withTextPath) ;;
             (if composite o then create withTextPath
              else throw "composite failed") ;;
             ret withTextPath)
            (fun _ => ret inputImagePath)
        else ret inputImagePath) k)
    Q (fun _ => True).
Proof.
  intros Hk w [Hl Ht]. unfold slideOverlay in Hk.
  destruct (showText (productName req) (includeText req)).
  - unfold bind at 1, tryCatch, bind, emit, orThrow.
    destruct (metadata o imageBuffer) as [meta|].
    + unfold ret, dateNow. cbn [ticks log files]. rewrite Ht.
      destruct (composite o).
      * unfold create. cbn [ticks log files].
        apply (Hk _ _ _ eq_refl). split; cbn [log ticks]; [|reflexivity].
        rewrite Hl, <- app_assoc. reflexivity.
      * unfold throw. apply (Hk _ _ _ eq_refl).
        split; cbn [log ticks]; [|reflexivity].
        rewrite Hl, <- app_assoc. reflexivity.
    + unfold throw, ret. apply (Hk _ _ _ eq_refl).
      split; cbn [log ticks]; [|exact Ht]. now rewrite Hl.
  - unfold bind, ret. apply (Hk _ _ _ eq_refl).
    split; [|exact Ht]. now rewrite Hl, app_nil_r.
Qed.

(** The removal of the composited image, with its [try]/[catch]. *)
Lemma effect_slideCleanup (o : Oracle) (slideInput inputImagePath : string) :
  effect
    (tryCatch
       (if negb (slideInput =? inputImagePath) then unlinkSync o slideInput
        else ret tt)
       (fun _ => ret tt))
    (if slideInput =? inputImagePath then [] else [FsUnlink slideInput]).
Proof.
  intros w. unfold tryCatch. destruct (slideInput =? inputImagePath); cbn [negb].
  - cbn. now rewrite app_nil_r.
  - unfold unlinkSync, fsCall, bind, emit, throw, ret.
    destruct (fsRefuses o (FsUnlink slideInput)); cbn [files log ticks];
      [auto|].
    destruct (fileExists slideInput (files w)); cbn; auto.
Qed.

Lemma handlerBody_slide_trace (o : Oracle) (req : Request) (k : string)
    (template : Template) :
  style template = slide ->
  hoare (at_ [] 0) (handlerBody o req k template)
    (fun _ w =>
       exists imageBuffer,
         getObject o k = Some imageBuffer
         /\ log w = slideCalls o req k template imageBuffer
         /\ ticks w
            = (3 + snd (fst (slideOverlay o req imageBuffer
                               (inputImagePathAt (tmpdir o) (now o 0)))))%nat)
    (fun _ => True).
Proof.
  intros Hslide. unfold handlerBody. rewrite Hslide.
  eapply hoare_effect; [apply effect_emit | intros _].
  apply hoare_value. intros imageBuffer Hget.
  apply hoare_now. apply hoare_now.
  eapply hoare_effect; [apply effect_writeFileSync | intros _].
  eapply hoare_effect; [apply effect_emit | intros _].
  unfold slideBranch.
  apply hoare_assoc. apply hoare_slideOverlay.
  intros overlayCalls readings slideInput Hov.
  apply hoare_assoc. eapply hoare_effect; [apply effect_runEncoder | intros _].
  eapply hoare_effect; [apply effect_slideCleanup | intros _].
  eapply hoare_effect; [apply effect_readFileSync | intros _].
  apply hoare_now.
  eapply hoare_effect; [apply effect_emit | intros _].
  apply hoare_value. intros videoUrl Hurl.
  eapply hoare_effect; [apply effect_unlinkSync | intros _].
  eapply hoare_effect; [apply effect_unlinkSync | intros _].
  apply hoare_ret. intros w [Hl Ht].
  exists imageBuffer. split; [exact Hget|].
  unfold slideCalls. rewrite Hov. cbn [fst snd].
  split; [|rewrite Ht; reflexivity].
  rewrite Hl. cbn [app]. rewrite <- !app_assoc. reflexivity.
Qed.

Ltac no_unlink H Hinput Houtput :=
  cbn in H;
  repeat (destruct H as [E|H];
          [try discriminate E; injection E as E;
           first [now contradiction Hinput | now contradiction Houtput]|]);
  contradiction.

(** X16: a slide run that is answered 200 has made exactly these calls, in
    this order: download, write the input image, stat the music, the
    overlay step, one encoder run on a looped image, the removal of the
    composited image if there is one, read the output, upload it, remove
    the input and the output. The encoder is given the composited image
    exactly when text is to be shown, the metadata could be read and the
    composite succeeded; in every other case it is given the input
    image and no overlay file is removed. *)
Theorem slide_success_trace (h : Host) (o : Oracle) (req : Request) (k : string)
    (template : Template) :
  accepted h req k template ->
  style template = slide ->
  status (fst (handler h o req idle)) = 200%Z ->
  exists imageBuffer,
    let input := inputImagePathAt (tmpdir o) (now o 0) in
    let withText := withTextPathAt (tmpdir o) (now o 2) in
    let slideInput := snd (slideOverlay o req imageBuffer input) in
    getObject o k = Some imageBuffer
    /\ log (snd (handler h o req idle)) = slideCalls o req k template imageBuffer
    /\ (slideInput = withText
        <-> showText (productName req) (includeText req) = true
            /\ metadata o imageBuffer <> None /\ composite o = true)
    /\ (slideInput <> withText -> slideInput = input)
    /\ (In (FsUnlink withText) (log (snd (handler h o req idle)))
        <-> slideInput = withText).
Proof.
  intros Hacc Hslide. rewrite (handler_accepted h o req idle k template Hacc).
  pose proof (handlerBody_slide_trace o req k template Hslide idle
                (conj eq_refl eq_refl)) as H.
  destruct (handlerBody o req k template idle) as [[url|m] w']; cbn [fst snd status];
    [|discriminate].
  intros _. destruct H as (imageBuffer & Hget & Hlog & _).
  exists imageBuffer. cbn zeta. split; [exact Hget|]. split; [exact Hlog|].
  pose proof (input_ne_withText (tmpdir o) (now o 0) (now o 2)) as Hne.
  assert (Hne' : inputImagePathAt (tmpdir o) (now o 0)
                 <> withTextPathAt (tmpdir o) (now o 2)).
  { intros E. rewrite E, String.eqb_refl in Hne. discriminate. }
  assert (Hne2 : outputVideoPathAt (tmpdir o) (now o 1)
                 <> withTextPathAt (tmpdir o) (now o 2)).
  { rewrite outputVideoPathAt_eq, withTextPathAt_eq.
    intros E. apply append_cancel_l in E. discriminate E. }
  rewrite Hlog. unfold slideCalls, slideOverlay.
  destruct (showText (productName req) (includeText req)).
  - destruct (metadata o imageBuffer) as [meta|].
    + destruct (composite o); cbn [fst snd].
      * rewrite Hne. split; [|split].
        -- split; [intros _; repeat split; discriminate | reflexivity].
        -- intros E. now contradiction E.
        -- split; [reflexivity|]. intros _. cbn. auto 10.
      * rewrite String.eqb_refl. split; [|split].
        -- split; [intros E; now contradiction Hne'
                  | intros (_ & _ & E); discriminate E].
        -- reflexivity.
        -- split; [|intros E; now contradiction Hne'].
           intros Hin. no_unlink Hin Hne' Hne2.
    + cbn [fst snd]. rewrite String.eqb_refl. split; [|split].
      * split; [intros E; now contradiction Hne'
               | intros (_ & E & _); now contradiction E].
      * reflexivity.
      * split; [|intros E; now contradiction Hne'].
        intros Hin. no_unlink Hin Hne' Hne2.
  - cbn [fst snd]. rewrite String.eqb_refl. split; [|split].
    * split; [intros E; now contradiction Hne'
             | intros (E & _); discriminate E].
    * reflexivity.
    * split; [|intros E; now contradiction Hne'].
      intros Hin. no_unlink Hin Hne' Hne2.
Qed.

Lemma slide_success_trace_witness :
  let o := collaborators (tickingClock 1700000000000) true true in
  let run := handler bundledHost o
               (post (Some "uploads/a.jpg") (Some "slide-funky")
                  (Some (lit "Mug")) None)
               idle in
  In (FsUnlink "/tmp/slide-input-1700000000002.png") (log (snd run))
  /\ List.length (log (snd run)) = 11%nat.
Proof.
  intros o run.
  destruct (slide_success_trace bundledHost o
              (post (Some "uploads/a.jpg") (Some "slide-funky")
                 (Some (lit "Mug")) None)
              "uploads/a.jpg"
              (mkTemplate "slide-funky" "Funky Slide" slide "/musics/funky.mp3" 6))
    as (b & _ & Hlog & _ & _ & Hunlink).
  - repeat split; try reflexivity.
    + exists "slide-funky". split; reflexivity.
    + discriminate.
  - reflexivity.
  - reflexivity.
  - split.
    + apply Hunlink. reflexivity.
    + unfold run. rewrite Hlog. reflexivity.
Defined.

End SlideTrace.

(** ** The frames of the sample run *)

Section SampleFrames.

Import Doubles.
Local Open Scope R_scope.

Lemma minFactor_1920_1080 : minFactor 1920 1080 <= 1.
Proof.
  unfold minFactor. apply Rmax_lub.
  - rewrite <- fl_1. apply fl_mono. lra.
  - rewrite <- fl_1. apply fl_mono. lra.
Qed.

(** The first frame of the sample source is the source itself. *)
Lemma frame0_of_sample :
  frameGeometry roundedCos 1920 1080 150 0
  = mkFrameSpec 1920 1080 320 180 1280 720.
Proof.
  assert (Hf : factor roundedCos 1920 1080 150 0 = 1).
  { unfold factor, frameTime. cbn [Z.eqb Pos.eqb].
    change (150 - 1)%Z with 149%Z.
    replace (0 / 149) with 0 by lra.
    rewrite fl_0, (ease64_0 _ roundedCos_0), Rmult_0_r, fl_0.
    replace (1 + 0) with 1 by ring. rewrite fl_1.
    apply Rmax_left, minFactor_1920_1080. }
  unfold frameGeometry. cbv zeta. rewrite Hf, !Rmult_1_r.
  rewrite !fl_IZR by lia. unfold cropWindow. cbv zeta.
  rewrite !js_round_IZR.
  replace (1920 - 1280) with 640 by ring.
  replace (1080 - 720) with 360 by ring.
  rewrite !fl_IZR by lia.
  replace (640 / 2) with 320 by lra. replace (360 / 2) with 180 by lra.
  rewrite !fl_IZR by lia. rewrite !js_round_IZR. reflexivity.
Qed.

Lemma factor_last_of_sample :
  104857 / 2 ^ 16 <= factor roundedCos 1920 1080 150 149 <= 104858 / 2 ^ 16.
Proof.
  unfold factor, frameTime. cbn [Z.eqb Pos.eqb].
  change (150 - 1)%Z with 149%Z.
  replace (149 / 149) with 1 by lra.
  rewrite fl_1, (ease64_1 _ roundedCos_PI64), Rmult_1_r.
  rewrite (fl_exact zoomFactor) by apply fl_double.
  assert (Hz : IZR 39321 / 2 ^ 16 <= zoomFactor <= IZR 39322 / 2 ^ 16).
  { unfold zoomFactor. apply fl_between; [lia | lia | lia |]. simpl. lra. }
  assert (Hs : IZR 104857 / 2 ^ 16 <= fl (1 + zoomFactor) <= IZR 104858 / 2 ^ 16).
  { apply fl_between; [lia | lia | lia |]. simpl in *. lra. }
  rewrite Rmax_left; [exact Hs|].
  apply Rle_trans with 1; [apply minFactor_1920_1080 | simpl in *; lra].
Qed.

(** The last frame is the source enlarged 1.6 times. *)
Lemma frame149_of_sample :
  frameGeometry roundedCos 1920 1080 150 149
  = mkFrameSpec 3072 1728 896 504 1280 720.
Proof.
  pose proof factor_last_of_sample as Hf.
  unfold frameGeometry. cbv zeta.
  set (f := factor roundedCos 1920 1080 150 149) in *.
  assert (HW : IZR 201325440 / 2 ^ 16 <= fl (1920 * f) <= IZR 201327360 / 2 ^ 16).
  { apply fl_between; [lia | lia | lia |]. simpl in *. lra. }
  assert (HH : IZR 113245560 / 2 ^ 16 <= fl (1080 * f) <= IZR 113246640 / 2 ^ 16).
  { apply fl_between; [lia | lia | lia |]. simpl in *. lra. }
  set (W := fl (1920 * f)) in *. set (H := fl (1080 * f)) in *.
  assert (HWc : IZR 117439360 / 2 ^ 16 <= fl (W - 1280) <= IZR 117441280 / 2 ^ 16).
  { apply fl_between; [lia | lia | lia |]. simpl in *. lra. }
  assert (HHc : IZR 66059640 / 2 ^ 16 <= fl (H - 720) <= IZR 66060720 / 2 ^ 16).
  { apply fl_between; [lia | lia | lia |]. simpl in *. lra. }
  assert (HWh : IZR 117439360 / 2 ^ 17 <= fl (fl (W - 1280) / 2)
                <= IZR 117441280 / 2 ^ 17).
  { apply fl_between; [lia | lia | lia |]. simpl in *. lra. }
  assert (HHh : IZR 66059640 / 2 ^ 17 <= fl (fl (H - 720) / 2)
                <= IZR 66060720 / 2 ^ 17).
  { apply fl_between; [lia | lia | lia |]. simpl in *. lra. }
  unfold cropWindow. cbv zeta.
  rewrite (js_round_eq W 3072) by (simpl in *; lra).
  rewrite (js_round_eq H 1728) by (simpl in *; lra).
  rewrite (js_round_eq (fl (fl (W - 1280) / 2)) 896) by (simpl in *; lra).
  rewrite (js_round_eq (fl (fl (H - 720) / 2)) 504) by (simpl in *; lra).
  reflexivity.
Qed.

End SampleFrames.

(** ** The overlay of a run *)

Section OverlayOfARun.

Local Open Scope string_scope.

Lemma frameIndices_In (frames i : Z) :
  (0 <= i < frames)%Z -> In i (frameIndices frames).
Proof.
  intros H. unfold frameIndices. apply in_map_iff. exists (Z.to_nat i).
  split; [apply Z2Nat.id; lia | apply in_seq; lia].
Qed.

Lemma zoom_run_log (h : Host) (o : Oracle) (req : Request) (k : string)
    (template : Template) :
  accepted h req k template ->
  style template = zoom ->
  status (fst (handler h o req idle)) = 200%Z ->
  exists imageBuffer md,
    getObject o k = Some imageBuffer
    /\ metadata o imageBuffer = Some md
    /\ log (snd (handler h o req idle)) = zoomCalls o req k template md.
Proof.
  intros Hacc Hzoom. rewrite (handler_accepted h o req idle k template Hacc).
  pose proof (handlerBody_zoom_trace o req k template Hzoom idle
                (conj eq_refl eq_refl)) as H.
  destruct (handlerBody o req k template idle) as [[url|m] w']; cbn.
  - intros _. destruct H as (b & md & Hb & Hmd & Hlog & _). now exists b, md.
  - discriminate.
Qed.

Lemma slide_run_log (h : Host) (o : Oracle) (req : Request) (k : string)
    (template : Template) :
  accepted h req k template ->
  style template = slide ->
  status (fst (handler h o req idle)) = 200%Z ->
  exists imageBuffer,
    getObject o k = Some imageBuffer
    /\ log (snd (handler h o req idle)) = slideCalls o req k template imageBuffer.
Proof.
  intros Hacc Hslide. rewrite (handler_accepted h o req idle k template Hacc).
  pose proof (handlerBody_slide_trace o req k template Hslide idle
                (conj eq_refl eq_refl)) as H.
  destruct (handlerBody o req k template idle) as [[url|m] w']; cbn.
  - intros _. destruct H as (b & Hb & Hlog & _). now exists b.
  - discriminate.
Qed.

(** A zoom run answered 200 has rendered every frame from 0 to N-1,
    each with the window computed for it and, when text is to be shown,
    with the overlay sized for its resized image. *)
Lemma zoom_run_renders (h : Host) (o : Oracle) (req : Request) (k : string)
    (template : Template) :
  accepted h req k template ->
  style template = zoom ->
  status (fst (handler h o req idle)) = 200%Z ->
  exists imageBuffer md,
    getObject o k = Some imageBuffer
    /\ metadata o imageBuffer = Some md
    /\ forall i, (0 <= i < durationSeconds template * 25)%Z ->
         In (renderCall (mathCos o) (js_or (mdWidth md) 1280)
               (js_or (mdHeight md) 720) (durationSeconds template * 25)
               (overlayText req) (framesDirAt (tmpdir o) (now o 2)) i)
            (log (snd (handler h o req idle))).
Proof.
  intros Hacc Hzoom H200.
  destruct (zoom_run_log h o req k template Hacc Hzoom H200)
    as (b & md & Hb & Hmd & Hlog).
  exists b, md. split; [exact Hb|]. split; [exact Hmd|].
  intros i Hi. rewrite Hlog. unfold zoomCalls.
  apply in_or_app. right. apply in_or_app. left.
  apply in_map. now apply frameIndices_In.
Qed.

Lemma handlerBody_keeps_sized (o : Oracle) (req : Request) (imageKey : string)
    (template : Template) :
  keeps (overlaySized (productName req)) (handlerBody o req imageKey template).
Proof.
  unfold handlerBody.
  repeat keeps_step; try exact I.
  destruct (style template); [unfold zoomBranch | unfold slideBranch];
    repeat keeps_step; try exact I.
  destruct (showText (productName req) (includeText req)); cbn; [|exact I].
  unfold zoomSvg. now rewrite fontSizeZoom_round.
Qed.

(** C7, as amended: in the zoom style the overlay is drawn on a
    1280x720 canvas and its font size is
    [max 28 (round (min scaledW scaledH / 24))], where [scaledW] and
    [scaledH] are the sides of the resized image of the frame being
    rendered. Every overlay that any run hands to the image library
    with a frame is of this form, and a zoom run with text that is
    answered 200 has rendered every frame from 0 to N-1 with it. *)
Theorem overlay_font_size (h : Host) (o : Oracle) (req : Request) :
  Forall (overlaySized (productName req)) (log (snd (handler h o req idle)))
  /\ (forall k template,
        accepted h req k template ->
        style template = zoom ->
        status (fst (handler h o req idle)) = 200%Z ->
        showText (productName req) (includeText req) = true ->
        exists imageBuffer md,
          getObject o k = Some imageBuffer
          /\ metadata o imageBuffer = Some md
          /\ forall i, (0 <= i < durationSeconds template * 25)%Z ->
               let g := Doubles.frameGeometry (mathCos o)
                          (js_or (mdWidth md) 1280) (js_or (mdHeight md) 720)
                          (durationSeconds template * 25) i in
               In (ImageRenderFrame g
                     (Some (svg 1280 720
                              (Z.max 28
                                 (js_round
                                    (IZR (Z.min (scaledW g) (scaledH g)) / 24)))
                              (escapeXml (trim (assertString (productName req))))))
                     (framePath (framesDirAt (tmpdir o) (now o 2)) i))
                  (log (snd (handler h o req idle)))).
Proof.
  split.
  - apply handler_keeps. intros k template. apply handlerBody_keeps_sized.
  - intros k template Hacc Hzoom H200 Hon.
    destruct (zoom_run_renders h o req k template Hacc Hzoom H200)
      as (b & md & Hb & Hmd & Hin).
    exists b, md. split; [exact Hb|]. split; [exact Hmd|].
    intros i Hi g. specialize (Hin i Hi).
    unfold renderCall, overlayText in Hin. rewrite Hon in Hin.
    cbn [option_map] in Hin. unfold zoomSvg in Hin.
    rewrite fontSizeZoom_round in Hin. exact Hin.
Qed.

Lemma sample_zoom_frame (i : Z) :
  (0 <= i < 150)%Z ->
  let o := collaborators (tickingClock 1700000000000) true true in
  let req := post (Some "uploads/a.jpg") (Some "zoom-ambient")
               (Some (lit "Mug")) None in
  let g := Doubles.frameGeometry Doubles.roundedCos 1920 1080 150 i in
  In (ImageRenderFrame g
        (Some (zoomSvg (scaledW g) (scaledH g) (lit "Mug")))
        (framePath "/tmp/frames-1700000000002" i))
     (log (snd (handler bundledHost o req idle))).
Proof.
  intros Hi o req g.
  destruct (zoom_run_renders bundledHost o req "uploads/a.jpg"
              (mkTemplate "zoom-ambient" "Ambient Zoom" zoom "/musics/ambient.mp3" 6))
    as (b & md & _ & Hmd & Hin).
  - repeat split; try reflexivity.
    + exists "zoom-ambient". split; reflexivity.
    + discriminate.
  - reflexivity.
  - reflexivity.
  - injection Hmd as <-. exact (Hin i Hi).
Qed.

(** C7 as stated fails. A 1920x1080 source under the zoom template: the
    overlay of the first frame has a font size of 45 and that of the
    last frame one of 72, both on the 1280x720 canvas, for which the
    formula gives 30. Under the slide template the overlay is a
    1920x1080 canvas with a font size of 80, where the formula gives
    45. *)
Lemma font_size_not_canvas_formula :
  let o := collaborators (tickingClock 1700000000000) true true in
  let zoomRun := handler bundledHost o
                   (post (Some "uploads/a.jpg") (Some "zoom-ambient")
                      (Some (lit "Mug")) None) idle in
  let slideRun := handler bundledHost o
                    (post (Some "uploads/a.jpg") (Some "slide-funky")
                       (Some (lit "Mug")) None) idle in
  In (ImageRenderFrame (mkFrameSpec 1920 1080 320 180 1280 720)
        (Some (svg 1280 720 45 (lit "Mug")))
        "/tmp/frames-1700000000002/frame-0000.png")
     (log (snd zoomRun))
  /\ In (ImageRenderFrame (mkFrameSpec 3072 1728 896 504 1280 720)
           (Some (svg 1280 720 72 (lit "Mug")))
           "/tmp/frames-1700000000002/frame-0149.png")
        (log (snd zoomRun))
  /\ specFontSize 1280 720 = 30%R
  /\ In (ImageComposite (svg 1920 1080 80 (lit "Mug"))
           "/tmp/slide-input-1700000000002.png")
        (log (snd slideRun))
  /\ specFontSize 1920 1080 = 45%R.
Proof.
  intros o zoomRun slideRun.
  split; [|split; [|split; [|split]]].
  - pose proof (sample_zoom_frame 0 ltac:(lia)) as H. cbv zeta in H.
    rewrite frame0_of_sample in H. exact H.
  - pose proof (sample_zoom_frame 149 ltac:(lia)) as H. cbv zeta in H.
    rewrite frame149_of_sample in H. exact H.
  - unfold specFontSize. replace (Z.min 1280 720) with 720%Z by reflexivity.
    rewrite Rmax_right by lra. lra.
  - vm_compute. do 4 right. left. reflexivity.
  - unfold specFontSize. replace (Z.min 1920 1080) with 1080%Z by reflexivity.
    rewrite Rmax_right by lra. lra.
Qed.

(** The encoder run among the calls of a slide run. *)
Ltac slide_job H :=
  repeat (destruct H as [E|H];
          [try discriminate E; injection E as <-; reflexivity|]);
  contradiction.

(** The encoder run of a slide run answered 200, and the composite
    before it. *)
Lemma slide_run_overlay (h : Host) (o : Oracle) (req : Request) (k : string)
    (template : Template) :
  accepted h req k template ->
  style template = slide ->
  status (fst (handler h o req idle)) = 200%Z ->
  exists imageBuffer,
    let calls := log (snd (handler h o req idle)) in
    let input := inputImagePathAt (tmpdir o) (now o 0) in
    let withText := withTextPathAt (tmpdir o) (now o 2) in
    let text := escapeXml (trim (assertString (productName req))) in
    let composited :=
      showText (productName req) (includeText req)
      && match metadata o imageBuffer with
         | Some _ => composite o
         | None => false
         end in
    getObject o k = Some imageBuffer
    /\ (forall meta,
          showText (productName req) (includeText req) = true ->
          metadata o imageBuffer = Some meta ->
          In (ImageComposite
                (slideSvg (js_or (mdWidth meta) 1280) (js_or (mdHeight meta) 720)
                   text)
                withText) calls)
    /\ (exists job, In (EncoderRun job) calls)
    /\ (forall job, In (EncoderRun job) calls ->
          videoSource job
          = LoopedImage (if composited then withText else input)
              (slideFilters 25 (durationSeconds template * 25))).
Proof.
  intros Hacc Hslide H200.
  destruct (slide_run_log h o req k template Hacc Hslide H200)
    as (b & Hb & Hlog).
  exists b. cbv zeta. split; [exact Hb|].
  rewrite Hlog. unfold slideCalls, slideOverlay.
  assert (Hsame : forall p : string, (p =? p) = true)
    by (intros p; apply String.eqb_refl).
  destruct (showText (productName req) (includeText req)); cbn [andb].
  - destruct (metadata o b) as [meta|].
    + destruct (composite o); cbv beta iota zeta; split; [|split| |split].
      * intros meta' _ E. injection E as <-.
        cbn [app In]. do 4 right. left. reflexivity.
      * eexists. cbn [app In]. do 5 right. left. reflexivity.
      * intros job Hin. destruct (_ =? _); cbn [app In] in Hin; slide_job Hin.
      * intros meta' _ E. injection E as <-.
        cbn [app In]. do 4 right. left. reflexivity.
      * eexists. cbn [app In]. do 5 right. left. reflexivity.
      * intros job Hin. rewrite Hsame in Hin. cbn [app In] in Hin.
        slide_job Hin.
    + cbv beta iota zeta. rewrite Hsame. split; [|split].
      * intros meta' _ E. discriminate E.
      * eexists. cbn [app In]. do 4 right. left. reflexivity.
      * intros job Hin. cbn [app In] in Hin. slide_job Hin.
  - cbv beta iota zeta. rewrite Hsame. split; [|split].
    + intros meta' E. discriminate E.
    + eexists. cbn [app In]. do 3 right. left. reflexivity.
    + intros job Hin. cbn [app In] in Hin. slide_job Hin.
Qed.

(** C10, as amended: with [includeText] omitted the text is requested
    exactly when the product name is present and not empty after
    trimming; an explicit [false] turns it off, and nothing else does.
    When it is requested, a zoom run answered 200 has rendered every
    frame from 0 to N-1 with the overlay, and a slide run answered 200
    has composited the overlay onto the image when the metadata could be
    read, and has given the encoder the composited image exactly when
    the composite succeeded too: in every other case the encoder gets
    the input image and the video carries no text. When the text is not
    requested, no run renders an overlay, and a zoom run answered 200
    has rendered every frame without one. *)
Theorem showText_includeText_default (productName : option jsstring) :
  (showText productName None = true
   <-> exists str, productName = Some str /\ trim str <> [])
  /\ showText productName (Some false) = false
  /\ (forall includeText, includeText <> Some false ->
        showText productName includeText = showText productName None)
  /\ (forall h o req k template,
        Pipeline.productName req = productName ->
        accepted h req k template ->
        style template = zoom ->
        status (fst (handler h o req idle)) = 200%Z ->
        exists imageBuffer md,
          getObject o k = Some imageBuffer
          /\ metadata o imageBuffer = Some md
          /\ forall i, (0 <= i < durationSeconds template * 25)%Z ->
               let g := Doubles.frameGeometry (mathCos o)
                          (js_or (mdWidth md) 1280) (js_or (mdHeight md) 720)
                          (durationSeconds template * 25) i in
               In (ImageRenderFrame g
                     (if showText productName (includeText req)
                      then Some (zoomSvg (scaledW g) (scaledH g)
                                   (escapeXml (trim (assertString productName))))
                      else None)
                     (framePath (framesDirAt (tmpdir o) (now o 2)) i))
                  (log (snd (handler h o req idle))))
  /\ (forall h o req k template,
        Pipeline.productName req = productName ->
        accepted h req k template ->
        style template = slide ->
        status (fst (handler h o req idle)) = 200%Z ->
        exists imageBuffer,
          let calls := log (snd (handler h o req idle)) in
          let input := inputImagePathAt (tmpdir o) (now o 0) in
          let withText := withTextPathAt (tmpdir o) (now o 2) in
          let text := escapeXml (trim (assertString productName)) in
          let composited :=
            showText productName (includeText req)
            && match metadata o imageBuffer with
               | Some _ => composite o
               | None => false
               end in
          getObject o k = Some imageBuffer
          /\ (forall meta,
                showText productName (includeText req) = true ->
                metadata o imageBuffer = Some meta ->
                In (ImageComposite
                      (slideSvg (js_or (mdWidth meta) 1280)
                         (js_or (mdHeight meta) 720) text)
                      withText) calls)
          /\ (exists job, In (EncoderRun job) calls)
          /\ (forall job, In (EncoderRun job) calls ->
                videoSource job
                = LoopedImage (if composited then withText else input)
                    (slideFilters 25 (durationSeconds template * 25))))
  /\ (forall h o req, Pipeline.productName req = productName ->
        showText productName (includeText req) = false ->
        Forall noOverlay (log (snd (handler h o req idle)))).
Proof.
  split; [|split; [|split; [|split; [|split]]]].
  - rewrite showText_true. split.
    + intros [_ H]. exact H.
    + intros H. split; [discriminate | exact H].
  - reflexivity.
  - intros [[|]|] H; try reflexivity. now contradiction H.
  - intros h o req k template <- Hacc Hzoom H200.
    destruct (zoom_run_renders h o req k template Hacc Hzoom H200)
      as (b & md & Hb & Hmd & Hin).
    exists b, md. split; [exact Hb|]. split; [exact Hmd|].
    intros i Hi g. specialize (Hin i Hi).
    unfold renderCall, overlayText in Hin.
    destruct (showText (Pipeline.productName req) (includeText req));
      exact Hin.
  - intros h o req k template <- Hacc Hslide H200.
    exact (slide_run_overlay h o req k template Hacc Hslide H200).
  - intros h o req <- Hoff. apply handler_keeps. intros k template.
    now apply handlerBody_overlay_off.
Qed.

Lemma showText_includeText_default_witness :
  let o := collaborators (tickingClock 1700000000000) true true in
  let req := post (Some "uploads/a.jpg") (Some "zoom-ambient")
               (Some (lit " Mug ")) None in
  showText (Some (lit " Mug ")) (Some true) = showText (Some (lit " Mug ")) None
  /\ exists imageBuffer md,
       getObject o "uploads/a.jpg" = Some imageBuffer
       /\ metadata o imageBuffer = Some md
       /\ forall i, (0 <= i < 6 * 25)%Z ->
            let g := Doubles.frameGeometry (mathCos o)
                       (js_or (mdWidth md) 1280) (js_or (mdHeight md) 720)
                       (6 * 25) i in
            In (ImageRenderFrame g
                  (if showText (Some (lit " Mug ")) (includeText req)
                   then Some (zoomSvg (scaledW g) (scaledH g)
                                (escapeXml
                                   (trim (assertString (Some (lit " Mug "))))))
                   else None)
                  (framePath (framesDirAt (tmpdir o) (now o 2)) i))
               (log (snd (handler bundledHost o req idle))).
Proof.
  intros o req.
  destruct (showText_includeText_default (Some (lit " Mug ")))
    as (_ & _ & Hdef & Hzoom & _).
  split.
  - apply Hdef. discriminate.
  - apply (Hzoom bundledHost o req "uploads/a.jpg"
             (mkTemplate "zoom-ambient" "Ambient Zoom" zoom
                "/musics/ambient.mp3" 6)).
    + reflexivity.
    + repeat split; try reflexivity.
      * exists "zoom-ambient". split; reflexivity.
      * discriminate.
    + reflexivity.
    + reflexivity.
Defined.

(** C10 as stated fails in the slide style. With [includeText] omitted
    and the product name [Mug], the text is requested; when the image
    library fails to write the composite, the failure is swallowed, the
    encoder is given the input image, and the handler answers 200 with a
    video that carries no overlay. *)
Lemma overlay_dropped_when_composite_fails :
  let o := compositeFails (tickingClock 1700000000000) in
  let req := post (Some "uploads/a.jpg") (Some "slide-funky")
               (Some (lit "Mug")) None in
  let run := handler bundledHost o req idle in
  showText (productName req) (includeText req) = true
  /\ fst run
     = mkResponse 200
         (VideoBody
            "https://cdn.example/videos/1700000000003-output-1700000000001.mp4.mp4")
  /\ log (snd run)
     = [StorageGet "uploads/a.jpg";
        FsWriteFile "/tmp/input-1700000000000.jpg";
        FsStat "/app/public/musics/funky.mp3";
        ImageMetadata;
        ImageComposite (svg 1920 1080 80 (lit "Mug"))
          "/tmp/slide-input-1700000000002.png";
        EncoderRun
          (mkEncodeJob
             (LoopedImage "/tmp/input-1700000000000.jpg"
                "fps=25,scale=1280:-1,crop=1280:720:x='min(max(0,(iw-1280)*n/150),iw-1280)':y=0")
             (AudioFile "/app/public/musics/funky.mp3") 6
             "/tmp/output-1700000000001.mp4");
        FsReadFile "/tmp/output-1700000000001.mp4";
        StoragePut "videos/1700000000003-output-1700000000001.mp4.mp4";
        FsUnlink "/tmp/input-1700000000000.jpg";
        FsUnlink "/tmp/output-1700000000001.mp4"].
Proof. vm_compute. repeat split; reflexivity. Qed.

End OverlayOfARun.

(** ** More on escaping *)

Section EscapingMore.

Local Open Scope list_scope.

Lemma escapeUnit_plain (c : N) : isMeta c = false -> escapeUnit c = [c].
Proof.
  intros Hm. apply isMeta_cases in Hm. destruct Hm as (H1 & H2 & H3 & H4 & H5).
  unfold escapeUnit. now rewrite H1, H2, H3, H4, H5.
Qed.

Lemma escapeUnit_meta (c : N) :
  isMeta c = true ->
  exists rest, escapeUnit c = AMP :: rest /\ (3 <= List.length rest)%nat.
Proof.
  intros Hm. apply isMeta_true in Hm.
  destruct Hm as [->|[->|[->|[->| ->]]]]; eexists; (split; [reflexivity | cbn; lia]).
Qed.

Lemma escapeXml_length (s : jsstring) :
  (List.length s <= List.length (escapeXml s))%nat
  /\ (List.length (escapeXml s) = List.length s -> plain s = true).
Proof.
  rewrite escapeXml_per_unit. unfold plain.
  induction s as [|c rest [IHle IHeq]]; [split; [cbn; lia | reflexivity]|].
  cbn [flat_map forallb]. rewrite length_app. cbn [List.length].
  destruct (isMeta c) eqn:Hm.
  - destruct (escapeUnit_meta c Hm) as (r & -> & Hr). cbn [List.length negb andb].
    split; [lia | intros H; lia].
  - rewrite (escapeUnit_plain c Hm). cbn [List.length negb andb].
    split; [lia | intros H; apply IHeq; lia].
Qed.

Lemma escapeXml_plain (s : jsstring) : plain s = true -> escapeXml s = s.
Proof.
  rewrite escapeXml_per_unit. unfold plain.
  induction s as [|c rest IH]; [reflexivity|].
   cbn [forallb flat_map]. intros H. apply andb_true_iff in H.
  destruct H as [Hc Hrest]. apply negb_true_iff in Hc.
  rewrite (escapeUnit_plain c Hc), (IH Hrest). reflexivity.
Qed.

Lemma plain_escapeXml (s : jsstring) :
  plain (escapeXml s) = true -> plain s = true.
Proof.
  rewrite escapeXml_per_unit. unfold plain.
  induction s as [|c rest IH]; [reflexivity|].
  cbn [flat_map forallb]. rewrite forallb_app. intros H.
  apply andb_true_iff in H. destruct H as [Hc Hrest].
  destruct (isMeta c) eqn:Hm.
  - destruct (escapeUnit_meta c Hm) as (r & Hr & _). rewrite Hr in Hc.
    cbn in Hc. discriminate Hc.
  - cbn. now apply IH.
Qed.

(** X17: text without metacharacters is embedded as it is, and only such
    text; escaping never shortens; escaping twice is not escaping once
    unless there was nothing to escape; and escaping goes through
    concatenation. *)
Theorem escapeXml_fixed_points (s : jsstring) :
  (escapeXml s = s <-> plain s = true)
  /\ (List.length s <= List.length (escapeXml s))%nat
  /\ (escapeXml (escapeXml s) = escapeXml s <-> plain s = true)
  /\ (forall a b, escapeXml (a ++ b) = escapeXml a ++ escapeXml b).
Proof.
  assert (Hfix : forall t, escapeXml t = t <-> plain t = true).
  { intros t. split; [|apply escapeXml_plain].
    intros H. apply (proj2 (escapeXml_length t)). now rewrite H. }
  split; [apply Hfix|]. split; [apply escapeXml_length|]. split.
  - rewrite Hfix. split; [apply plain_escapeXml|].
    intros H. now rewrite (escapeXml_plain s H).
  - apply escapeXml_app.
Qed.

Lemma escapeXml_fixed_points_witness :
  escapeXml (lit "Mug 2000") = lit "Mug 2000"
  /\ escapeXml (escapeXml (lit "A&B")) <> escapeXml (lit "A&B").
Proof.
  destruct (escapeXml_fixed_points (lit "Mug 2000")) as (Hfix & _).
  destruct (escapeXml_fixed_points (lit "A&B")) as (_ & _ & Htwice & _).
  split.
  - apply Hfix. reflexivity.
  - intros H. apply Htwice in H. discriminate H.
Defined.

End EscapingMore.

(* ================================================================== *)
(** * The storage helper *)

Import S3.

Section UriEncoding.

Local Open Scope N_scope.

Lemma hexDigit_unreserved (n : N) : n < 16 -> isUnreserved (hexDigit n) = true.
Proof.
  intros H. unfold hexDigit.
  destruct (N.ltb_spec n 10) as [Hlt|Hge]; unfold isUnreserved.
  - assert (H1 : (48 <=? 48 + n) = true) by (apply N.leb_le; lia).
    assert (H2 : (48 + n <=? 57) = true) by (apply N.leb_le; lia).
    rewrite H1, H2. cbn [andb]. now rewrite !orb_true_r.
  - assert (H1 : (65 <=? 55 + n) = true) by (apply N.leb_le; lia).
    assert (H2 : (55 + n <=? 90) = true) by (apply N.leb_le; lia).
    now rewrite H1, H2.
Qed.

Lemma percent_safe (octet : N) :
  octet < 256 -> forallb isUrlSafe (percent octet) = true.
Proof.
  intros H. unfold percent, isUrlSafe. cbn [forallb].
  rewrite !hexDigit_unreserved.
  - reflexivity.
  - apply N.mod_lt. discriminate.
  - apply N.Div0.div_lt_upper_bound. lia.
Qed.

Lemma utf8_octets (cp : N) :
  cp < 1114112 -> Forall (fun octet => octet < 256) (utf8 cp).
Proof.
  intros H. unfold utf8.
  assert (H64 : forall x, x mod 64 < 64) by (intros x; apply N.mod_lt; discriminate).
  destruct (N.ltb_spec cp 128); [repeat constructor; lia|].
  destruct (N.ltb_spec cp 2048).
  { assert (cp / 64 < 32) by (apply N.Div0.div_lt_upper_bound; lia).
    pose proof (H64 cp). repeat constructor; lia. }
  destruct (N.ltb_spec cp 65536).
  { assert (cp / 4096 < 16) by (apply N.Div0.div_lt_upper_bound; lia).
    pose proof (H64 cp). pose proof (H64 (cp / 64)). repeat constructor; lia. }
  assert (cp / 262144 < 5) by (apply N.Div0.div_lt_upper_bound; lia).
  pose proof (H64 cp). pose proof (H64 (cp / 64)). pose proof (H64 (cp / 4096)).
  repeat constructor; lia.
Qed.

Lemma escaped_point_safe (cp : N) :
  cp < 1114112 -> forallb isUrlSafe (flat_map percent (utf8 cp)) = true.
Proof.
  intros H. pose proof (utf8_octets cp H) as Ho.
  induction Ho as [|octet rest Hlt _ IH]; [reflexivity|].
  cbn [flat_map]. rewrite forallb_app, IH, percent_safe by exact Hlt. reflexivity.
Qed.

Lemma codePoint_bound (high low : N) :
  isHighSurrogate high = true -> isLowSurrogate low = true ->
  codePoint high low < 1114112.
Proof.
  unfold isHighSurrogate, isLowSurrogate, codePoint.
  rewrite !andb_true_iff, !N.leb_le. lia.
Qed.

Lemma encodeURIComponent_safe_len (n : nat) (s e : jsstring) :
  (List.length s <= n)%nat ->
  Forall (fun c => c < 65536) s ->
  encodeURIComponent s = Some e -> forallb isUrlSafe e = true.
Proof.
  revert s e. induction n as [|n IH]; intros s e Hlen Hunits.
  - destruct s; [|cbn in Hlen; lia]. cbn. intros H. now injection H as <-.
  - destruct s as [|c rest]; [cbn; intros H; now injection H as <-|].
    cbn [List.length] in Hlen. inversion Hunits as [|c' rest' Hc Hrest]; subst.
    cbn [encodeURIComponent].
    destruct (isUnreserved c) eqn:Hu.
    { destruct (encodeURIComponent rest) as [e'|] eqn:He; [|discriminate].
      cbn. intros H. injection H as <-. cbn [forallb].
      unfold isUrlSafe at 1. rewrite Hu. cbn [orb andb].
      apply (IH rest e'); [lia | assumption | assumption]. }
    destruct (isHighSurrogate c) eqn:Hh.
    { destruct rest as [|d rest2]; [discriminate|].
      destruct (isLowSurrogate d) eqn:Hl; [|discriminate].
      destruct (encodeURIComponent rest2) as [e'|] eqn:He; [|discriminate].
      cbn. intros H. injection H as <-. rewrite forallb_app.
      rewrite escaped_point_safe by now apply codePoint_bound.
      cbn [andb]. inversion Hrest; subst.
      apply (IH rest2 e'); [cbn in Hlen; lia | assumption | assumption]. }
    destruct (isLowSurrogate c); [discriminate|].
    destruct (encodeURIComponent rest) as [e'|] eqn:He; [|discriminate].
    cbn. intros H. injection H as <-. rewrite forallb_app.
    rewrite escaped_point_safe by lia. cbn [andb].
    apply (IH rest e'); [lia | assumption | assumption].
Qed.

Lemma urlSafe_excludes (c : N) :
  isUrlSafe c = true ->
  c <> 47 /\ c <> 63 /\ c <> 35 /\ c <> 38 /\ c <> 61 /\ c <> 32 /\ c <> 43.
Proof.
  intros H. repeat split; intros ->; discriminate H.
Qed.

(** What [encodeURIComponent] returns for a string of UTF-16 code
    units holds only letters, digits, [- _ . ! ~ * ' ( )] and [%]: no
    slash, question mark, hash, ampersand, equals sign, space or plus of
    the key reaches the URL unescaped. *)
Lemma encodeURIComponent_safe (s e : jsstring) :
  Forall (fun c => c < 65536) s ->
  encodeURIComponent s = Some e ->
  forallb isUrlSafe e = true
  /\ (forall c, In c e ->
        c <> 47 /\ c <> 63 /\ c <> 35 /\ c <> 38 /\ c <> 61 /\ c <> 32 /\ c <> 43).
Proof.
  intros Hunits He.
  assert (Hsafe : forallb isUrlSafe e = true)
    by (apply (encodeURIComponent_safe_len (List.length s) s e); auto).
  split; [exact Hsafe|].
  intros c Hin. apply urlSafe_excludes.
  rewrite forallb_forall in Hsafe. now apply Hsafe.
Qed.

End UriEncoding.

Section UploadToS3.

Local Open Scope list_scope.

Lemma encodeURIComponent_total (s : jsstring) :
  forallb noSurrogate s = true -> exists e, encodeURIComponent s = Some e.
Proof.
  induction s as [|c rest IH]; [now exists []|].
  cbn [forallb]. intros H. apply andb_true_iff in H. destruct H as [Hc Hrest].
  destruct (IH Hrest) as [e He]. unfold noSurrogate in Hc.
  apply andb_true_iff in Hc. destruct Hc as [Hh Hl].
  apply negb_true_iff in Hh, Hl.
  cbn [encodeURIComponent]. rewrite He, Hh, Hl.
  destruct (isUnreserved c); cbn; eauto.
Qed.

(** X18: [uploadToS3] returns a URL exactly when the send succeeded and
    the key has no unpaired surrogate; the URL is the public base, a
    slash and the encoded key, which holds no slash of its own; a set
    [S3_PUBLIC_URL], even an empty one, is the base, and otherwise the
    bucket's address is, with [undefined] for what is not set. *)
Theorem uploadToS3_url (env : Env) (send : option (option jsstring))
    (key url : jsstring) :
  Forall (fun c => (c < 65536)%N) key ->
  (uploadToS3 env send key = Ok url <->
   send = None
   /\ exists e, encodeURIComponent key = Some e
                /\ url = publicBase env ++ lit "/" ++ e)
  /\ (uploadToS3 env send key = Ok url ->
      exists e, url = publicBase env ++ lit "/" ++ e /\ ~ In 47%N e)
  /\ (forall base, S3_PUBLIC_URL env = Some base -> publicBase env = base)
  /\ (S3_PUBLIC_URL env = None ->
      publicBase env
      = lit "https://" ++ interpolate (S3_BUCKET_NAME env) ++ lit ".s3."
        ++ interpolate (AWS_REGION env) ++ lit ".amazonaws.com").
Proof.
  intros Hunits.
  assert (Hiff : uploadToS3 env send key = Ok url <->
                 send = None
                 /\ exists e, encodeURIComponent key = Some e
                              /\ url = publicBase env ++ lit "/" ++ e).
  { unfold uploadToS3. destruct send as [m|].
    - split; [discriminate | intros [H _]; discriminate].
    - destruct (encodeURIComponent key) as [e|].
      + split.
        * intros H. injection H as <-. split; [reflexivity|]. now exists e.
        * intros [_ (e' & He & ->)]. now injection He as <-.
      + split; [discriminate | intros [_ (e' & He & _)]; discriminate]. }
  split; [exact Hiff|]. split; [|split].
  - intros H. apply Hiff in H. destruct H as [_ (e & He & ->)].
    exists e. split; [reflexivity|]. intros Hin.
    pose proof (encodeURIComponent_safe_len (List.length key) key e
                  (le_n _) Hunits He) as Hsafe.
    rewrite forallb_forall in Hsafe.
    destruct (urlSafe_excludes 47%N (Hsafe _ Hin)) as [Hne _].
    now contradiction Hne.
  - intros base Hb. unfold publicBase. now rewrite Hb.
  - intros Hb. unfold publicBase. now rewrite Hb.
Qed.

Lemma uploadToS3_url_witness :
  uploadToS3 (mkEnv (Some (lit "eu-west-1")) (Some (lit "clips")) None) None
    (lit "videos/1-output-2.mp4.mp4")
  = Ok (lit "https://clips.s3.eu-west-1.amazonaws.com/videos%2F1-output-2.mp4.mp4").
Proof.
  apply (uploadToS3_url (mkEnv (Some (lit "eu-west-1")) (Some (lit "clips")) None)
           None (lit "videos/1-output-2.mp4.mp4")).
  - repeat constructor.
  - split; [reflexivity|].
    exists (lit "videos%2F1-output-2.mp4.mp4"). split; reflexivity.
Defined.

(** X19: a key without surrogate code units always gets its URL when the
    send succeeds; a failed send is passed on with its own message. *)
Theorem uploadToS3_outcomes (env : Env) (key : jsstring)
    (message : option jsstring) :
  uploadToS3 env (Some message) key = Threw message
  /\ (forallb noSurrogate key = true ->
      exists url, uploadToS3 env None key = Ok url).
Proof.
  split; [reflexivity|].
  intros H. destruct (encodeURIComponent_total key H) as [e He].
  unfold uploadToS3. rewrite He. eauto.
Qed.

Lemma uploadToS3_outcomes_witness :
  exists url,
    uploadToS3 (mkEnv None None (Some [])) None (lit "uploads/1-cat.png") = Ok url.
Proof.
  apply (uploadToS3_outcomes (mkEnv None None (Some [])) (lit "uploads/1-cat.png") None).
  reflexivity.
Defined.

End UploadToS3.

(* ================================================================== *)
(** * The upload handler *)

Section UploadHandler.

Import Upload.

Local Open Scope string_scope.

Lemma encode_uploads_prefix (rest : jsstring) :
  encodeURIComponent (lit "uploads/" ++ rest)%list
  = option_map (app (lit "uploads%2F")) (encodeURIComponent rest).
Proof.
  change (lit "uploads/") with [117; 112; 108; 111; 97; 100; 115; 47]%N.
  change (lit "uploads%2F") with [117; 112; 108; 111; 97; 100; 115; 37; 50; 70]%N.
  simpl. destruct (encodeURIComponent rest); reflexivity.
Qed.

(** X20: the upload handler answers 200 exactly when the request is a
    POST, the form held a file, the file could be read and the upload
    returned a URL; the body then carries the key
    [uploads/<ms>-<file name>] and that URL, whose path starts with
    [/uploads%2F]. *)
Theorem upload_success (env : Env) (o : Oracle) (method : string) :
  status (fst (handler env o method)) = 200%Z
  <-> method = "POST"
      /\ exists file data url,
           parseForm o = Ok (Some file)
           /\ readFileSync o (filepath file) = Ok data
           /\ uploadToS3 env (send o) (uploadKey (now o) file) = Ok url
           /\ body (fst (handler env o method))
              = KeyBody (uploadKey (now o) file) url
           /\ exists e, url = (publicBase env ++ lit "/uploads%2F" ++ e)%list.
Proof.
  unfold handler.
  destruct (String.eqb_spec method "POST") as [->|Hm]; cbn [negb].
  - destruct (parseForm o) as [[file|]|m] eqn:Hp.
    + destruct (readFileSync o (filepath file)) as [data|m] eqn:Hr.
      * destruct (uploadToS3 env (send o) (uploadKey (now o) file))
          as [url|m] eqn:Hu; cbn [fst snd status body].
        -- split; [intros _|reflexivity]. split; [reflexivity|].
           exists file, data, url. repeat split; try assumption.
           unfold uploadToS3, uploadKey in Hu.
           destruct (send o); [discriminate|].
           rewrite encode_uploads_prefix in Hu.
           match type of Hu with
           | context [encodeURIComponent ?r] =>
               destruct (encodeURIComponent r) as [e|]; [|discriminate]
           end.
           cbn [option_map] in Hu. injection Hu as <-. exists e.
           reflexivity.
        -- split; [discriminate|].
           intros [_ (f & d & u & Hf & _ & Hu' & _)].
           injection Hf as <-. congruence.
      * cbn [fst snd status body]. split; [discriminate|].
        intros [_ (f & d & u & Hf & Hr' & _)]. injection Hf as <-. congruence.
    + cbn [fst snd status body]. split; [discriminate|].
      intros [_ (f & d & u & Hf & _)]. discriminate.
    + cbn [fst snd status body]. split; [discriminate|].
      intros [_ (f & d & u & Hf & _)]. discriminate.
  - cbn [fst snd status body]. split; [discriminate | intros [E _]; now contradiction Hm].
Qed.

(** X21: the upload handler calls the storage only after the form was
    parsed and the file read, once, with the key of the answer and a
    content type that is never empty; a request that is not a POST
    calls nothing; a file that cannot be read is answered 400, and only
    a failed upload is answered 500. *)
Theorem upload_calls (env : Env) (o : Oracle) (method : string) :
  let r := handler env o method in
  (method <> "POST" -> r = (mkResponse 405 (ErrorBody (lit "Method not allowed")), []))
  /\ (forall key contentType, In (PutObject key contentType) (snd r) ->
        exists file,
          parseForm o = Ok (Some file)
          /\ snd r = [ParseForm; ReadFile (filepath file);
                      PutObject key contentType]
          /\ key = uploadKey (now o) file
          /\ contentType <> []
          /\ (status (fst r) = 200 \/ status (fst r) = 500)%Z)
  /\ (status (fst r) = 500%Z ->
      exists file message,
        parseForm o = Ok (Some file)
        /\ uploadToS3 env (send o) (uploadKey (now o) file) = Threw message)
  /\ (forall file message,
        method = "POST" -> parseForm o = Ok (Some file) ->
        readFileSync o (filepath file) = Threw message ->
        status (fst r) = 400%Z).
Proof.
  cbn zeta. unfold handler.
  destruct (String.eqb_spec method "POST") as [->|Hm]; cbn [negb].
  - split; [intros H; now contradiction H|].
    destruct (parseForm o) as [[file|]|m] eqn:Hp.
    + destruct (readFileSync o (filepath file)) as [data|m] eqn:Hr.
      * assert (Hct : orDefault (mimetype file) "application/octet-stream" <> []).
        { unfold orDefault. destruct (mimetype file) as [[|c r]|]; discriminate. }
        destruct (uploadToS3 env (send o) (uploadKey (now o) file))
          as [url|m] eqn:Hu; cbn [fst snd status].
        -- split; [|split; [discriminate|]].
           ++ intros key ct [H|[H|[H|[]]]]; try discriminate.
              injection H as <- <-. exists file. repeat split; auto.
           ++ intros f m _ Hf Hr'. injection Hf as <-. congruence.
        -- split; [|split].
           ++ intros key ct [H|[H|[H|[]]]]; try discriminate.
              injection H as <- <-. exists file. repeat split; auto.
           ++ intros _. now exists file, m.
           ++ intros f m' _ Hf Hr'. injection Hf as <-. congruence.
      * cbn [fst snd status]. split; [|split; [discriminate|reflexivity]].
        intros key ct [H|[H|[]]]; discriminate.
    + cbn [fst snd status]. split; [|split; [discriminate|]].
      * intros key ct [H|[]]; discriminate.
      * intros f m _ Hf. discriminate.
    + cbn [fst snd status]. split; [|split; [discriminate|]].
      * intros key ct [H|[]]; discriminate.
      * intros f m' _ Hf. discriminate.
  - split; [reflexivity|]. cbn [fst snd status].
    split; [intros key ct []|]. split; [discriminate|].
    intros f m E. now contradiction Hm.
Qed.

Lemma upload_calls_witness :
  let o := mkOracle (Ok (Some (mkFile "/tmp/upload_1" None None)))
             (fun _ => Threw (Some (lit "EACCES"))) 1700000000000 None in
  status (fst (handler (mkEnv None None None) o "POST")) = 400%Z.
Proof.
  intros o.
  destruct (upload_calls (mkEnv None None None) o "POST") as (_ & _ & _ & H).
  apply (H (mkFile "/tmp/upload_1" None None) (Some (lit "EACCES")));
    reflexivity.
Defined.

End UploadHandler.

Section UploadHandlerWitness.

Import Upload.

Local Open Scope string_scope.

Lemma upload_success_witness :
  let o := mkOracle (Ok (Some (mkFile "/tmp/upload_1" (Some (lit "cat.png"))
                                 (Some (lit "image/png")))))
             (fun _ => Ok [137; 80; 78; 71]%N) 1700000000000 None in
  let env := mkEnv (Some (lit "eu-west-1")) (Some (lit "clips")) None in
  body (fst (handler env o "POST"))
  = KeyBody (lit "uploads/1700000000000-cat.png")
      (lit "https://clips.s3.eu-west-1.amazonaws.com/uploads%2F1700000000000-cat.png").
Proof.
  intros o env.
  destruct (proj1 (upload_success env o "POST") eq_refl)
    as (_ & file & data & url & Hf & _ & Hu & Hb & _).
  injection Hf as <-. rewrite Hb. f_equal.
  vm_compute in Hu. injection Hu as <-. reflexivity.
Defined.

End UploadHandlerWitness.

(* ================================================================== *)
(** * The diagnostics handler *)

Section DiagnosticsHandler.

Import Diagnostics.

Local Open Scope string_scope.

Lemma firstLine_no_newline (out : string) :
  ~ In "010"%char (list_ascii_of_string (firstLine out)).
Proof.
  induction out as [|c rest IH]; [intros []|].
  cbn [firstLine]. destruct (Ascii.eqb_spec c "010") as [->|Hne]; [intros []|].
  cbn. intros [H|H]; [now contradiction Hne | now apply IH].
Qed.

Lemma firstLine_prefix (out : string) :
  String.prefix (firstLine out) out = true.
Proof.
  induction out as [|c rest IH]; [reflexivity|].
  cbn [firstLine]. destruct (Ascii.eqb c "010"); [reflexivity|].
  cbn. destruct (ascii_dec c c) as [_|N]; [exact IH | now contradiction N].
Qed.

Lemma truthy_idem (s : option string) : truthy (truthy s) = truthy s.
Proof.
  unfold truthy. destruct s as [p|]; [|reflexivity].
  destruct (String.eqb_spec p ""); [reflexivity|].
  destruct (String.eqb_spec p ""); [contradiction | reflexivity].
Qed.

Lemma truthy_detectFfmpeg (h : Host) : truthy (detectFfmpeg h) = detectFfmpeg h.
Proof.
  unfold detectFfmpeg.
  destruct (truthy (FFMPEG_PATH h)) as [e|] eqn:He.
  - destruct (existsSync h e); [|apply truthy_idem].
    rewrite <- He. apply truthy_idem.
  - destruct (truthy (ffmpegStatic h)) as [s|] eqn:Hs; [|apply truthy_idem].
    destruct (existsSync h s); [|apply truthy_idem].
    rewrite <- Hs. apply truthy_idem.
Qed.

Lemma isSet_iff (s : option jsstring) :
  isSet s = true <-> exists a, s = Some a /\ a <> [].
Proof.
  unfold isSet. destruct s as [[|c a]|]; split; try discriminate.
  - intros (a & Ha & Hne). injection Ha as <-. now contradiction Hne.
  - intros _. eexists. split; [reflexivity | discriminate].
  - reflexivity.
  - intros (a & Ha & _). discriminate.
Qed.

Lemma configured_iff (env : Env) :
  isSet (AWS_REGION env) && isSet (S3_BUCKET_NAME env) = true
  <-> exists a b, AWS_REGION env = Some a /\ a <> []
                  /\ S3_BUCKET_NAME env = Some b /\ b <> [].
Proof.
  rewrite andb_true_iff, !isSet_iff. split.
  - intros [(a & Ha & Hna) (b & Hb & Hnb)]. now exists a, b.
  - intros (a & b & Ha & Hna & Hb & Hnb). split; eauto.
Qed.

(** X22: the report is consistent: the encoder is available exactly when
    a path is given, and exactly when a version is given; the version
    is the first line of the encoder's output, without a line break, or
    [unknown] when the encoder could not be run; the storage counts as
    configured exactly when region and bucket are both set and not
    empty. *)
Theorem diagnostics_report (h : Host) (env : Env)
    (execSync : string -> option string) :
  let r := handler h env execSync in
  (available (ffmpeg r) = true <-> path (ffmpeg r) <> None)
  /\ (available (ffmpeg r) = true <-> version (ffmpeg r) <> None)
  /\ (forall p, path (ffmpeg r) = Some p ->
        match execSync (p ++ " -version") with
        | Some out =>
            exists v, version (ffmpeg r) = Some v
                      /\ String.prefix v out = true
                      /\ ~ In "010"%char (list_ascii_of_string v)
        | None => version (ffmpeg r) = Some "unknown"
        end)
  /\ (configured (s3 r) = true
      <-> exists a b, AWS_REGION env = Some a /\ a <> []
                      /\ S3_BUCKET_NAME env = Some b /\ b <> []).
Proof.
  cbn zeta. unfold handler. cbn [ffmpeg s3 available path version configured].
  rewrite truthy_detectFfmpeg.
  destruct (detectFfmpeg h) as [p|] eqn:Hd.
  - split; [split; [discriminate | reflexivity]|].
    split; [split; [destruct (execSync _); discriminate | reflexivity]|].
    split.
    + intros q Hq. injection Hq as <-.
      destruct (execSync (p ++ " -version")) as [out|]; [|reflexivity].
      exists (firstLine out). split; [reflexivity|].
      split; [apply firstLine_prefix | apply firstLine_no_newline].
    + apply configured_iff.
  - split; [split; [discriminate | intros H; now contradiction H]|].
    split; [split; [discriminate | intros H; now contradiction H]|].
    split; [intros q Hq; discriminate|].
    apply configured_iff.
Qed.

Lemma diagnostics_report_witness :
  version (ffmpeg (handler bundledHost (mkEnv None None None) (fun _ => None)))
  = Some "unknown".
Proof.
  destruct (diagnostics_report bundledHost (mkEnv None None None) (fun _ => None))
    as (_ & _ & H & _).
  exact (H "/app/node_modules/ffmpeg-static/ffmpeg" eq_refl).
Defined.

(** X23: the diagnostics handler and the generate-video handler agree on
    the host: the report says the encoder is available exactly when
    some request to generate-video can be answered 200 there, and when
    it says it is not, every request is answered with an error. *)
Theorem diagnostics_agrees_with_generate (h : Host) (env : Env)
    (execSync : string -> option string) :
  (available (ffmpeg (handler h env execSync)) = true
   <-> exists o req,
         Pipeline.status (fst (Pipeline.handler h o req idle)) = 200%Z)
  /\ (available (ffmpeg (handler h env execSync)) = false ->
      forall o req w,
        Pipeline.status (fst (Pipeline.handler h o req w)) <> 200%Z).
Proof.
  assert (Hsame : detectFfmpeg h = resolveFfmpeg h) by reflexivity.
  assert (Hav : available (ffmpeg (handler h env execSync)) = true
                <-> resolveFfmpeg h <> None).
  { unfold handler. cbn [ffmpeg available]. rewrite truthy_detectFfmpeg, Hsame.
    destruct (resolveFfmpeg h); split; try discriminate; try reflexivity.
    intros H. now contradiction H. }
  assert (Hnone : resolveFfmpeg h = None ->
                  forall o req w,
                    Pipeline.status (fst (Pipeline.handler h o req w)) <> 200%Z).
  { intros Hn o req w. unfold Pipeline.handler. rewrite Hn.
    destruct (negb _); [discriminate|].
    destruct (truthy (imageKey req)); [|discriminate].
    destruct (truthy (templateId req)) as [t|]; [|discriminate].
    destruct (getTemplateById t); discriminate. }
  split.
  - rewrite Hav. split.
    + intros Hsome.
      exists (collaborators (tickingClock 1700000000000) true true),
             (post (Some "uploads/a.jpg") (Some "slide-funky") None None).
      unfold Pipeline.handler.
      destruct (resolveFfmpeg h) as [p|]; [|now contradiction Hsome].
      vm_compute. reflexivity.
    + intros (o & req & H200) Hn. exact (Hnone Hn o req idle H200).
  - intros Hf. apply Hnone.
    destruct (resolveFfmpeg h) eqn:Hr; [|reflexivity].
    assert (available (ffmpeg (handler h env execSync)) = true)
      by (apply Hav; discriminate).
    congruence.
Qed.

Lemma diagnostics_agrees_with_generate_witness :
  Pipeline.status
    (fst (Pipeline.handler bareHost
            (collaborators (tickingClock 1700000000000) true true)
            (post (Some "uploads/a.jpg") (Some "slide-funky") None None) idle))
  <> 200%Z.
Proof.
  apply (proj2 (diagnostics_agrees_with_generate bareHost (mkEnv None None None)
                  (fun _ => None))).
  reflexivity.
Defined.

End DiagnosticsHandler.

(* ================================================================== *)
(** * The music decoding script *)

Section DecodeScript.

Import MusicDecode.

Local Open Scope string_scope.

Variable utf8Decode : Pipeline.Buffer -> jsstring.
Variable fromBase64 : jsstring -> Pipeline.Buffer.

Lemma stripB64_suffix (x : string) : stripB64 (x ++ ".b64") = x.
Proof.
  induction x as [|c x IH]; [reflexivity|].
  cbn [append stripB64].
  destruct (String.eqb_spec (String c (x ++ ".b64")) ".b64") as [E|_].
  - apply (f_equal String.length) in E. cbn in E.
    rewrite length_append in E. cbn in E. lia.
  - now rewrite IH.
Qed.

Lemma endsWith_b64 (s : string) :
  endsWith ".b64" s = true <-> exists x, s = x ++ ".b64".
Proof.
  induction s as [|c s IH].
  - cbn. split; [discriminate|]. intros [[|c x] H]; discriminate.
  - cbn [endsWith]. rewrite orb_true_iff, IH. split.
    + intros [H|[x ->]].
      * apply String.eqb_eq in H. exists "". exact H.
      * now exists (String c x).
    + intros [[|c' x] H].
      * left. apply String.eqb_eq. exact H.
      * right. cbn in H. injection H as -> ->. now exists x.
Qed.

Lemma strip_back (g : string) :
  endsWith ".b64" g = true -> g = stripB64 g ++ ".b64".
Proof.
  intros H. apply endsWith_b64 in H. destruct H as [x ->].
  now rewrite stripB64_suffix.
Qed.

Lemma lookup_store (name n : string) (e : Entry) (d : Dir) :
  lookup n (store name e d) = if name =? n then Some e else lookup n d.
Proof.
  induction d as [|[m e'] rest IH]; cbn [store lookup].
  - reflexivity.
  - destruct (String.eqb_spec m name) as [->|Hmn]; cbn [lookup].
    + destruct (String.eqb_spec name n); reflexivity.
    + rewrite IH. destruct (String.eqb_spec m n) as [->|Hmn'].
      * destruct (String.eqb_spec name n); [congruence | reflexivity].
      * reflexivity.
Qed.

Lemma decodeOne_lookup (d : Dir) (f n : string) :
  lookup n (decodeOne utf8Decode fromBase64 d f) = lookup n d
  \/ (n = stripB64 f
      /\ lookup n d <> Some Directory
      /\ exists content,
           lookup f d = Some (RegularFile content)
           /\ trim (utf8Decode content) <> []
           /\ lookup n (decodeOne utf8Decode fromBase64 d f)
              = Some (RegularFile (fromBase64 (trim (utf8Decode content))))).
Proof.
  unfold decodeOne. destruct (lookup f d) as [[content|]|] eqn:Hf; [|now left..].
  destruct (trim (utf8Decode content)) as [|c r] eqn:Ht; [now left|].
  unfold writeFileSync.
  destruct ((stripB64 f =? "") || (stripB64 f =? ".") || (stripB64 f =? ".."));
    [now left|].
  destruct (lookup (stripB64 f) d) as [[old|]|] eqn:Ho; [|now left|];
    rewrite lookup_store;
    (destruct (String.eqb_spec (stripB64 f) n) as [<-|Hne]; [right | now left]);
    (split; [reflexivity|]); (split; [congruence|]);
    exists content; (split; [reflexivity|]); (split; [congruence | now rewrite Ht]).
Qed.

Lemma decodeOne_directory (d : Dir) (f n : string) :
  lookup n d <> Some Directory ->
  lookup n (decodeOne utf8Decode fromBase64 d f) <> Some Directory.
Proof.
  intros H. destruct (decodeOne_lookup d f n) as [->|(_ & _ & c & _ & _ & ->)];
    [exact H | discriminate].
Qed.

Lemma In_names (f : string) (d : Dir) :
  In f (map fst d) <-> lookup f d <> None.
Proof.
  induction d as [|[n e] rest IH]; cbn [map fst In lookup].
  - split; [intros [] | intros H; now contradiction H].
  - destruct (String.eqb_spec n f) as [->|Hne].
    + split; [discriminate | now left].
    + rewrite IH. split; [intros [H|H]; [contradiction | exact H] | now right].
Qed.

Lemma fold_untouched (files : list string) (d : Dir) (n : string) :
  ~ In (n ++ ".b64") files ->
  (forall g, In g files -> endsWith ".b64" g = true) ->
  lookup n (fold_left (decodeOne utf8Decode fromBase64) files d) = lookup n d.
Proof.
  revert d. induction files as [|g files IH]; intros d Hnot Hends; [reflexivity|].
  cbn [fold_left]. rewrite IH.
  - destruct (decodeOne_lookup d g n) as [H|(Hn & _)]; [exact H|].
    exfalso. apply Hnot. left. rewrite Hn. apply strip_back.
    apply Hends. now left.
  - intros H. apply Hnot. now right.
  - intros g' Hg'. apply Hends. now right.
Qed.

(** X24: the script changes a file only when the directory holds an entry
    of that name plus [.b64]: every other entry, the [.b64] sources
    included, is as it was, and nothing is removed. *)
Theorem decode_leaves_others (d : Dir) (n : string) :
  lookup (n ++ ".b64") d = None ->
  lookup n (decodeAll utf8Decode fromBase64 d) = lookup n d.
Proof.
  intros Hnone. unfold decodeAll. apply fold_untouched.
  - intros Hin. apply filter_In in Hin. destruct Hin as [Hin _].
    apply In_names in Hin. now contradiction Hin.
  - intros g Hg. apply filter_In in Hg. now destruct Hg.
Qed.

Lemma fold_decoded (files : list string) (d : Dir) (x : string)
    (content : Pipeline.Buffer) :
  let f := x ++ ".b64" in
  let decoded := RegularFile (fromBase64 (trim (utf8Decode content))) in
  lookup f d = Some (RegularFile content) ->
  lookup x d <> Some Directory ->
  trim (utf8Decode content) <> [] ->
  x <> "" -> x <> "." -> x <> ".." ->
  ~ In (f ++ ".b64") files ->
  (forall g, In g files -> endsWith ".b64" g = true) ->
  In f files \/ lookup x d = Some decoded ->
  lookup x (fold_left (decodeOne utf8Decode fromBase64) files d) = Some decoded.
Proof.
  intros f decoded. revert d.
  induction files as [|g files IH];
    intros d Hf Hx Ht Hx1 Hx2 Hx3 Hnot Hends Hor.
  - destruct Hor as [[]|H]. exact H.
  - cbn [fold_left].
    assert (Hg : endsWith ".b64" g = true) by (apply Hends; now left).
    assert (Hf' : lookup f (decodeOne utf8Decode fromBase64 d g)
                  = Some (RegularFile content)).
    { destruct (decodeOne_lookup d g f) as [->|(Hn & _)]; [exact Hf|].
      exfalso. apply Hnot. left. rewrite Hn. now apply strip_back. }
    apply IH; try assumption.
    + now apply decodeOne_directory.
    + intros H. apply Hnot. now right.
    + intros g' Hg'. apply Hends. now right.
    + destruct (String.eqb_spec g f) as [->|Hgf].
      * right. unfold decodeOne. rewrite Hf.
        destruct (trim (utf8Decode content)) as [|c r] eqn:Htrim;
          [now contradiction Ht|].
        unfold f at 1. rewrite stripB64_suffix. unfold writeFileSync.
        apply String.eqb_neq in Hx1, Hx2, Hx3. rewrite Hx1, Hx2, Hx3. cbn [orb].
        destruct (lookup x d) as [[old|]|]; [|now contradiction Hx|];
          rewrite lookup_store, String.eqb_refl; reflexivity.
      * destruct Hor as [[H|H]|H]; [now contradiction Hgf | now left |].
        right. destruct (decodeOne_lookup d g x) as [->|(Hn & _)]; [exact H|].
        exfalso. apply Hgf. rewrite (strip_back g Hg), <- Hn. reflexivity.
Qed.

(** X25: a readable entry [x.b64] whose text is not blank is decoded into
    the entry [x], which then holds the decoded bytes of the trimmed
    text, provided [x] is a file name that can be written (not empty,
    not a dot name, not a directory) and no [x.b64.b64] decodes over
    the source first. *)
Theorem decode_writes_decoded (d : Dir) (x : string)
    (content : Pipeline.Buffer) :
  lookup (x ++ ".b64") d = Some (RegularFile content) ->
  trim (utf8Decode content) <> [] ->
  x <> "" -> x <> "." -> x <> ".." ->
  lookup x d <> Some Directory ->
  lookup (x ++ ".b64" ++ ".b64") d = None ->
  lookup x (decodeAll utf8Decode fromBase64 d)
  = Some (RegularFile (fromBase64 (trim (utf8Decode content)))).
Proof.
  intros Hf Ht Hx1 Hx2 Hx3 Hx Hnone. unfold decodeAll.
  apply (fold_decoded _ d x content); try assumption.
  - intros Hin. apply filter_In in Hin. destruct Hin as [Hin _].
    apply In_names in Hin. rewrite string_append_assoc in Hin.
    now contradiction Hin.
  - intros g Hg. apply filter_In in Hg. now destruct Hg.
  - left. apply filter_In. split.
    + apply In_names. rewrite Hf. discriminate.
    + apply endsWith_b64. now exists x.
Qed.

End DecodeScript.

Section DecodeScriptWitness.

Import MusicDecode.

Local Open Scope string_scope.

Lemma decode_leaves_others_witness :
  lookup "ambient.mp3.b64"
    (decodeAll (fun b => b) (fun s => s)
       [("ambient.mp3.b64", RegularFile (lit " QUJD "))])
  = Some (RegularFile (lit " QUJD ")).
Proof.
  apply (decode_leaves_others (fun b => b) (fun s => s)
           [("ambient.mp3.b64", RegularFile (lit " QUJD "))] "ambient.mp3.b64").
  reflexivity.
Defined.

Lemma decode_writes_decoded_witness :
  lookup "ambient.mp3"
    (decodeAll (fun b => b) (fun s => s)
       [("ambient.mp3.b64", RegularFile (lit " QUJD "))])
  = Some (RegularFile (lit "QUJD")).
Proof.
  apply (decode_writes_decoded (fun b => b) (fun s => s)
           [("ambient.mp3.b64", RegularFile (lit " QUJD "))] "ambient.mp3"
           (lit " QUJD ")); try discriminate; reflexivity.
Defined.

End DecodeScriptWitness.

(* ================================================================== *)
(** * The page *)

Section PageFlow.

Import Page.

(** X26: however the server answers, [onGenerate] ends with the loading
    flag off and the form fields untouched; without a file it sends
    nothing and reports [No file uploaded]; it shows a video only when
    both requests were answered ok, and then shows no message. *)
Theorem onGenerate_settles (server : Server) (st : State) :
  let st' := fst (onGenerate server st) in
  let requests := snd (onGenerate server st) in
  loading st' = false
  /\ (file st' = file st /\ templateId st' = templateId st
      /\ productName st' = productName st /\ includeText st' = includeText st)
  /\ (file st = None ->
      requests = [] /\ videoUrl st' = None
      /\ message st' = lit "No file uploaded")
  /\ (forall u, videoUrl st' = Some u ->
        message st' = []
        /\ exists f up gen,
             file st = Some f
             /\ upload server f = inl up /\ ok up = true
             /\ generate server
                  (mkGenerateBody (key up) (templateId st) (productName st)
                     (includeText st)) = inl gen
             /\ ok gen = true /\ videoUrlOf gen = Some u).
Proof.
  cbn zeta. unfold onGenerate, tryGenerate, uploadImage.
  destruct (file st) as [f|] eqn:Hf.
  - destruct (upload server f) as [up|m] eqn:Hup.
    + destruct (ok up) eqn:Hok; cbn [negb].
      * destruct (generate server _) as [gen|m] eqn:Hgen.
        -- destruct (ok gen) eqn:Hok'; cbn [negb fst snd loading file templateId
                                             productName includeText videoUrl message].
           ++ split; [reflexivity|]. split; [auto|].
              split; [discriminate|].
              intros u Hu. split; [reflexivity|].
              exists f, up, gen. auto 10.
           ++ repeat split; discriminate.
        -- cbn. repeat split; discriminate.
      * cbn. repeat split; discriminate.
    + cbn. repeat split; discriminate.
  - cbn. repeat split; discriminate.
Qed.

Lemma onGenerate_settles_witness :
  let server := mkServer (fun _ => inr (lit "Failed to fetch"))
                  (fun _ => inr (lit "Failed to fetch")) in
  let st := mkState None (lit "zoom-ambient") (lit "Mug") true
              (Some (lit "https://old")) false (lit "old") in
  snd (onGenerate server st) = []
  /\ videoUrl (fst (onGenerate server st)) = None
  /\ message (fst (onGenerate server st)) = lit "No file uploaded".
Proof.
  intros server st.
  destruct (onGenerate_settles server st) as (_ & _ & H & _).
  apply H. reflexivity.
Defined.

(** X27: the page asks for a video only after an upload that was answered
    ok, once, with the key of that answer and the template, product name
    and check box of the form; the check box always travels as a boolean,
    so the handler renders text exactly when the box is ticked and the
    name is not blank. *)
Theorem onGenerate_requests (server : Server) (st : State) (body : GenerateBody) :
  In (PostGenerate body) (snd (onGenerate server st)) ->
  (exists f up,
     file st = Some f /\ upload server f = inl up /\ ok up = true
     /\ snd (onGenerate server st) = [PostUpload f; PostGenerate body]
     /\ bodyImageKey body = key up)
  /\ bodyTemplateId body = templateId st
  /\ bodyProductName body = productName st
  /\ bodyIncludeText body = includeText st
  /\ (Text.showText (Some (bodyProductName body)) (Some (bodyIncludeText body))
      = true
      <-> includeText st = true /\ trim (productName st) <> []).
Proof.
  assert (Hshow : Text.showText (Some (productName st)) (Some (includeText st))
                  = true
                  <-> includeText st = true /\ trim (productName st) <> []).
  { rewrite showText_true. split.
    - intros [Hi (s & Hs & Ht)]. injection Hs as <-.
      split; [|exact Ht]. destruct (includeText st); [reflexivity|].
      now contradiction Hi.
    - intros [Hi Ht]. rewrite Hi. split; [discriminate|].
      exists (productName st). now split. }
  unfold onGenerate, tryGenerate, uploadImage.
  destruct (file st) as [f|] eqn:Hf.
  - destruct (upload server f) as [up|m] eqn:Hup.
    + destruct (ok up) eqn:Hok; cbn [negb].
      * assert (Hreq : forall r : list Request,
                  r = [PostUpload f;
                       PostGenerate (mkGenerateBody (key up) (templateId st)
                                       (productName st) (includeText st))] ->
                  In (PostGenerate body) r ->
                  (exists f0 up0,
                     Some f = Some f0 /\ upload server f0 = inl up0
                     /\ ok up0 = true
                     /\ r = [PostUpload f0; PostGenerate body]
                     /\ bodyImageKey body = key up0)
                  /\ bodyTemplateId body = templateId st
                  /\ bodyProductName body = productName st
                  /\ bodyIncludeText body = includeText st
                  /\ (Text.showText (Some (bodyProductName body))
                        (Some (bodyIncludeText body)) = true
                      <-> includeText st = true /\ trim (productName st) <> [])).
        { intros r -> [H|[H|[]]]; [discriminate|]. injection H as <-.
          cbn [bodyImageKey bodyTemplateId bodyProductName bodyIncludeText].
          split; [|auto]. exists f, up. auto. }
        destruct (generate server _) as [gen|m];
          [destruct (ok gen)|]; cbn [negb snd]; apply Hreq; reflexivity.
      * cbn. intros [H|[]]. discriminate.
    + cbn. intros [H|[]]. discriminate.
  - cbn. intros [].
Qed.

Lemma onGenerate_requests_witness :
  let server :=
    mkServer (fun _ => inl (mkReply true None (Some (lit "uploads/1-a.png")) None))
      (fun _ => inl (mkReply true None None (Some (lit "https://cdn/v.mp4")))) in
  let st := mkState (Some [1; 2; 3]%N) (lit "zoom-ambient") (lit "  ") true
              None false [] in
  Text.showText (Some (lit "  ")) (Some true) = true
  <-> true = true /\ trim (lit "  ") <> [].
Proof.
  intros server st.
  apply (onGenerate_requests server st
           (mkGenerateBody (Some (lit "uploads/1-a.png")) (lit "zoom-ambient")
              (lit "  ") true)).
  right. left. reflexivity.
Defined.

End PageFlow.
